(** * Albion Market Flipper: the dashboard script [static/js/app.js]

    A shallow embedding of the client-side script: the status poller
    ([refreshData], [updateStatus], [updateConnectionIndicator],
    [updateCountWithAnimation], [updateLastUpdateTime]), the quantity-field
    input handler of [setupEventListeners], the table helpers
    ([exportTableToCSV], [sortTable], [filterTable]), [calculateROI], and
    what lives on the window: [startAutoRefresh], [showNotification], the
    [beforeunload], [online], [offline] and [keydown] listeners and the
    debounced auto-submit of filter inputs.

    Conventions of the embedding.
    - A JavaScript string is a [string]; each [ascii] stands for one code
      unit in the range U+0000..U+00FF.
    - A JavaScript Number that the script treats as an integer (counters,
      column indices, parsed quantities) is a [Z]; the Numbers of
      [calculateROI] and of the sort comparator are binary64 [float]s.
      The integer and the Number are the same while the integer is a safe
      one (at most [JS.MAX_SAFE_INTEGER] in absolute value); a statement
      that needs this says so.
    - The DOM is an explicit [page] value threaded through a state and
      exception monad; a thrown exception keeps the mutations made before it.
      The elements found by the four class selectors of the poller are
      four different elements; a table is its row groups, rows and cells.
    - What the browser decides and the script does not (the locale's number
      and time formats, [parseFloat], [localeCompare]) is a [Host]. *)

From Stdlib Require Import ZArith Ascii String Floats Lia Sorted.
From stdpp Require Import gmap strings list.

Local Open Scope Z_scope.

(** ** JavaScript string and number primitives used by the script *)

Module JS.

Definition code (c : ascii) : Z := Z.of_N (N_of_ascii c).

Definition char_of_code (n : Z) : ascii := ascii_of_N (Z.to_N n).

Definition between (lo hi : Z) (c : ascii) : bool :=
  (lo <=? code c) && (code c <=? hi).

(** The double-quote character, U+0022. *)
Definition DQUOTE : ascii := "034"%char.

(** White space and line terminators (the characters [trim] and [parseInt]
    skip): TAB, LF, VT, FF, CR, SP, NBSP. *)
Definition is_whitespace (c : ascii) : bool :=
  between 9 13 c || (code c =? 32) || (code c =? 160).

Fixpoint trimStart (s : string) : string :=
  match s with
  | EmptyString => EmptyString
  | String c r => if is_whitespace c then trimStart r else s
  end.

Fixpoint trimEnd (s : string) : string :=
  match s with
  | EmptyString => EmptyString
  | String c r =>
      match trimEnd r with
      | EmptyString => if is_whitespace c then EmptyString else String c EmptyString
      | r' => String c r'
      end
  end.

(** [String.prototype.trim] *)
Definition trim (s : string) : string := trimEnd (trimStart s).

(** [s.startsWith(t)] *)
Fixpoint startsWith (s t : string) : bool :=
  match t, s with
  | EmptyString, _ => true
  | String _ _, EmptyString => false
  | String b t', String a s' => Ascii.eqb a b && startsWith s' t'
  end.

(** [s.includes(t)]: [t] occurs in [s] at some position. *)
Fixpoint includes (s t : string) : bool :=
  startsWith s t ||
  match s with
  | EmptyString => false
  | String _ r => includes r t
  end.

(** [s.replace(/C/g, by)] for a regular expression [C] that matches exactly
    one character, the characters satisfying [cls]. *)
Fixpoint replace_all (cls : ascii -> bool) (by_ : string) (s : string) : string :=
  match s with
  | EmptyString => EmptyString
  | String c r =>
      if cls c then by_ +:+ replace_all cls by_ r
      else String c (replace_all cls by_ r)
  end.

(** Lower-case mapping of one code unit (A-Z, and U+00C0..U+00DE except the
    multiplication sign U+00D7). *)
Definition lower_char (c : ascii) : ascii :=
  if between 65 90 c || (between 192 222 c && negb (code c =? 215))
  then char_of_code (code c + 32) else c.

(** [String.prototype.toLowerCase] *)
Fixpoint toLowerCase (s : string) : string :=
  match s with
  | EmptyString => EmptyString
  | String c r => String (lower_char c) (toLowerCase r)
  end.

(** [Array.prototype.join] on an array of strings *)
Fixpoint join (sep : string) (l : list string) : string :=
  match l with
  | [] => EmptyString
  | [x] => x
  | x :: r => x +:+ sep +:+ join sep r
  end.

(** Value of a character as a digit (0-9, a-z, A-Z), when below the radix. *)
Definition digit_value (radix : Z) (c : ascii) : option Z :=
  let d :=
    if between 48 57 c then Some (code c - 48)
    else if between 97 122 c then Some (code c - 87)
    else if between 65 90 c then Some (code c - 55)
    else None in
  match d with
  | Some v => if v <? radix then Some v else None
  | None => None
  end.

(** The longest prefix of radix digits, read as a number; [acc] is [None]
    until a digit has been read. *)
Fixpoint parse_digits (radix : Z) (acc : option Z) (s : string) : option Z :=
  match s with
  | EmptyString => acc
  | String c r =>
      match digit_value radix c with
      | Some d => parse_digits radix (Some (default 0 acc * radix + d)) r
      | None => acc
      end
  end.

(** [Number.MAX_SAFE_INTEGER], 2^53 - 1: up to it, in absolute value,
    every integer is a binary64 Number and differs from its neighbours. *)
Definition MAX_SAFE_INTEGER : Z := 9007199254740991.

(** [parseInt(s)] without a radix: leading white space, an optional sign,
    an optional [0x]/[0X] prefix switching to radix 16, then the longest
    run of digits. [None] is NaN. The result is the integer the digits
    denote; the runtime returns the binary64 Number nearest to it, which
    is that integer whenever it is a safe one. *)
Definition parseInt (s : string) : option Z :=
  let s1 := trimStart s in
  let '(sign, s2) :=
    match s1 with
    | String "-" r => (-1, r)
    | String "+" r => (1, r)
    | _ => (1, s1)
    end in
  let '(radix, s3) :=
    match s2 with
    | String "0" (String "x" r) => (16, r)
    | String "0" (String "X" r) => (16, r)
    | _ => (10, s2)
    end in
  match parse_digits radix None s3 with
  | Some n => Some (sign * n)
  | None => None
  end.

(** Decimal digits of a natural number, least significant first. *)
Fixpoint digits_le (fuel : nat) (n : Z) : list Z :=
  match fuel with
  | O => []
  | S f => if n <? 10 then [n] else (n mod 10) :: digits_le f (n / 10)
  end.

Definition digit_char (d : Z) : ascii := char_of_code (48 + d).

Definition digit_chars_le (n : Z) : list ascii :=
  map digit_char (digits_le (S (Z.to_nat (Z.log2 n))) n).

Definition sign_prefix (z : Z) : string :=
  if z <? 0 then "-" else "".

(** [Number.prototype.toString] (and [String(n)]) on an integer: all its
    decimal digits. The runtime prints these for every integer-valued
    Number below 10^21 in absolute value, and an exponent from there on. *)
Definition Number_toString (z : Z) : string :=
  sign_prefix z +:+ string_of_list_ascii (rev (digit_chars_le (Z.abs z))).

(** Digits (least significant first) in groups of three, with [sep]
    between the groups. *)
Fixpoint group3 (sep : ascii) (l : list ascii) : list ascii :=
  match l with
  | a :: b :: c :: ((_ :: _) as r) => a :: b :: c :: sep :: group3 sep r
  | _ => l
  end.

(** An integer formatted with a grouping separator every three digits:
    [1234567] is [1,234,567] with [sep] a comma. *)
Definition format_grouped (sep : ascii) (z : Z) : string :=
  sign_prefix z +:+
  string_of_list_ascii (rev (group3 sep (digit_chars_le (Z.abs z)))).

End JS.

(** ** Values, exceptions and the host environment *)

(** The values a field of the status document can hold: a JSON primitive,
    or [undefined] when the field is absent. *)
Inductive jsval : Type :=
  | VUndefined
  | VNull
  | VBool (b : bool)
  | VNum (z : Z)
  | VStr (s : string).

(** ToBoolean *)
Definition truthy (v : jsval) : bool :=
  match v with
  | VUndefined | VNull => false
  | VBool b => b
  | VNum z => negb (z =? 0)
  | VStr s => negb (String.eqb s "")
  end.

(** ToString, as applied by the [textContent] setter. *)
Definition ToString (v : jsval) : string :=
  match v with
  | VUndefined => "undefined"
  | VNull => "null"
  | VBool true => "true"
  | VBool false => "false"
  | VNum z => JS.Number_toString z
  | VStr s => s
  end.

Inductive js_error : Type :=
  | TypeError (msg : string)
  | SyntaxError (msg : string)
  | NetworkError (msg : string).

Inductive completion (A : Type) : Type :=
  | Normal (a : A)
  | Throw (e : js_error).
Arguments Normal {A} a.
Arguments Throw {A} e.

(** What the browser supplies: the default locale's number and time
    formats, [parseFloat] and [String.prototype.localeCompare]. *)
Class Host : Type := {
  Number_toLocaleString : Z -> string;
  Date_toLocaleTimeString : Z -> string;
  parseFloat : string -> float;
  localeCompare : string -> string -> float
}.

(** ** The status document and the outcome of a fetch *)

(** The five fields [updateStatus] reads from the parsed body. *)
Record snapshot : Type := {
  connection_established : jsval;
  current_player : jsval;
  current_location : jsval;
  offers_count : jsval;
  requests_count : jsval
}.

(** A parsed body: JSON [null], or a value whose properties can be read (a
    body that is not an object reads every field as [undefined]). *)
Inductive payload : Type :=
  | JsonNull
  | JsonObject (o : snapshot).

(** A response: its HTTP status, and what [response.json()] settles to. *)
Record response : Type := {
  status : Z;
  json : completion payload
}.

(** [fetch] rejects on a network failure only; any HTTP status resolves. *)
Inductive fetch_result : Type :=
  | Rejected (e : js_error)
  | Resolved (r : response).

(** ** The page *)

Record element : Type := {
  tagName : string;
  textContent : string;
  classList : list string
}.

(** A [.connection-indicator] element. *)
Record indicator : Type := {
  className : string;
  title : string
}.

(** The elements [updateStatus] looks up with [querySelector]. *)
Inductive slot : Type := PlayerInfo | LocationInfo | OffersCount | RequestsCount.

(** A callback handed to [setTimeout]. *)
Inductive timer_callback : Type :=
  | RemoveClass (s : slot) (cls : string).

Record row : Type := {
  cells : list element;
  display : string
}.

Inductive section_tag : Type := THEAD | TBODY | TFOOT.

Record tsection : Type := {
  sec_tag : section_tag;
  sec_rows : list row
}.

(** An element found by id: its [dataset] and the row groups below it.
    An element without row groups stands for any element that has no
    [tbody] and no [tr] descendant, such as an empty [table]. *)
Record table : Type := {
  dataset : gmap string string;
  sections : list tsection
}.

Record download : Type := {
  file_name : string;
  mime_type : string;
  content : string
}.

Record page : Type := {
  connectionStatus : jsval;
  lastUpdateTime : Z;
  indicators : list indicator;
  playerInfo : option element;
  locationInfo : option element;
  offersCount : option element;
  requestsCount : option element;
  timeElements : list element;
  timers : list (Z * timer_callback);
  console : list (string * option js_error);
  elementsById : gmap string table;
  downloads : list download
}.

Definition set_connectionStatus (v : jsval) (p : page) : page :=
  {| connectionStatus := v; lastUpdateTime := lastUpdateTime p;
     indicators := indicators p; playerInfo := playerInfo p;
     locationInfo := locationInfo p; offersCount := offersCount p;
     requestsCount := requestsCount p; timeElements := timeElements p;
     timers := timers p; console := console p;
     elementsById := elementsById p; downloads := downloads p |}.

Definition set_lastUpdateTime (t : Z) (p : page) : page :=
  {| connectionStatus := connectionStatus p; lastUpdateTime := t;
     indicators := indicators p; playerInfo := playerInfo p;
     locationInfo := locationInfo p; offersCount := offersCount p;
     requestsCount := requestsCount p; timeElements := timeElements p;
     timers := timers p; console := console p;
     elementsById := elementsById p; downloads := downloads p |}.

Definition set_indicators (l : list indicator) (p : page) : page :=
  {| connectionStatus := connectionStatus p; lastUpdateTime := lastUpdateTime p;
     indicators := l; playerInfo := playerInfo p;
     locationInfo := locationInfo p; offersCount := offersCount p;
     requestsCount := requestsCount p; timeElements := timeElements p;
     timers := timers p; console := console p;
     elementsById := elementsById p; downloads := downloads p |}.

Definition get_slot (s : slot) (p : page) : option element :=
  match s with
  | PlayerInfo => playerInfo p
  | LocationInfo => locationInfo p
  | OffersCount => offersCount p
  | RequestsCount => requestsCount p
  end.

Definition set_slot (s : slot) (e : option element) (p : page) : page :=
  {| connectionStatus := connectionStatus p; lastUpdateTime := lastUpdateTime p;
     indicators := indicators p;
     playerInfo := match s with PlayerInfo => e | _ => playerInfo p end;
     locationInfo := match s with LocationInfo => e | _ => locationInfo p end;
     offersCount := match s with OffersCount => e | _ => offersCount p end;
     requestsCount := match s with RequestsCount => e | _ => requestsCount p end;
     timeElements := timeElements p;
     timers := timers p; console := console p;
     elementsById := elementsById p; downloads := downloads p |}.

Definition set_timeElements (l : list element) (p : page) : page :=
  {| connectionStatus := connectionStatus p; lastUpdateTime := lastUpdateTime p;
     indicators := indicators p; playerInfo := playerInfo p;
     locationInfo := locationInfo p; offersCount := offersCount p;
     requestsCount := requestsCount p; timeElements := l;
     timers := timers p; console := console p;
     elementsById := elementsById p; downloads := downloads p |}.

Definition set_timers (l : list (Z * timer_callback)) (p : page) : page :=
  {| connectionStatus := connectionStatus p; lastUpdateTime := lastUpdateTime p;
     indicators := indicators p; playerInfo := playerInfo p;
     locationInfo := locationInfo p; offersCount := offersCount p;
     requestsCount := requestsCount p; timeElements := timeElements p;
     timers := l; console := console p;
     elementsById := elementsById p; downloads := downloads p |}.

Definition set_console (l : list (string * option js_error)) (p : page) : page :=
  {| connectionStatus := connectionStatus p; lastUpdateTime := lastUpdateTime p;
     indicators := indicators p; playerInfo := playerInfo p;
     locationInfo := locationInfo p; offersCount := offersCount p;
     requestsCount := requestsCount p; timeElements := timeElements p;
     timers := timers p; console := l;
     elementsById := elementsById p; downloads := downloads p |}.

Definition set_elementsById (m : gmap string table) (p : page) : page :=
  {| connectionStatus := connectionStatus p; lastUpdateTime := lastUpdateTime p;
     indicators := indicators p; playerInfo := playerInfo p;
     locationInfo := locationInfo p; offersCount := offersCount p;
     requestsCount := requestsCount p; timeElements := timeElements p;
     timers := timers p; console := console p;
     elementsById := m; downloads := downloads p |}.

Definition set_downloads (l : list download) (p : page) : page :=
  {| connectionStatus := connectionStatus p; lastUpdateTime := lastUpdateTime p;
     indicators := indicators p; playerInfo := playerInfo p;
     locationInfo := locationInfo p; offersCount := offersCount p;
     requestsCount := requestsCount p; timeElements := timeElements p;
     timers := timers p; console := console p;
     elementsById := elementsById p; downloads := l |}.

(** ** Statements: state passing with exceptions *)

(** A statement run on a page ends normally with a value or throws; either
    way it leaves the page as mutated so far. *)
Definition M (A : Type) : Type := page -> completion A * page.

#[export] Instance M_ret : MRet M := fun A a p => (Normal a, p).

#[export] Instance M_bind : MBind M := fun A B f m p =>
  match m p with
  | (Normal a, p') => f a p'
  | (Throw e, p') => (Throw e, p')
  end.

Definition throw {A : Type} (e : js_error) : M A := fun p => (Throw e, p).

Definition gets {A : Type} (f : page -> A) : M A := fun p => (Normal (f p), p).

Definition modify (f : page -> page) : M unit := fun p => (Normal tt, f p).

(** [try { m } catch (e) { h(e) }] *)
Definition try_catch {A : Type} (m : M A) (h : js_error -> M A) : M A := fun p =>
  match m p with
  | (Normal a, p') => (Normal a, p')
  | (Throw e, p') => h e p'
  end.

Definition exec {A : Type} (m : M A) (p : page) : page := snd (m p).

(** A computation that reads no state, run as a statement. *)
Definition lift {A : Type} (c : completion A) : M A := fun p => (c, p).

(** ** DOM operations *)

(** The class selectors the poller uses, and the element each finds. *)
Definition selector_slot (selector : string) : option slot :=
  if String.eqb selector ".player-info" then Some PlayerInfo
  else if String.eqb selector ".location-info" then Some LocationInfo
  else if String.eqb selector ".offers-count" then Some OffersCount
  else if String.eqb selector ".requests-count" then Some RequestsCount
  else None.

(** [document.querySelector(selector)]: a handle on the first matching
    element, or [None] for [null]. *)
Definition querySelector (selector : string) : M (option slot) :=
  gets (fun p =>
    match selector_slot selector with
    | Some s => match get_slot s p with Some _ => Some s | None => None end
    | None => None
    end).

Definition update_element (s : slot) (f : element -> element) : M unit :=
  modify (fun p => set_slot s (f <$> get_slot s p) p).

(** [element.textContent] read through a handle. *)
Definition get_textContent (s : slot) : M string :=
  gets (fun p => from_option textContent "" (get_slot s p)).

(** [element.textContent = text] *)
Definition set_textContent (s : slot) (text : string) : M unit :=
  update_element s (fun e =>
    {| tagName := tagName e; textContent := text; classList := classList e |}).

(** [DOMTokenList.add]: the token is appended unless already present. *)
Definition token_add (cls : string) (l : list string) : list string :=
  if existsb (String.eqb cls) l then l else l ++ [cls].

(** [DOMTokenList.remove] *)
Definition token_remove (cls : string) (l : list string) : list string :=
  List.filter (fun c => negb (String.eqb cls c)) l.

Definition with_classList (f : list string -> list string) (e : element) : element :=
  {| tagName := tagName e; textContent := textContent e;
     classList := f (classList e) |}.

(** [element.classList.add(cls)] *)
Definition classList_add (s : slot) (cls : string) : M unit :=
  update_element s (with_classList (token_add cls)).

(** [element.classList.remove(cls)] *)
Definition classList_remove (s : slot) (cls : string) : M unit :=
  update_element s (with_classList (token_remove cls)).

(** [setTimeout(callback, delay)] *)
Definition setTimeout (callback : timer_callback) (delay : Z) : M unit :=
  modify (fun p => set_timers (timers p ++ [(delay, callback)]) p).

(** Running a timer callback when it fires. *)
Definition fire (t : timer_callback) : M unit :=
  match t with
  | RemoveClass s cls => classList_remove s cls
  end.

(** [console.error(message, error)] *)
Definition console_error (message : string) (error : js_error) : M unit :=
  modify (fun p => set_console (console p ++ [(message, Some error)]) p).

(** Reading a property of the parsed body; reading one of [null] throws. *)
Definition get_prop (data : payload) (field : snapshot -> jsval) : M jsval :=
  match data with
  | JsonNull => throw (TypeError "Cannot read properties of null")
  | JsonObject o => mret (field o)
  end.

(** [currentValue !== newValue] with [currentValue] a Number. *)
Definition strict_neq (currentValue : Z) (newValue : jsval) : bool :=
  match newValue with
  | VNum z => negb (currentValue =? z)
  | _ => true
  end.

(** ** The status poller *)

Section Poller.
Context `{Host}.

(** [newValue.toLocaleString()]: throws on [undefined] and [null], is the
    locale's format on a Number, the string itself on a String and
    [toString()] on a Boolean. *)
Definition toLocaleString (v : jsval) : M string :=
  match v with
  | VUndefined => throw (TypeError "Cannot read properties of undefined")
  | VNull => throw (TypeError "Cannot read properties of null")
  | VNum z => mret (Number_toLocaleString z)
  | VBool _ | VStr _ => mret (ToString v)
  end.

Definition connected_indicator : indicator :=
  {| className := "connection-indicator fas fa-circle text-success";
     title := "Connected" |}.

Definition disconnected_indicator : indicator :=
  {| className := "connection-indicator fas fa-circle text-danger";
     title := "Disconnected" |}.

Definition updateConnectionIndicator : M unit :=
  modify (fun p =>
    set_indicators
      (map (fun _ : indicator =>
              if truthy (connectionStatus p) then connected_indicator
              else disconnected_indicator)
           (indicators p)) p).

Definition updateCountWithAnimation (selector : string) (newValue : jsval) : M unit :=
  element ← querySelector selector;
  match element with
  | Some element =>
      text ← get_textContent element;
      let currentValue :=
        default 0 (JS.parseInt (JS.replace_all (Ascii.eqb ",") "" text)) in
      if strict_neq currentValue newValue then
        _ ← classList_add element "fade-in";
        formatted ← toLocaleString newValue;
        _ ← set_textContent element formatted;
        setTimeout (RemoveClass element "fade-in") 300
      else mret tt
  | None => mret tt
  end.

(** [now] is the clock reading [new Date()] takes. *)
Definition updateLastUpdateTime (now : Z) : M unit :=
  _ ← modify (set_lastUpdateTime now);
  modify (fun p =>
    set_timeElements
      (map (fun e =>
              {| tagName := tagName e;
                 textContent := Date_toLocaleTimeString (lastUpdateTime p);
                 classList := classList e |})
           (timeElements p)) p).

Definition updateStatus (data : payload) : M unit :=
  established ← get_prop data connection_established;
  _ ← modify (set_connectionStatus established);
  _ ← updateConnectionIndicator;
  playerElement ← querySelector ".player-info";
  _ ← match playerElement with
      | Some playerElement =>
          player ← get_prop data current_player;
          if truthy player then set_textContent playerElement (ToString player)
          else mret tt
      | None => mret tt
      end;
  locationElement ← querySelector ".location-info";
  _ ← match locationElement with
      | Some locationElement =>
          location ← get_prop data current_location;
          if truthy location then set_textContent locationElement (ToString location)
          else mret tt
      | None => mret tt
      end;
  offers ← get_prop data offers_count;
  _ ← updateCountWithAnimation ".offers-count" offers;
  requests ← get_prop data requests_count;
  updateCountWithAnimation ".requests-count" requests.

(** The rejection handler of [refreshData]. *)
Definition on_rejected (error : js_error) : M unit :=
  _ ← console_error "Error refreshing data:" error;
  _ ← modify (set_connectionStatus (VBool false));
  updateConnectionIndicator.

(** [fetch('/api/status')] once it has settled. *)
Definition settled (outcome : fetch_result) : M response :=
  match outcome with
  | Rejected error => throw error
  | Resolved response => mret response
  end.

(** One poll, from the settled [fetch] to the end of the promise chain:
    [fetch(..).then(response => response.json()).then(data => ..).catch(..)].
    The status of the response is not read. *)
Definition refreshData (outcome : fetch_result) (now : Z) : M unit :=
  try_catch
    (response ← settled outcome;
     data ← lift (json response);
     _ ← updateStatus data;
     updateLastUpdateTime now)
    on_rejected.

End Poller.

(** ** The quantity fields *)

Module Input.

(** An [input] element: its [max] and [value] properties. *)
Record t : Type := {
  max : string;
  value : string
}.

Definition set_value (v : string) (this : t) : t :=
  {| max := max this; value := v |}.

End Input.

(** [a > b] and [a < b] on Numbers, [None] being NaN. *)
Definition num_gt (a b : option Z) : bool :=
  match a, b with
  | Some x, Some y => y <? x
  | _, _ => false
  end.

Definition num_lt (a b : option Z) : bool :=
  match a, b with
  | Some x, Some y => x <? y
  | _, _ => false
  end.

(** The [input] listener [setupEventListeners] installs on every
    [input[name="quantity"]]. The maximum and the value are compared as
    the integers [parseInt] reads and the maximum is written back with all
    its digits; this is what the browser does while the maximum is a safe
    integer, and the statements that rest on it bound the maximum so. *)
Definition quantity_input_listener (this : Input.t) : Input.t :=
  let max := JS.parseInt (Input.max this) in
  let value := JS.parseInt (Input.value this) in
  let this :=
    if num_gt value max
    then Input.set_value (JS.Number_toString (default 0 max)) this
    else this in
  if num_lt value (Some 1)
  then Input.set_value (JS.Number_toString 1) this
  else this.

(** ** Market data processing *)

Definition calculateROI (buyPrice sellPrice : float) : float :=
  if PrimFloat.leb buyPrice 0%float then 0%float
  else PrimFloat.mul
         (PrimFloat.div (PrimFloat.sub sellPrice buyPrice) buyPrice)
         100%float.

Definition calculateProfit (buyPrice sellPrice quantity : float) : float :=
  PrimFloat.mul (PrimFloat.sub sellPrice buyPrice) quantity.

(** ** Table helpers *)

#[export] Instance completion_ret : MRet completion := @Normal.

#[export] Instance completion_bind : MBind completion := fun A B f c =>
  match c with
  | Normal a => f a
  | Throw e => Throw e
  end.

(** [document.getElementById(id)] *)
Definition getElementById (id : string) : M (option table) :=
  gets (fun p => elementsById p !! id).

Definition put_element (id : string) (t : table) : M unit :=
  modify (fun p => set_elementsById (<[id := t]> (elementsById p)) p).

(** [table.querySelectorAll('tr')] *)
Definition all_rows (t : table) : list row :=
  concat (map sec_rows (sections t)).

Definition is_tbody (s : tsection) : bool :=
  match sec_tag s with TBODY => true | _ => false end.

(** [table.querySelector('tbody')]: the first [tbody], or [None]. *)
Definition first_tbody (t : table) : option tsection :=
  List.find is_tbody (sections t).

(** [row.cells[columnIndex]] *)
Definition cell_at (r : row) (columnIndex : Z) : option element :=
  if columnIndex <? 0 then None else cells r !! Z.to_nat columnIndex.

Definition LF : string := String "010"%char EmptyString.

Definition quote : string := String JS.DQUOTE EmptyString.

(** One field of the export: the callback mapped over a row's cells. *)
Definition csv_field (cell : element) : string :=
  let text := JS.trim (textContent cell) in
  if JS.includes text "," || JS.includes text quote
  then quote +:+ JS.replace_all (Ascii.eqb JS.DQUOTE) (quote +:+ quote) text +:+ quote
  else text.

(** The text [exportTableToCSV] puts in the blob. *)
Definition csv_content (t : table) : string :=
  let csv := map (fun row => JS.join "," (map csv_field (cells row))) (all_rows t) in
  JS.join LF csv.

(** [filename] is [None] when the argument is left out. *)
Definition exportTableToCSV (tableId : string) (filename : option string) : M unit :=
  table ← getElementById tableId;
  match table with
  | None => mret tt
  | Some table =>
      let csvContent := csv_content table in
      let name :=
        match filename with
        | Some f => if String.eqb f "" then "albion_market_data.csv" else f
        | None => "albion_market_data.csv"
        end in
      modify (fun p =>
        set_downloads
          (downloads p ++
             [{| file_name := name; mime_type := "text/csv"; content := csvContent |}])
          p)
  end.

(** [Array.prototype.sort] with a comparator that may throw: a stable
    insertion sort. A result that is positive puts the second argument
    first; a negative one, zero or NaN keeps the order. *)
Fixpoint sort_insert {A : Type} (cmp : A -> A -> completion float)
    (x : A) (l : list A) : completion (list A) :=
  match l with
  | [] => mret [x]
  | y :: r =>
      v ← cmp x y;
      if PrimFloat.ltb 0%float v
      then r' ← sort_insert cmp x r; mret (y :: r')
      else mret (x :: y :: r)
  end.

Fixpoint array_sort {A : Type} (cmp : A -> A -> completion float)
    (l : list A) : completion (list A) :=
  match l with
  | [] => mret []
  | x :: r => r' ← array_sort cmp r; sort_insert cmp x r'
  end.

(** [tbody.appendChild(row)]: the row, known by its position in the
    original row list, leaves its place and becomes the last child. *)
Definition appendChild (child : nat * row) (children : list (nat * row)) : list (nat * row) :=
  List.filter (fun c => negb (Nat.eqb (fst c) (fst child))) children ++ [child].

(** Rows paired with their positions. *)
Definition indexed (rows : list row) : list (nat * row) :=
  combine (seq 0 (length rows)) rows.

Definition is_th (c : element) : bool := String.eqb (tagName c) "TH".

(** The callback of [headers.forEach]: [index] is the header's position
    among the [th] elements of the table. *)
Definition mark_header (columnIndex : Z) (newDir : string) (index : nat)
    (header : element) : element :=
  let header :=
    with_classList (fun l => token_remove "sort-desc" (token_remove "sort-asc" l)) header in
  if Z.of_nat index =? columnIndex
  then with_classList (token_add ("sort-" +:+ newDir)) header
  else header.

Fixpoint mark_cells (columnIndex : Z) (newDir : string) (index : nat)
    (cs : list element) : nat * list element :=
  match cs with
  | [] => (index, [])
  | c :: r =>
      if is_th c then
        let '(n, r') := mark_cells columnIndex newDir (S index) r in
        (n, mark_header columnIndex newDir index c :: r')
      else
        let '(n, r') := mark_cells columnIndex newDir index r in
        (n, c :: r')
  end.

Fixpoint mark_rows (columnIndex : Z) (newDir : string) (index : nat)
    (rs : list row) : nat * list row :=
  match rs with
  | [] => (index, [])
  | r :: rest =>
      let '(n, cs) := mark_cells columnIndex newDir index (cells r) in
      let '(n', rest') := mark_rows columnIndex newDir n rest in
      (n', {| cells := cs; display := display r |} :: rest')
  end.

Fixpoint mark_sections (columnIndex : Z) (newDir : string) (index : nat)
    (ss : list tsection) : list tsection :=
  match ss with
  | [] => []
  | s :: rest =>
      let '(n, rs) := mark_rows columnIndex newDir index (sec_rows s) in
      {| sec_tag := sec_tag s; sec_rows := rs |}
        :: mark_sections columnIndex newDir n rest
  end.

(** Replacing the rows of the first [tbody]. *)
Fixpoint set_first_tbody (rows : list row) (ss : list tsection) : list tsection :=
  match ss with
  | [] => []
  | s :: rest =>
      if is_tbody s then {| sec_tag := sec_tag s; sec_rows := rows |} :: rest
      else s :: set_first_tbody rows rest
  end.

Section Tables.
Context `{Host}.

(** The comparator [sortTable] passes to [rows.sort]. *)
Definition compare_rows (columnIndex : Z) (isNumeric : bool) (newDir : string)
    (a b : nat * row) : completion float :=
  match cell_at (snd a) columnIndex with
  | None => Throw (TypeError "Cannot read properties of undefined")
  | Some aCell =>
      let aVal := JS.trim (textContent aCell) in
      match cell_at (snd b) columnIndex with
      | None => Throw (TypeError "Cannot read properties of undefined")
      | Some bCell =>
          let bVal := JS.trim (textContent bCell) in
          let not_numeric c :=
            negb (JS.between 48 57 c || Ascii.eqb c "." || Ascii.eqb c "-") in
          let comparison :=
            if isNumeric then
              let aNum := parseFloat (JS.replace_all not_numeric "" aVal) in
              let bNum := parseFloat (JS.replace_all not_numeric "" bVal) in
              PrimFloat.sub aNum bNum
            else localeCompare aVal bVal in
          Normal (if String.eqb newDir "asc" then comparison
                  else PrimFloat.opp comparison)
      end
  end.

Definition sortTable (tableId : string) (columnIndex : Z) (isNumeric : bool) : M unit :=
  table ← getElementById tableId;
  match table with
  | None => mret tt
  | Some table =>
      match first_tbody table with
      | None => throw (TypeError "Cannot read properties of null")
      | Some tbody =>
          let rows := indexed (sec_rows tbody) in
          let currentSort := dataset table !! "sortColumn" in
          let currentDir :=
            match dataset table !! "sortDirection" with
            | Some d => if String.eqb d "" then "asc" else d
            | None => "asc"
            end in
          let newDir :=
            if bool_decide (currentSort = Some (JS.Number_toString columnIndex))
               && String.eqb currentDir "asc"
            then "desc" else "asc" in
          sorted ← lift (array_sort (compare_rows columnIndex isNumeric newDir) rows);
          let children := foldl (fun ch r => appendChild r ch) rows sorted in
          let sections1 := set_first_tbody (map snd children) (sections table) in
          let dataset1 :=
            <["sortDirection" := newDir]>
              (<["sortColumn" := JS.Number_toString columnIndex]> (dataset table)) in
          put_element tableId
            {| dataset := dataset1;
               sections := mark_sections columnIndex newDir 0 sections1 |}
      end
  end.

End Tables.

(** The callback of [rows.forEach] in [filterTable]. *)
Definition filter_row (filter : string) (columnIndex : Z) (r : row) : row :=
  let text :=
    match cell_at r columnIndex with
    | Some cell => JS.toLowerCase (textContent cell)
    | None => ""
    end in
  {| cells := cells r;
     display := if JS.includes text filter then "" else "none" |}.

Definition filterTable (tableId filterValue : string) (columnIndex : Z) : M unit :=
  table ← getElementById tableId;
  match table with
  | None => mret tt
  | Some table =>
      let filter := JS.toLowerCase filterValue in
      put_element tableId
        {| dataset := dataset table;
           sections :=
             map (fun s =>
                    if is_tbody s
                    then {| sec_tag := sec_tag s;
                            sec_rows := map (filter_row filter columnIndex) (sec_rows s) |}
                    else s)
                 (sections table) |}
  end.

(** ** The window: polling interval, notifications and debounced filters *)

(** The part of the script that lives on the window rather than in the
    document: [startAutoRefresh], [showNotification] and the listeners for
    [beforeunload], [online], [offline], [keydown] and, on the inputs under
    [.auto-submit], [change]. Here [refreshData] is the call that starts a
    poll; what the poll does once the fetch has settled is [refreshData]
    above. *)

Module Lifecycle.

(** The functions the script hands to [setInterval] and [setTimeout]. *)
Inductive handler : Type :=
  | RefreshData
  | RemoveNotification (node : positive)
  | SubmitClosestForm (input : string).

(** An entry of the host's list of active timers. *)
Record timer : Type := {
  repeats : bool;
  delay : Z;
  callback : handler
}.

(** The [div] that [showNotification] creates. *)
Record alert : Type := {
  className : string;
  message : string
}.

(** An input under [.auto-submit]: its [autoSubmitTimeout] property
    ([None] for [undefined]) and the form [closest('form')] finds. *)
Record auto_input : Type := {
  autoSubmitTimeout : option positive;
  closest_form : option string
}.

(** [autoRefreshInterval] is [None] for [null]. Timer handles are positive
    integers handed out in increasing order; [body] lists the notifications
    appended to [document.body], each with the identity of its node;
    [fetches] and [submitted] record the calls of [fetch] and of
    [form.submit()]. [document.body] exists whenever a listener runs. *)
Record window : Type := {
  pathname : string;
  autoRefreshInterval : option positive;
  timers : gmap positive timer;
  next_handle : positive;
  body : list (positive * alert);
  next_node : positive;
  fetches : list string;
  inputs : gmap string auto_input;
  submitted : list string
}.

Definition set_autoRefreshInterval (v : option positive) (w : window) : window :=
  {| pathname := pathname w; autoRefreshInterval := v; timers := timers w;
     next_handle := next_handle w; body := body w; next_node := next_node w;
     fetches := fetches w; inputs := inputs w; submitted := submitted w |}.

Definition set_timers (m : gmap positive timer) (w : window) : window :=
  {| pathname := pathname w; autoRefreshInterval := autoRefreshInterval w; timers := m;
     next_handle := next_handle w; body := body w; next_node := next_node w;
     fetches := fetches w; inputs := inputs w; submitted := submitted w |}.

Definition set_body (l : list (positive * alert)) (w : window) : window :=
  {| pathname := pathname w; autoRefreshInterval := autoRefreshInterval w;
     timers := timers w; next_handle := next_handle w; body := l;
     next_node := next_node w; fetches := fetches w; inputs := inputs w;
     submitted := submitted w |}.

Definition set_inputs (m : gmap string auto_input) (w : window) : window :=
  {| pathname := pathname w; autoRefreshInterval := autoRefreshInterval w;
     timers := timers w; next_handle := next_handle w; body := body w;
     next_node := next_node w; fetches := fetches w; inputs := m;
     submitted := submitted w |}.

(** The host adding an entry to its list of active timers. *)
Definition add_timer (t : timer) (w : window) : positive * window :=
  (next_handle w,
   {| pathname := pathname w; autoRefreshInterval := autoRefreshInterval w;
      timers := <[next_handle w := t]> (timers w);
      next_handle := Pos.succ (next_handle w); body := body w;
      next_node := next_node w; fetches := fetches w; inputs := inputs w;
      submitted := submitted w |}).

Definition setInterval (f : handler) (ms : Z) : window -> positive * window :=
  add_timer {| repeats := true; delay := ms; callback := f |}.

Definition setTimeout (f : handler) (ms : Z) : window -> positive * window :=
  add_timer {| repeats := false; delay := ms; callback := f |}.

(** [clearInterval(handle)] and [clearTimeout(handle)]: the entry, if any,
    leaves the list; [undefined] names no entry. *)
Definition clearInterval (handle : option positive) (w : window) : window :=
  match handle with
  | Some h => set_timers (delete h (timers w)) w
  | None => w
  end.

Definition clearTimeout : option positive -> window -> window := clearInterval.

Definition polling_route (currentPage : string) : bool :=
  String.eqb currentPage "/" || String.eqb currentPage "/arbitrage".

Definition startAutoRefresh (w : window) : window :=
  let currentPage := pathname w in
  if polling_route currentPage then
    let '(handle, w) := setInterval RefreshData 10000 w in
    set_autoRefreshInterval (Some handle) w
  else w.

(** The call [fetch('/api/status')] that starts a poll. *)
Definition fetch (url : string) (w : window) : window :=
  {| pathname := pathname w; autoRefreshInterval := autoRefreshInterval w;
     timers := timers w; next_handle := next_handle w; body := body w;
     next_node := next_node w; fetches := fetches w ++ [url]; inputs := inputs w;
     submitted := submitted w |}.

Definition refreshData (w : window) : window := fetch "/api/status" w.

(** [document.body.appendChild(notification)] for a node just created. *)
Definition appendChild (notification : alert) (w : window) : positive * window :=
  (next_node w,
   {| pathname := pathname w; autoRefreshInterval := autoRefreshInterval w;
      timers := timers w; next_handle := next_handle w;
      body := body w ++ [(next_node w, notification)];
      next_node := Pos.succ (next_node w); fetches := fetches w; inputs := inputs w;
      submitted := submitted w |}).

Definition showNotification (message type : string) (w : window) : window :=
  let notification :=
    {| className := "alert alert-" +:+ type +:+ " alert-dismissible fade show position-fixed";
       message := message |} in
  let '(node, w) := appendChild notification w in
  snd (setTimeout (RemoveNotification node) 5000 w).

(** [node.remove()] *)
Definition remove (node : positive) (w : window) : window :=
  set_body (List.filter (fun c => negb (Pos.eqb (fst c) node)) (body w)) w.

(** Running a timer's function. *)
Definition call (f : handler) (w : window) : completion unit * window :=
  match f with
  | RefreshData => (Normal tt, refreshData w)
  | RemoveNotification node =>
      (Normal tt,
       if existsb (fun c => Pos.eqb (fst c) node) (body w) then remove node w else w)
  | SubmitClosestForm input =>
      match inputs w !! input ≫= closest_form with
      | Some form =>
          (Normal tt,
           {| pathname := pathname w; autoRefreshInterval := autoRefreshInterval w;
              timers := timers w; next_handle := next_handle w; body := body w;
              next_node := next_node w; fetches := fetches w; inputs := inputs w;
              submitted := submitted w ++ [form] |})
      | None => (Throw (TypeError "Cannot read properties of null"), w)
      end
  end.

(** The host firing the timer with the given handle: a timeout leaves the
    list of active timers, an interval stays. *)
Definition fire_timer (h : positive) (w : window) : completion unit * window :=
  match timers w !! h with
  | None => (Normal tt, w)
  | Some t =>
      call (callback t) (if repeats t then w else set_timers (delete h (timers w)) w)
  end.

Definition on_beforeunload (w : window) : window :=
  match autoRefreshInterval w with
  | Some h => clearInterval (Some h) w
  | None => w
  end.

Definition on_online (w : window) : window :=
  let w := showNotification "Connection restored" "success" w in
  match autoRefreshInterval w with
  | None => startAutoRefresh w
  | Some _ => w
  end.

Definition on_offline (w : window) : window :=
  let w := showNotification "Connection lost" "warning" w in
  match autoRefreshInterval w with
  | Some h => set_autoRefreshInterval None (clearInterval (Some h) w)
  | None => w
  end.

Record keyboard_event : Type := {
  ctrlKey : bool;
  metaKey : bool;
  key : string
}.

(** The [keydown] listener; the result tells whether [preventDefault] was
    called. The [Escape] branch hides Bootstrap modals and touches nothing
    of the window recorded here. *)
Definition on_keydown (e : keyboard_event) (w : window) : bool * window :=
  if (ctrlKey e || metaKey e) && String.eqb (key e) "r"
  then (true, showNotification "Data refreshed manually" "info" (refreshData w))
  else (false, w).

(** The [change] listener of an input under [.auto-submit]. *)
Definition on_change (input : string) (w : window) : window :=
  match inputs w !! input with
  | None => w
  | Some this =>
      let w := clearTimeout (autoSubmitTimeout this) w in
      let '(handle, w) := setTimeout (SubmitClosestForm input) 500 w in
      set_inputs
        (<[input := {| autoSubmitTimeout := Some handle;
                       closest_form := closest_form this |}]> (inputs w)) w
  end.

(** What happens to the page once the script has run, [DOMContentLoaded]
    apart. [Dismiss] is the user closing a notification with its button. *)
Inductive event : Type :=
  | Online
  | Offline
  | BeforeUnload
  | Keydown (e : keyboard_event)
  | Change (input : string)
  | TimerFires (handle : positive)
  | Dismiss (node : positive).

Definition step (w : window) (ev : event) : window :=
  match ev with
  | Online => on_online w
  | Offline => on_offline w
  | BeforeUnload => on_beforeunload w
  | Keydown e => snd (on_keydown e w)
  | Change input => on_change input w
  | TimerFires h => snd (fire_timer h w)
  | Dismiss node => remove node w
  end.

Definition run (w : window) (evs : list event) : window := foldl step w evs.

(** The window when the script has run: the listeners for [beforeunload],
    [online], [offline] and [keydown] are registered, nothing polls, no
    timer is set and no [change] listener is installed yet. Only the
    timers this script sets are recorded; of their handles only that they
    differ and grow matters. *)
Definition at_script_load (path : string) : window :=
  {| pathname := path; autoRefreshInterval := None; timers := ∅; next_handle := 1;
     body := []; next_node := 1; fetches := []; inputs := ∅; submitted := [] |}.

(** [setupEventListeners], as far as the window goes: the [change]
    listener is installed on the inputs under [.auto-submit], each given
    with the form [closest('form')] finds for it. *)
Definition setupEventListeners (forms : gmap string (option string)) (w : window) : window :=
  set_inputs ((fun f => {| autoSubmitTimeout := None; closest_form := f |}) <$> forms) w.

(** The [DOMContentLoaded] listener: [initializeApp], [setupEventListeners],
    [startAutoRefresh]. [initializeApp] touches nothing of the window and
    is taken to return (Bootstrap is loaded), as is the part of
    [setupEventListeners] that is not about [.auto-submit]. *)
Definition on_DOMContentLoaded (forms : gmap string (option string)) (w : window) : window :=
  startAutoRefresh (setupEventListeners forms w).

(** The window after a life of the page: the events handled between the
    run of the script and [DOMContentLoaded], then [DOMContentLoaded], then
    the events after it. *)
Definition window_after (path : string) (early : list event)
    (forms : gmap string (option string)) (evs : list event) : window :=
  run (on_DOMContentLoaded forms (run (at_script_load path) early)) evs.

(** The key combination the [keydown] listener takes for a manual refresh. *)
Definition manual_refresh (ev : event) : bool :=
  match ev with
  | Keydown e => (ctrlKey e || metaKey e) && String.eqb (key e) "r"
  | _ => false
  end.

(** The timers the script sets. *)
Definition poller : timer := {| repeats := true; delay := 10000; callback := RefreshData |}.

Definition remover (node : positive) : timer :=
  {| repeats := false; delay := 5000; callback := RemoveNotification node |}.

Definition submitter (input : string) : timer :=
  {| repeats := false; delay := 500; callback := SubmitClosestForm input |}.

(** The active timers that call [refreshData], with their handles. *)
Definition is_poller (t : timer) : bool :=
  match callback t with
  | RefreshData => true
  | _ => false
  end.

Definition pollers (w : window) : list (positive * timer) :=
  List.filter (fun ht => is_poller (snd ht)) (map_to_list (timers w)).

(** A handle the script holds names its own timer or none. *)
Definition names (w : window) (h : positive) (t : timer) : Prop :=
  (h < next_handle w)%positive /\ (timers w !! h = None \/ timers w !! h = Some t).

(** What holds of the window whatever happened. *)
Record consistent (w : window) : Prop := {
  handles_below : forall h t, timers w !! h = Some t -> (h < next_handle w)%positive;
  interval_named : forall h, autoRefreshInterval w = Some h -> names w h poller;
  refresh_is_interval : forall h t,
    timers w !! h = Some t -> callback t = RefreshData -> t = poller;
  timeout_named : forall i a h,
    inputs w !! i = Some a -> autoSubmitTimeout a = Some h -> names w h (submitter i);
  submitter_held : forall h t i,
    timers w !! h = Some t -> callback t = SubmitClosestForm i ->
    exists a, inputs w !! i = Some a /\ autoSubmitTimeout a = Some h;
  alert_expires : forall node a,
    In (node, a) (body w) -> exists h, timers w !! h = Some (remover node);
  route_gates : polling_route (pathname w) = false -> autoRefreshInterval w = None
}.

(** Every timer that polls is the one [autoRefreshInterval] holds. *)
Definition single (w : window) : Prop :=
  forall h t, timers w !! h = Some t -> callback t = RefreshData ->
              autoRefreshInterval w = Some h.

(** The interval with handle [h0] polls and the script has lost its
    handle. *)
Definition orphaned (h0 : positive) (w : window) : Prop :=
  timers w !! h0 = Some poller /\
  autoRefreshInterval w <> Some h0 /\
  (forall i a, inputs w !! i = Some a -> autoSubmitTimeout a <> Some h0) /\
  (h0 < next_handle w)%positive.

End Lifecycle.

(** ** Notions the statements below use *)

(** The two counters of the dashboard. *)
Inductive counter : Type := Offers | Requests.

Definition counter_slot (c : counter) : slot :=
  match c with Offers => OffersCount | Requests => RequestsCount end.

Definition counter_selector (c : counter) : string :=
  match c with Offers => ".offers-count" | Requests => ".requests-count" end.

Definition counter_field (c : counter) : snapshot -> jsval :=
  match c with Offers => offers_count | Requests => requests_count end.

(** The number a counter element shows, read back the way the renderer
    reads it: commas stripped, [parseInt], 0 when that is NaN. *)
Definition shown_value (e : element) : Z :=
  default 0 (JS.parseInt (JS.replace_all (Ascii.eqb ",") "" (textContent e))).

(** The fetch or the parse of its body failed. *)
Definition fetch_or_parse_fails (outcome : fetch_result) : Prop :=
  match outcome with
  | Rejected _ => True
  | Resolved r => match json r with Throw _ => True | Normal _ => False end
  end.

(** Everything a poll can display, apart from the connection indicator. *)
Definition displayed_fields (p : page)
  : option element * option element * option element * option element
    * list element * Z :=
  (playerInfo p, locationInfo p, offersCount p, requestsCount p,
   timeElements p, lastUpdateTime p).

Definition is_2xx (status : Z) : bool := (200 <=? status) && (status <=? 299).

(** A host whose locale writes an integer as its decimal digits with
    commas between groups: stripping the commas leaves the numeral. *)
Definition comma_grouping (h : Host) : Prop :=
  forall z : Z,
    JS.replace_all (Ascii.eqb ",") "" (@Number_toLocaleString h z) = JS.Number_toString z.

(** [sub] occurs in [s]. *)
Definition occurs_in (sub s : string) : Prop :=
  exists pre post : string, s = pre +:+ sub +:+ post.

(** Case-insensitive occurrence: occurrence after lower-casing both. *)
Definition occurs_ignoring_case (sub s : string) : Prop :=
  occurs_in (JS.toLowerCase sub) (JS.toLowerCase s).

(** The text of a row in a column; a row with no cell there has none. *)
Definition column_text (r : row) (columnIndex : Z) : string :=
  from_option textContent "" (cell_at r columnIndex).

(** [table.querySelectorAll('tbody tr')] *)
Definition body_rows (t : table) : list row :=
  concat (map sec_rows (List.filter is_tbody (sections t))).

(** CSV quoting as the specification words it: every double quote of the
    field doubled. *)
Fixpoint double_quotes (s : string) : string :=
  match s with
  | EmptyString => EmptyString
  | String c r =>
      if Ascii.eqb c JS.DQUOTE
      then String JS.DQUOTE (String JS.DQUOTE (double_quotes r))
      else String c (double_quotes r)
  end.

(** The character [c] occurs in [s]. *)
Fixpoint has_char (c : ascii) (s : string) : Prop :=
  match s with
  | EmptyString => False
  | String a r => a = c \/ has_char c r
  end.

(** The sort state of a table reads as ascending on a column: the column is
    the recorded one, and the recorded direction is [asc] or not set. *)
Definition sorted_ascending_on (t : table) (columnIndex : Z) : Prop :=
  dataset t !! "sortColumn" = Some (JS.Number_toString columnIndex) /\
  (dataset t !! "sortDirection" = Some "asc" \/
   dataset t !! "sortDirection" = Some "" \/
   dataset t !! "sortDirection" = None).

(** The row has a cell in the column. *)
Definition has_cell (columnIndex : Z) (r : row) : Prop :=
  is_Some (cell_at r columnIndex).

(** The element has a [tbody], and every row of its first [tbody] has a
    cell in the column. *)
Definition sortable_on (t : table) (columnIndex : Z) : Prop :=
  exists tbody, first_tbody t = Some tbody /\
    Forall (has_cell columnIndex) (sec_rows tbody).

(** What the specification asks of one exported field, given the trimmed
    text of its cell. *)
Definition csv_field_spec (text field : string) : Prop :=
  (~ has_char "," text /\ ~ has_char JS.DQUOTE text /\ field = text) \/
  ((has_char "," text \/ has_char JS.DQUOTE text) /\
   field = quote +:+ double_quotes text +:+ quote).

(** What [filterTable] does to one row group. *)
Definition filter_section (filter : string) (columnIndex : Z) (s : tsection) : tsection :=
  if is_tbody s
  then {| sec_tag := sec_tag s;
          sec_rows := map (filter_row filter columnIndex) (sec_rows s) |}
  else s.

(** A property of the page that a statement keeps, also when it throws. *)
Definition stable {A : Type} (P : page -> Prop) (m : M A) : Prop :=
  forall p : page, P p -> P (snd (m p)).

(** The value of a numeral given by its digits, most significant first,
    and least significant first. *)
Definition numeral_value (ds : list Z) : Z :=
  fold_left (fun a d => a * 10 + d) ds 0.

Fixpoint value_le (ds : list Z) : Z :=
  match ds with
  | [] => 0
  | d :: r => d + 10 * value_le r
  end.

Definition is_digit (d : Z) : Prop := 0 <= d < 10.

(** ** Further notions *)

(** What a poll leaves alone unless it says otherwise: everything but the
    four elements found by class and the timers. *)
Definition chrome (p : page)
  : jsval * list indicator * Z * list element
    * list (string * option js_error) * gmap string table * list download :=
  (connectionStatus p, indicators p, lastUpdateTime p, timeElements p,
   console p, elementsById p, downloads p).

(** The indicator [updateConnectionIndicator] paints for a flag. *)
Definition indicator_for (flag : jsval) : indicator :=
  if truthy flag then connected_indicator else disconnected_indicator.

(** The whole document was rendered: the fetch resolved, the body parsed
    and [updateStatus] returned. *)
Definition renders `{Host} (outcome : fetch_result) (p : page) : Prop :=
  exists r data, outcome = Resolved r /\ json r = Normal data /\
                 fst (updateStatus data p) = Normal tt.

(** A label after [updateStatus] has seen the document's value for it. *)
Definition labelled (v : jsval) (e : element) : element :=
  if truthy v
  then {| tagName := tagName e; textContent := ToString v; classList := classList e |}
  else e.

(** The value is [undefined] or [null]. *)
Definition missing (v : jsval) : Prop := v = VUndefined \/ v = VNull.

(** What a cell, a row and a row group show, apart from the classes. *)
Definition cell_content (c : element) : string * string := (tagName c, textContent c).

Definition row_content (r : row) : list (string * string) * string :=
  (map cell_content (cells r), display r).

Definition section_content (s : tsection)
  : section_tag * list (list (string * string) * string) :=
  (sec_tag s, map row_content (sec_rows s)).

(** [table.querySelectorAll('th')], in document order. *)
Definition header_cells (ss : list tsection) : list element :=
  List.filter is_th (concat (map cells (concat (map sec_rows ss)))).

(** Every element of the list is a header marked with its position,
    counted from [index]. *)
Definition marked_from (columnIndex : Z) (newDir : string) (index : nat)
    (l : list element) : Prop :=
  forall k h, l !! k = Some h ->
  exists h0, h = mark_header columnIndex newDir (index + k) h0.

(** The direction a call of [sortTable] on the column chooses. *)
Definition next_direction (t : table) (columnIndex : Z) : string :=
  let currentSort := dataset t !! "sortColumn" in
  let currentDir :=
    match dataset t !! "sortDirection" with
    | Some d => if String.eqb d "" then "asc" else d
    | None => "asc"
    end in
  if bool_decide (currentSort = Some (JS.Number_toString columnIndex))
     && String.eqb currentDir "asc"
  then "desc" else "asc".

(** A comparator does not ask for [y] before [x]: its result is not a
    positive number. *)
Definition in_order {A : Type} (cmp : A -> A -> completion float) (x y : A) : Prop :=
  exists v, cmp x y = Normal v /\ PrimFloat.ltb 0 v = false.

(** The comparator of [sortTable] does not ask for [b] before [a]. *)
Definition precedes `{Host} (columnIndex : Z) (isNumeric : bool) (dir : string)
    (a b : row) : Prop :=
  exists v, compare_rows columnIndex isNumeric dir (0%nat, a) (0%nat, b) = Normal v /\
            PrimFloat.ltb 0 v = false.

(** The lines [exportTableToCSV] joins, one per row. *)
Definition csv_lines (t : table) : list string :=
  map (fun row => JS.join "," (map csv_field (cells row))) (all_rows t).

(** The comparison of two rows on a column, as the specification words
    it: the trimmed texts of their cells in the column, compared as
    numbers (every character but digits, dot and minus dropped, the rest
    parsed as a float, the difference taken) or by the locale. [None] when
    one of the rows has no cell in the column. *)
Definition column_comparison `{Host} (columnIndex : Z) (isNumeric : bool)
    (a b : row) : option float :=
  match cell_at a columnIndex, cell_at b columnIndex with
  | Some aCell, Some bCell =>
      let aVal := JS.trim (textContent aCell) in
      let bVal := JS.trim (textContent bCell) in
      let numeral s :=
        JS.replace_all
          (fun c => negb (JS.between 48 57 c || Ascii.eqb c "." || Ascii.eqb c "-")) "" s in
      Some (if isNumeric
            then PrimFloat.sub (parseFloat (numeral aVal)) (parseFloat (numeral bVal))
            else localeCompare aVal bVal)
  | _, _ => None
  end.

(** [a] may stand before [b] in ascending order: the comparison of [a]
    with [b] is not positive. In descending order: it is not negative. *)
Definition ascending_pair `{Host} (columnIndex : Z) (isNumeric : bool) (a b : row) : Prop :=
  exists v, column_comparison columnIndex isNumeric a b = Some v /\
            PrimFloat.ltb 0 v = false.

Definition descending_pair `{Host} (columnIndex : Z) (isNumeric : bool) (a b : row) : Prop :=
  exists v, column_comparison columnIndex isNumeric a b = Some v /\
            PrimFloat.ltb v 0 = false.

(** The rows are in ascending, in descending order on the column: each row
    may stand before every later one. *)
Definition rows_ascending `{Host} (columnIndex : Z) (isNumeric : bool)
    (rows : list row) : Prop :=
  StronglySorted (ascending_pair columnIndex isNumeric) rows.

Definition rows_descending `{Host} (columnIndex : Z) (isNumeric : bool)
    (rows : list row) : Prop :=
  StronglySorted (descending_pair columnIndex isNumeric) rows.

(** The comparison orders the rows: comparing two of them one way is
    negative exactly when comparing them the other way is positive, any two
    can stand in ascending order one way or the other, and standing in
    ascending order is transitive. *)
Definition orders `{Host} (columnIndex : Z) (isNumeric : bool) (rows : list row) : Prop :=
  (forall a b, In a rows -> In b rows ->
     exists v w, column_comparison columnIndex isNumeric a b = Some v /\
                 column_comparison columnIndex isNumeric b a = Some w /\
                 PrimFloat.ltb v 0 = PrimFloat.ltb 0 w) /\
  (forall a b, In a rows -> In b rows ->
     ascending_pair columnIndex isNumeric a b \/ ascending_pair columnIndex isNumeric b a) /\
  (forall a b c, In a rows -> In b rows -> In c rows ->
     ascending_pair columnIndex isNumeric a b -> ascending_pair columnIndex isNumeric b c ->
     ascending_pair columnIndex isNumeric a c).

(** ** Sample hosts and pages *)

Fixpoint float_of_positive (p : positive) : float :=
  match p with
  | xH => 1%float
  | xO q => PrimFloat.mul 2%float (float_of_positive q)
  | xI q => PrimFloat.add (PrimFloat.mul 2%float (float_of_positive q)) 1%float
  end.

Definition float_of_Z (z : Z) : float :=
  match z with
  | Z0 => 0%float
  | Zpos p => float_of_positive p
  | Zneg p => PrimFloat.opp (float_of_positive p)
  end.

(** [parseFloat] on integer literals (the fraction is not read). *)
Definition parseFloat_integers (s : string) : float :=
  match JS.trimStart s with
  | String "-" r =>
      from_option (fun n => PrimFloat.opp (float_of_Z n)) nan (JS.parse_digits 10 None r)
  | String "+" r => from_option float_of_Z nan (JS.parse_digits 10 None r)
  | r => from_option float_of_Z nan (JS.parse_digits 10 None r)
  end.

(** Comparison by code units: -1, 0 or 1. *)
Fixpoint compare_code_units (a b : string) : float :=
  match a, b with
  | EmptyString, EmptyString => 0%float
  | EmptyString, String _ _ => (-1)%float
  | String _ _, EmptyString => 1%float
  | String x a', String y b' =>
      if JS.code x <? JS.code y then (-1)%float
      else if JS.code y <? JS.code x then 1%float
      else compare_code_units a' b'
  end.

Definition two_digits (n : Z) : string :=
  (if n <? 10 then "0" else "") +:+ JS.Number_toString n.

(** The time of day of a clock reading in milliseconds, UTC, 24 hours. *)
Definition time_24h (now : Z) : string :=
  let s := (now / 1000) mod 86400 in
  two_digits (s / 3600) +:+ ":" +:+ two_digits (s mod 3600 / 60)
    +:+ ":" +:+ two_digits (s mod 60).

(** ... and on a 12-hour clock. *)
Definition time_12h (now : Z) : string :=
  let s := (now / 1000) mod 86400 in
  let h := s / 3600 in
  JS.Number_toString (if h mod 12 =? 0 then 12 else h mod 12)
    +:+ ":" +:+ two_digits (s mod 3600 / 60)
    +:+ ":" +:+ two_digits (s mod 60)
    +:+ (if h <? 12 then " AM" else " PM").

(** A browser whose locale is en-US: [1234567] is written [1,234,567]. *)
Definition en_US : Host := {|
  Number_toLocaleString := JS.format_grouped ",";
  Date_toLocaleTimeString := time_12h;
  parseFloat := parseFloat_integers;
  localeCompare := compare_code_units
|}.

(** A browser whose locale is de-DE: [1234567] is written [1.234.567]. *)
Definition de_DE : Host := {|
  Number_toLocaleString := JS.format_grouped ".";
  Date_toLocaleTimeString := time_24h;
  parseFloat := parseFloat_integers;
  localeCompare := compare_code_units
|}.

Definition text_element (tag text : string) (classes : list string) : element :=
  {| tagName := tag; textContent := text; classList := classes |}.

Definition table_row (tag : string) (texts : list string) : row :=
  {| cells := map (fun s => text_element tag s []) texts; display := "" |}.

(** A table of offers: a header row and three body rows. *)
Definition offers_table : table := {|
  dataset := ∅;
  sections :=
    [ {| sec_tag := THEAD; sec_rows := [table_row "TH" ["Item"; "City"; "Price"]] |};
      {| sec_tag := TBODY;
         sec_rows :=
           [ table_row "TD" ["Adept's Bag"; "Lymhurst"; "12,500"];
             table_row "TD" ["Novice's Cape"; "Martlock"; "900"];
             table_row "TD" ["Carrot"; "Bridgewatch"; "35"] ] |} ]
|}.

(** An element found by id that has no row group: an empty [table]. *)
Definition empty_table : table := {| dataset := ∅; sections := [] |}.

(** A table whose body rows are shorter than the header. *)
Definition ragged_table : table := {|
  dataset := ∅;
  sections :=
    [ {| sec_tag := THEAD; sec_rows := [table_row "TH" ["Item"; "City"; "Price"]] |};
      {| sec_tag := TBODY;
         sec_rows := [ table_row "TD" ["Carrot"]; table_row "TD" ["Bean"] ] |} ]
|}.

(** The dashboard showing player Alice in Lymhurst, 3 offers and 1,204
    requests, disconnected. *)
Definition dashboard : page := {|
  connectionStatus := VBool false;
  lastUpdateTime := 0;
  indicators := [disconnected_indicator];
  playerInfo := Some (text_element "SPAN" "Alice" ["player-info"]);
  locationInfo := Some (text_element "SPAN" "Lymhurst" ["location-info"]);
  offersCount := Some (text_element "SPAN" "3" ["offers-count"]);
  requestsCount := Some (text_element "SPAN" "1,204" ["requests-count"]);
  timeElements := [text_element "SPAN" "12:00:00 AM" ["last-update-time"]];
  timers := [];
  console := [];
  elementsById :=
    <["offers" := offers_table]>
      (<["empty" := empty_table]> (<["ragged" := ragged_table]> ∅));
  downloads := []
|}.

(** A well-formed status document. *)
Definition status_document : snapshot := {|
  connection_established := VBool true;
  current_player := VStr "Bob";
  current_location := VStr "Martlock";
  offers_count := VNum 5;
  requests_count := VNum 1234
|}.

(** A status document that lacks the number of offers. *)
Definition document_without_offers : snapshot := {|
  connection_established := VBool true;
  current_player := VStr "Avalon";
  current_location := VStr "";
  offers_count := VUndefined;
  requests_count := VNum 7
|}.

(** A page with one auto-submit input, inside the form [filters]. *)
Definition filter_forms : gmap string (option string) := {["city" := Some "filters"]}.

(** Ctrl+R. *)
Definition ctrl_r : Lifecycle.keyboard_event :=
  {| Lifecycle.ctrlKey := true; Lifecycle.metaKey := false; Lifecycle.key := "r" |}.

(** * Properties *)

(** ** Numerals, grouping and [parseInt] *)

Module JSFacts.
Import JS.

Lemma digit_cases (d : Z) :
  is_digit d -> d = 0 \/ d = 1 \/ d = 2 \/ d = 3 \/ d = 4 \/ d = 5 \/ d = 6 \/ d = 7 \/ d = 8 \/ d = 9.
Proof. unfold is_digit. lia. Qed.

Ltac each_digit H :=
  apply digit_cases in H;
  repeat (destruct H as [H | H]); subst.

Ltac digit_strings :=
  unfold parseInt;
  repeat match goal with
    | |- context [digit_char ?d] =>
        let c := eval vm_compute in (digit_char d) in
        change (digit_char d) with c
    end;
  simpl.

Ltac numeral_done :=
  f_equal;
  repeat match goal with
    | |- context [fold_left ?f ?ds ?acc] =>
        let v := eval vm_compute in acc in
        progress change (fold_left f ds acc) with (fold_left f ds v)
    end;
  lia.

Lemma digit_value_digit_char (d : Z) :
  is_digit d -> digit_value 10 (digit_char d) = Some d.
Proof. intros Hd. each_digit Hd; reflexivity. Qed.

Lemma digit_char_not_comma (d : Z) :
  is_digit d -> Ascii.eqb "," (digit_char d) = false.
Proof. intros Hd. each_digit Hd; reflexivity. Qed.

Lemma append_cons (a : ascii) (s t : string) : String a s +:+ t = String a (s +:+ t).
Proof. reflexivity. Qed.

Lemma append_nil_l (s : string) : "" +:+ s = s.
Proof. reflexivity. Qed.

Lemma append_assoc_ (a b c : string) : (a +:+ b) +:+ c = a +:+ (b +:+ c).
Proof.
  induction a as [|x a IH]; [reflexivity|].
  rewrite !append_cons. f_equal. exact IH.
Qed.

(** Reading a run of decimal digits continues the number read so far. *)
Lemma parse_digits_numeral (ds : list Z) : forall acc : Z,
  Forall is_digit ds ->
  parse_digits 10 (Some acc) (string_of_list_ascii (map digit_char ds))
  = Some (fold_left (fun a d => a * 10 + d) ds acc).
Proof.
  induction ds as [|d ds IH]; intros acc Hds; simpl; [reflexivity|].
  inversion Hds as [|? ? Hd Hds']; subst.
  rewrite (digit_value_digit_char d Hd). simpl. now rewrite IH.
Qed.

Lemma parseInt_numeral (ds : list Z) :
  ds <> [] -> Forall is_digit ds ->
  parseInt (string_of_list_ascii (map digit_char ds)) = Some (numeral_value ds).
Proof.
  intros Hne Hds. destruct ds as [|d1 ds]; [congruence|].
  inversion Hds as [|? ? Hd1 Hds']; subst.
  unfold numeral_value.
  destruct ds as [|d2 ds].
  - each_digit Hd1; reflexivity.
  - inversion Hds' as [|? ? Hd2 Hds'']; subst.
    pose proof (parse_digits_numeral ds) as P.
    each_digit Hd1; each_digit Hd2; digit_strings.
    all: rewrite P by assumption; numeral_done.
Qed.

Lemma parseInt_negative_numeral (ds : list Z) :
  ds <> [] -> Forall is_digit ds ->
  parseInt ("-" +:+ string_of_list_ascii (map digit_char ds)) = Some (- numeral_value ds).
Proof.
  intros Hne Hds. destruct ds as [|d1 ds]; [congruence|].
  inversion Hds as [|? ? Hd1 Hds']; subst.
  unfold numeral_value.
  destruct ds as [|d2 ds].
  - each_digit Hd1; reflexivity.
  - inversion Hds' as [|? ? Hd2 Hds'']; subst.
    pose proof (parse_digits_numeral ds) as P.
    each_digit Hd1; each_digit Hd2; digit_strings.
    all: rewrite P by assumption; numeral_done.
Qed.

Lemma numeral_value_rev (ds : list Z) : numeral_value (rev ds) = value_le ds.
Proof.
  unfold numeral_value. induction ds as [|d ds IH]; [reflexivity|].
  simpl. rewrite fold_left_app. simpl. rewrite IH. ring.
Qed.

Lemma digits_le_spec (fuel : nat) : forall n : Z,
  0 <= n < 10 ^ Z.of_nat (S fuel) ->
  value_le (digits_le (S fuel) n) = n /\ Forall is_digit (digits_le (S fuel) n)
  /\ digits_le (S fuel) n <> [].
Proof.
  induction fuel as [|fuel IH]; intros n Hn.
  - change (10 ^ Z.of_nat 1) with 10 in Hn.
    simpl. destruct (Z.ltb_spec n 10) as [Hlt | Hge]; [|lia].
    simpl. repeat split; [lia | | discriminate].
    constructor; [unfold is_digit; lia | constructor].
  - change (digits_le (S (S fuel)) n)
      with (if n <? 10 then [n] else (n mod 10) :: digits_le (S fuel) (n / 10)).
    destruct (Z.ltb_spec n 10) as [Hlt | Hge].
    + simpl. repeat split; [lia | | discriminate].
      constructor; [unfold is_digit; lia | constructor].
    + assert (Hq : 0 <= n / 10 < 10 ^ Z.of_nat (S fuel)).
      { rewrite (Nat2Z.inj_succ (S fuel)), Z.pow_succ_r in Hn by lia.
        split; [apply Z.div_pos; lia | apply Z.div_lt_upper_bound; lia]. }
      destruct (IH _ Hq) as (Hv & Hd & _).
      cbn [value_le]. rewrite Hv. repeat split; [| | discriminate].
      * pose proof (Z.div_mod n 10). lia.
      * constructor; [|exact Hd]. unfold is_digit. apply Z.mod_pos_bound. lia.
Qed.

Lemma enough_fuel (n : Z) : 0 <= n -> 0 <= n < 10 ^ Z.of_nat (S (Z.to_nat (Z.log2 n))).
Proof.
  intros Hn. split; [exact Hn|].
  rewrite Nat2Z.inj_succ, Z2Nat.id by apply Z.log2_nonneg.
  destruct (Z.eq_dec n 0) as [-> | Hnz]; [reflexivity|].
  pose proof (Z.log2_spec n ltac:(lia)) as [_ Hup].
  eapply Z.lt_le_trans; [exact Hup|].
  apply Z.pow_le_mono_l. lia.
Qed.

Lemma parseInt_Number_toString (z : Z) : parseInt (Number_toString z) = Some z.
Proof.
  unfold Number_toString, digit_chars_le, sign_prefix.
  destruct (digits_le_spec _ _ (enough_fuel (Z.abs z) (Z.abs_nonneg z))) as (Hv & Hd & Hne).
  rewrite <- map_rev.
  set (ds := rev (digits_le _ (Z.abs z))).
  assert (Hds : Forall is_digit ds).
  { subst ds. apply Forall_rev. exact Hd. }
  assert (Hne' : ds <> []).
  { subst ds. intros E. apply (f_equal (@rev Z)) in E. rewrite rev_involutive in E. exact (Hne E). }
  assert (Hval : numeral_value ds = Z.abs z).
  { subst ds. rewrite numeral_value_rev. exact Hv. }
  destruct (Z.ltb_spec z 0).
  - rewrite parseInt_negative_numeral by assumption. f_equal. lia.
  - rewrite append_nil_l, parseInt_numeral by assumption. f_equal. lia.
Qed.

Lemma replace_all_app (cls : ascii -> bool) (by_ a b : string) :
  replace_all cls by_ (a +:+ b) = replace_all cls by_ a +:+ replace_all cls by_ b.
Proof.
  induction a as [|x a IH]; [reflexivity|].
  rewrite append_cons. simpl. destruct (cls x).
  - rewrite IH, append_assoc_. reflexivity.
  - rewrite IH, append_cons. reflexivity.
Qed.

Lemma replace_all_erase (cls : ascii -> bool) (l : list ascii) :
  replace_all cls "" (string_of_list_ascii l)
  = string_of_list_ascii (List.filter (fun c => negb (cls c)) l).
Proof.
  induction l as [|x l IH]; [reflexivity|].
  simpl. destruct (cls x); simpl; rewrite IH; reflexivity.
Qed.

Lemma group3_step (sep a b c d : ascii) (r : list ascii) :
  group3 sep (a :: b :: c :: d :: r) = a :: b :: c :: sep :: group3 sep (d :: r).
Proof. reflexivity. Qed.

Lemma filter_group3 (sep : ascii) (n : nat) : forall l : list ascii,
  (length l <= n)%nat ->
  Forall (fun c => Ascii.eqb sep c = false) l ->
  List.filter (fun c => negb (Ascii.eqb sep c)) (group3 sep l) = l.
Proof.
  induction n as [|n IH]; intros l Hlen Hl.
  - destruct l; [reflexivity | simpl in Hlen; lia].
  - destruct l as [|a [|b [|c [|d r]]]];
      repeat match goal with
        | H : Forall _ (_ :: _) |- _ => inversion H; subst; clear H
        end.
    5: { rewrite group3_step. cbn [List.filter].
         repeat match goal with
           | H : Ascii.eqb sep ?x = false |- context [Ascii.eqb sep ?x] => rewrite H
           end.
         rewrite Ascii.eqb_refl. cbn [negb]. do 3 f_equal.
         apply IH; [simpl in Hlen |- *; lia | constructor; assumption]. }
    all: simpl;
      repeat match goal with
        | H : Ascii.eqb _ ?x = false |- context [Ascii.eqb _ ?x] => rewrite H
        end; reflexivity.
Qed.

Lemma filter_rev_ {A : Type} (p : A -> bool) (l : list A) :
  List.filter p (rev l) = rev (List.filter p l).
Proof.
  induction l as [|x l IH]; [reflexivity|].
  simpl. rewrite List.filter_app, IH. simpl. destruct (p x); simpl.
  - reflexivity.
  - apply app_nil_r.
Qed.

Lemma digit_chars_le_no_comma (n : Z) :
  0 <= n -> Forall (fun c => Ascii.eqb "," c = false) (digit_chars_le n).
Proof.
  intros Hn. unfold digit_chars_le.
  destruct (digits_le_spec _ _ (enough_fuel n Hn)) as (_ & Hd & _).
  apply List.Forall_map. revert Hd. apply List.Forall_impl.
  intros d. apply digit_char_not_comma.
Qed.

(** Stripping the commas of a comma-grouped integer leaves its numeral. *)
Lemma strip_commas_format_grouped (z : Z) :
  replace_all (Ascii.eqb ",") "" (format_grouped "," z) = Number_toString z.
Proof.
  unfold format_grouped, Number_toString.
  rewrite replace_all_app, replace_all_erase, filter_rev_.
  rewrite (filter_group3 "," _ _ (Nat.le_refl _)
             (digit_chars_le_no_comma _ (Z.abs_nonneg z))).
  f_equal. unfold sign_prefix. destruct (z <? 0); reflexivity.
Qed.

End JSFacts.

Import JSFacts.

(** ** Running statements *)

Lemma bind_gets {A B : Type} (f : page -> A) (k : A -> M B) (p : page) :
  (gets f ≫= k) p = k (f p) p.
Proof. reflexivity. Qed.

Lemma bind_modify {B : Type} (f : page -> page) (k : unit -> M B) (p : page) :
  (modify f ≫= k) p = k tt (f p).
Proof. reflexivity. Qed.

Lemma ret_bind {A B : Type} (a : A) (k : A -> M B) : mret a ≫= k = k a.
Proof. reflexivity. Qed.

Lemma get_set_slot (s : slot) (e : option element) (p : page) :
  get_slot s (set_slot s e p) = e.
Proof. destruct s; reflexivity. Qed.

Lemma get_set_slot_other (s s' : slot) (e : option element) (p : page) :
  s <> s' -> get_slot s (set_slot s' e p) = get_slot s p.
Proof. destruct s, s'; intros Hne; try reflexivity; congruence. Qed.

Lemma set_set_slot (s : slot) (e1 e2 : option element) (p : page) :
  set_slot s e2 (set_slot s e1 p) = set_slot s e2 p.
Proof. destruct s; reflexivity. Qed.

(** ** Properties of the page kept by statements *)

Lemma stable_ret {A : Type} (P : page -> Prop) (a : A) : stable P (mret a).
Proof. intros p Hp. exact Hp. Qed.

Lemma stable_throw {A : Type} (P : page -> Prop) (e : js_error) :
  stable P (@throw A e).
Proof. intros p Hp. exact Hp. Qed.

Lemma stable_gets {A : Type} (P : page -> Prop) (f : page -> A) : stable P (gets f).
Proof. intros p Hp. exact Hp. Qed.

Lemma stable_modify (P : page -> Prop) (f : page -> page) :
  (forall p, P p -> P (f p)) -> stable P (modify f).
Proof. intros Hf p Hp. apply Hf, Hp. Qed.

Lemma stable_bind {A B : Type} (P : page -> Prop) (m : M A) (k : A -> M B) :
  stable P m -> (forall a, stable P (k a)) -> stable P (m ≫= k).
Proof.
  intros Hm Hk p Hp. specialize (Hm p Hp).
  unfold mbind, M_bind. destruct (m p) as [[a | e] p']; cbn [snd] in *.
  - apply Hk, Hm.
  - exact Hm.
Qed.

(** [querySelector] changes nothing and yields the selector's element or
    nothing. *)
Lemma stable_querySelector {B : Type} (P : page -> Prop) (selector : string)
    (k : option slot -> M B) :
  (forall a, a = None \/ a = selector_slot selector -> stable P (k a)) ->
  stable P (querySelector selector ≫= k).
Proof.
  intros Hk p Hp. unfold querySelector. rewrite bind_gets.
  apply Hk; [|exact Hp].
  destruct (selector_slot selector) as [s|]; [|now left].
  destruct (get_slot s p); [now right | now left].
Qed.

Lemma stable_update_other {s s' : slot} (x : option element) (f : element -> element) :
  s <> s' -> stable (fun p => get_slot s p = x) (update_element s' f).
Proof.
  intros Hne. apply stable_modify. intros p Hp.
  rewrite get_set_slot_other by exact Hne. exact Hp.
Qed.

Lemma stable_setTimeout (s : slot) (x : option element) (t : timer_callback) (delay : Z) :
  stable (fun p => get_slot s p = x) (setTimeout t delay).
Proof. apply stable_modify. intros p Hp. destruct s; exact Hp. Qed.

(** ** The status poller *)

Section PollerFacts.
Context `{Host}.

(** The rejection handler, whenever it runs, sets the connection flag to
    false, repaints every indicator as disconnected, logs the error, and
    leaves everything else on the page as it found it. *)
Lemma on_rejected_frame (error : js_error) (p : page) :
  let p' := exec (on_rejected error) p in
  connectionStatus p' = VBool false /\
  indicators p' = map (fun _ => disconnected_indicator) (indicators p) /\
  displayed_fields p' = displayed_fields p /\
  console p' = console p ++ [("Error refreshing data:", Some error)].
Proof. repeat split. Qed.

(** Claim C1. When the fetch rejects or the body does not parse, the poll
    ends in the rejection handler: the connection flag is false afterwards,
    every connection indicator shows the disconnected state, and the
    player, location and counter elements, the update time and everything
    else on the page are as they were before the poll. *)
Theorem failed_poll_touches_only_connection
    (outcome : fetch_result) (now : Z) (p : page) :
  fetch_or_parse_fails outcome ->
  let p' := exec (refreshData outcome now) p in
  fst (refreshData outcome now p) = Normal tt /\
  connectionStatus p' = VBool false /\
  indicators p' = map (fun _ => disconnected_indicator) (indicators p) /\
  displayed_fields p' = displayed_fields p /\
  timers p' = timers p /\
  elementsById p' = elementsById p /\
  downloads p' = downloads p.
Proof.
  intros Hfail p'. subst p'. unfold exec, refreshData, try_catch.
  destruct outcome as [error | [st [data | error]]]; simpl in Hfail; try contradiction.
  - cbn. repeat split.
  - cbn. repeat split.
Qed.

(** Claim C2, amended. The status of the response is never read: a poll
    whose response has a non-2xx status has the outcome its body alone
    determines, the same as under status 200. When the body does not parse
    the poll is a failure (flag false, indicators disconnected, nothing
    else displayed is altered); when it parses, the document is rendered
    like any other. *)
Theorem status_is_not_read (r : response) (now : Z) (p : page) :
  is_2xx (status r) = false ->
  refreshData (Resolved r) now p
    = refreshData (Resolved {| status := 200; json := json r |}) now p /\
  (forall error, json r = Throw error ->
     let p' := exec (refreshData (Resolved r) now) p in
     connectionStatus p' = VBool false /\
     indicators p' = map (fun _ => disconnected_indicator) (indicators p) /\
     displayed_fields p' = displayed_fields p) /\
  (forall data, json r = Normal data ->
     refreshData (Resolved r) now p
     = try_catch (_ ← updateStatus data; updateLastUpdateTime now) on_rejected p).
Proof.
  intros _. destruct r as [st body]. cbn [json status].
  split; [reflexivity|]. split.
  - intros error ->. cbn. repeat split.
  - intros data ->. reflexivity.
Qed.

(** What rendering a Number into a counter does. *)
Lemma updateCount_number (c : counter) (v : Z) (p : page) :
  updateCountWithAnimation (counter_selector c) (VNum v) p =
  match get_slot (counter_slot c) p with
  | None => (Normal tt, p)
  | Some e =>
      if shown_value e =? v then (Normal tt, p)
      else
        (Normal tt,
         set_timers (timers p ++ [(300, RemoveClass (counter_slot c) "fade-in")])
           (set_slot (counter_slot c)
              (Some {| tagName := tagName e;
                       textContent := Number_toLocaleString v;
                       classList := token_add "fade-in" (classList e) |}) p))
  end.
Proof.
  unfold updateCountWithAnimation, querySelector. rewrite bind_gets.
  replace (selector_slot (counter_selector c)) with (Some (counter_slot c))
    by (destruct c; reflexivity).
  destruct (get_slot (counter_slot c) p) as [e|] eqn:E; [|reflexivity].
  unfold get_textContent. rewrite bind_gets, E. cbn [from_option].
  fold (shown_value e). unfold strict_neq.
  destruct (shown_value e =? v); cbn [negb]; [reflexivity|].
  unfold classList_add, set_textContent, update_element, toLocaleString, setTimeout.
  rewrite bind_modify, ret_bind, bind_modify. unfold modify.
  rewrite get_set_slot, set_set_slot, E. destruct c; reflexivity.
Qed.

Lemma stable_updateConnectionIndicator (s : slot) (x : option element) :
  stable (fun p => get_slot s p = x) updateConnectionIndicator.
Proof. apply stable_modify. intros p Hp. destruct s; exact Hp. Qed.

(** Rendering one counter leaves every other element alone, whatever the
    value and whether or not it throws. *)
Lemma updateCount_other (c : counter) (v : jsval) (s : slot) (x : option element) :
  s <> counter_slot c ->
  stable (fun p => get_slot s p = x)
    (updateCountWithAnimation (counter_selector c) v).
Proof.
  intros Hne. unfold updateCountWithAnimation.
  apply stable_querySelector. intros a [-> | ->]; [apply stable_ret|].
  replace (selector_slot (counter_selector c)) with (Some (counter_slot c))
    by (destruct c; reflexivity).
  apply stable_bind; [apply stable_gets|]. intros text.
  destruct (strict_neq _ v); [|apply stable_ret].
  apply stable_bind; [apply stable_update_other, Hne|]. intros _.
  apply stable_bind; [destruct v; first [apply stable_throw | apply stable_ret]|].
  intros formatted.
  apply stable_bind; [apply stable_update_other, Hne|]. intros _.
  apply stable_setTimeout.
Qed.

(** Rendering the value a counter already shows changes nothing. *)
Lemma updateCount_same (c : counter) (e : element) :
  stable (fun p => get_slot (counter_slot c) p = Some e)
    (updateCountWithAnimation (counter_selector c) (VNum (shown_value e))).
Proof.
  intros p Hp. rewrite updateCount_number, Hp, Z.eqb_refl. exact Hp.
Qed.

(** One render reads back: the text [updateCountWithAnimation] leaves in
    the counter parses to the number rendered. *)
Lemma render_reads_back (c : counter) (v : Z) (p : page) (e' : element) :
  comma_grouping H ->
  get_slot (counter_slot c)
    (exec (updateCountWithAnimation (counter_selector c) (VNum v)) p) = Some e' ->
  shown_value e' = v.
Proof.
  intros Hloc. unfold exec. rewrite updateCount_number.
  destruct (get_slot (counter_slot c) p) as [e|] eqn:He; cbn [snd].
  - destruct (Z.eqb_spec (shown_value e) v) as [Heq | Hne]; cbn [snd].
    + rewrite He. intros [= <-]. exact Heq.
    + destruct c; cbn; intros [= <-]; unfold shown_value; cbn;
        rewrite Hloc, parseInt_Number_toString; reflexivity.
  - rewrite He. discriminate.
Qed.

(** The last two statements of [updateStatus], when both return. *)
Lemma render_counters (c : counter) (o : snapshot) (v : Z) (p : page) (e' : element) :
  comma_grouping H ->
  counter_field c o = VNum v ->
  let m := _ ← updateCountWithAnimation ".offers-count" (offers_count o);
           updateCountWithAnimation ".requests-count" (requests_count o) in
  fst (m p) = Normal tt ->
  get_slot (counter_slot c) (snd (m p)) = Some e' ->
  shown_value e' = v.
Proof.
  intros Hloc Hv m. subst m. unfold mbind, M_bind.
  destruct (updateCountWithAnimation ".offers-count" (offers_count o) p)
    as [[[] | err] p1] eqn:Hoffers; [|discriminate].
  intros _ Hslot. destruct c; cbn [counter_field counter_slot] in *.
  - pose proof (updateCount_other Requests (requests_count o) OffersCount
                  (get_slot OffersCount p1) ltac:(discriminate) p1 eq_refl) as Hkeep.
    cbn [counter_selector] in Hkeep. rewrite Hslot in Hkeep.
    apply (render_reads_back Offers v p e' Hloc). unfold exec.
    cbn [counter_selector counter_slot]. rewrite <- Hv, Hoffers. auto.
  - apply (render_reads_back Requests v p1 e' Hloc). unfold exec.
    cbn [counter_selector]. rewrite <- Hv. exact Hslot.
Qed.

(** What holds of every outcome of the continuation, and of a throw,
    holds of the sequence. *)
Lemma bind_outcome {A B : Type} (Q : completion B * page -> Prop)
    (m : M A) (k : A -> M B) :
  (forall a p, Q (k a p)) -> (forall e p, Q (Throw e, p)) ->
  forall p, Q ((m ≫= k) p).
Proof.
  intros Hk Hthrow p. unfold mbind, M_bind.
  destruct (m p) as [[a | e] p1]; [apply Hk | apply Hthrow].
Qed.

(** Claim C3, amended. On a host whose locale writes integers as decimal
    digits grouped by commas, for every integer [v] and either counter:
    after [updateCountWithAnimation] has rendered [v], and likewise after
    an [updateStatus] that returns on a document carrying [v] for the
    counter, the text of the counter element, read back with commas
    stripped, [parseInt] and 0 for NaN, is [v]. *)
Theorem counter_round_trip (c : counter) (v : Z) (p : page) :
  comma_grouping H ->
  (forall e',
     get_slot (counter_slot c)
       (exec (updateCountWithAnimation (counter_selector c) (VNum v)) p) = Some e' ->
     shown_value e' = v) /\
  (forall o e',
     counter_field c o = VNum v ->
     fst (updateStatus (JsonObject o) p) = Normal tt ->
     get_slot (counter_slot c) (exec (updateStatus (JsonObject o)) p) = Some e' ->
     shown_value e' = v).
Proof.
  intros Hloc. split.
  - intros e'. apply render_reads_back, Hloc.
  - intros o e' Hv. unfold exec, updateStatus. cbn [get_prop].
    rewrite !ret_bind. revert p.
    do 6 (apply (bind_outcome
                   (fun r => fst r = Normal tt ->
                             get_slot (counter_slot c) (snd r) = Some e' ->
                             shown_value e' = v));
          [intros ? | intros ? ? [=]]).
    intros p. apply (render_counters c o v p e' Hloc Hv).
Qed.

Lemma token_remove_add (cls : string) (l : list string) :
  existsb (String.eqb cls) l = false ->
  token_remove cls (token_add cls l) = l.
Proof.
  intros Hfresh. unfold token_add, token_remove. rewrite Hfresh.
  rewrite List.filter_app. cbn [List.filter]. rewrite String.eqb_refl.
  cbn [negb]. rewrite app_nil_r.
  induction l as [|c l IH]; [reflexivity|].
  cbn [existsb] in Hfresh. apply orb_false_elim in Hfresh as [Hc Hl].
  cbn [List.filter]. rewrite Hc. cbn [negb]. f_equal. exact (IH Hl).
Qed.

(** Property X7. The transition ends: once the timer set by a render fires, the counter
    shows the new text with the class list it had before. *)
Lemma transition_class_is_removed (c : counter) (v : Z) (p : page) (e : element) :
  get_slot (counter_slot c) p = Some e ->
  shown_value e <> v ->
  existsb (String.eqb "fade-in") (classList e) = false ->
  let rendered := exec (updateCountWithAnimation (counter_selector c) (VNum v)) p in
  last (timers rendered) = Some (300, RemoveClass (counter_slot c) "fade-in") /\
  get_slot (counter_slot c)
    (exec (fire (RemoveClass (counter_slot c) "fade-in")) rendered)
  = Some {| tagName := tagName e;
            textContent := Number_toLocaleString v;
            classList := classList e |}.
Proof.
  intros He Hv Hfresh rendered. subst rendered. unfold exec.
  rewrite updateCount_number, He.
  destruct (Z.eqb_spec (shown_value e) v) as [Heq | _]; [contradiction|].
  cbn [snd]. split.
  - cbn [timers set_timers]. apply last_snoc.
  - unfold fire, classList_remove, update_element, modify. cbn [snd].
    rewrite get_set_slot.
    replace (get_slot (counter_slot c) (set_timers _ _))
      with (Some {| tagName := tagName e;
                    textContent := Number_toLocaleString v;
                    classList := token_add "fade-in" (classList e) |})
      by (destruct c; reflexivity).
    cbn. unfold with_classList. cbn [tagName textContent classList].
    rewrite (token_remove_add "fade-in" _ Hfresh). reflexivity.
Qed.

(** Claim C4. When the status document carries, for a counter, the number
    its element already shows, rendering that counter changes nothing on
    the page, and after [updateStatus] the element is the same as before:
    same text, same class list. *)
Theorem unchanged_counter_is_untouched
    (c : counter) (o : snapshot) (p : page) (e : element) :
  get_slot (counter_slot c) p = Some e ->
  counter_field c o = VNum (shown_value e) ->
  updateCountWithAnimation (counter_selector c) (counter_field c o) p = (Normal tt, p) /\
  get_slot (counter_slot c) (exec (updateStatus (JsonObject o)) p) = Some e.
Proof.
  intros He Hv. split.
  - rewrite Hv, updateCount_number, He, Z.eqb_refl. reflexivity.
  - revert p He. unfold exec.
    change (stable (fun p => get_slot (counter_slot c) p = Some e)
              (updateStatus (JsonObject o))).
    unfold updateStatus. cbn [get_prop]. rewrite !ret_bind.
    apply stable_bind; [apply stable_modify; intros p Hp; destruct c; exact Hp|].
    intros _. apply stable_bind; [apply stable_updateConnectionIndicator|].
    intros _. apply stable_querySelector. intros a Ha.
    apply stable_bind.
    { destruct Ha as [-> | ->]; [apply stable_ret|]. cbn.
      rewrite ret_bind. destruct (truthy _); [|apply stable_ret].
      apply stable_update_other. destruct c; discriminate. }
    intros _. apply stable_querySelector. intros b Hb.
    apply stable_bind.
    { destruct Hb as [-> | ->]; [apply stable_ret|]. cbn.
      rewrite ret_bind. destruct (truthy _); [|apply stable_ret].
      apply stable_update_other. destruct c; discriminate. }
    intros _.
    apply stable_bind; [|intros _]; destruct c; cbn [counter_field] in Hv;
      first [ rewrite Hv; apply (updateCount_same Offers)
            | rewrite Hv; apply (updateCount_same Requests)
            | apply (updateCount_other Offers); discriminate
            | apply (updateCount_other Requests); discriminate ].
Qed.

End PollerFacts.

(** ** Strings: occurrence, quoting, joining *)

Section StringFacts.
Import JS.

Lemma startsWith_spec (t : string) : forall s : string,
  startsWith s t = true <-> exists post, s = t +:+ post.
Proof.
  induction t as [|b t IH]; intros s.
  - destruct s; simpl; split; eauto.
  - destruct s as [|a s]; simpl.
    + split; [discriminate | intros [post Hp]; discriminate].
    + rewrite andb_true_iff, IH. split.
      * intros [Hab [post ->]]. apply Ascii.eqb_eq in Hab. subst.
        exists post. reflexivity.
      * intros [post Hp]. rewrite append_cons in Hp. injection Hp as -> ->.
        split; [apply Ascii.eqb_refl | eauto].
Qed.

Lemma includes_spec (s t : string) : includes s t = true <-> occurs_in t s.
Proof.
  unfold occurs_in. induction s as [|a s IH].
  - cbn [includes]. rewrite orb_false_r, startsWith_spec. split.
    + intros [post Hp]. exists "", post. exact Hp.
    + intros (pre & post & Hp). destruct pre; [eauto | discriminate].
  - cbn [includes]. rewrite orb_true_iff, startsWith_spec, IH. split.
    + intros [[post Hp] | (pre & post & Hp)].
      * exists "", post. exact Hp.
      * exists (String a pre), post. rewrite append_cons, Hp. reflexivity.
    + intros (pre & post & Hp). destruct pre as [|x pre].
      * left. exists post. exact Hp.
      * right. rewrite append_cons in Hp. injection Hp as -> ->. eauto.
Qed.

Lemma includes_empty (s : string) : includes s "" = true.
Proof. destruct s; reflexivity. Qed.

Lemma includes_char (c : ascii) (s : string) :
  includes s (String c "") = true <-> has_char c s.
Proof.
  induction s as [|a s IH]; simpl.
  - split; [discriminate | contradiction].
  - rewrite orb_true_iff, IH.
    assert (Hs : startsWith s "" = true) by (destruct s; reflexivity).
    rewrite Hs, andb_true_r, Ascii.eqb_eq. tauto.
Qed.

Lemma has_char_dec (c : ascii) (s : string) : {has_char c s} + {~ has_char c s}.
Proof.
  induction s as [|a s IH]; simpl.
  - right. tauto.
  - destruct (ascii_dec a c); [left; tauto|]. destruct IH; [left | right]; tauto.
Qed.

Lemma replace_quotes_doubles (s : string) :
  replace_all (Ascii.eqb DQUOTE) (quote +:+ quote) s = double_quotes s.
Proof.
  induction s as [|a s IH]; [reflexivity|].
  cbn [replace_all double_quotes].
  rewrite (Ascii.eqb_sym DQUOTE a), IH.
  destruct (Ascii.eqb a DQUOTE); reflexivity.
Qed.

Lemma join_concat (sep : string) (l : list string) : join sep l = String.concat sep l.
Proof.
  induction l as [|x l IH]; [reflexivity|].
  destruct l as [|y l]; [reflexivity|].
  change (join sep (x :: y :: l)) with (x +:+ sep +:+ join sep (y :: l)).
  rewrite IH. reflexivity.
Qed.

End StringFacts.

Lemma csv_field_meets_spec (cell : element) :
  csv_field_spec (JS.trim (textContent cell)) (csv_field cell).
Proof.
  unfold csv_field, csv_field_spec. set (text := JS.trim (textContent cell)).
  destruct (has_char_dec "," text) as [Hc | Hc];
    destruct (has_char_dec JS.DQUOTE text) as [Hq | Hq].
  all: pose proof (includes_char "," text) as Ic;
       pose proof (includes_char JS.DQUOTE text) as Iq; fold quote in Iq.
  4: { left. repeat split; try assumption.
       destruct (JS.includes text ","); [tauto|].
       destruct (JS.includes text quote); [tauto|]. reflexivity. }
  all: right; split; [tauto|];
       replace (JS.includes text "," || JS.includes text quote) with true;
       [ rewrite replace_quotes_doubles; reflexivity
       | symmetry; apply orb_true_iff; tauto ].
Qed.

(** ** [exportTableToCSV] *)

Lemma Forall2_map_self {A B : Type} (R : A -> B -> Prop) (f : A -> B) (l : list A) :
  (forall x, R x (f x)) -> Forall2 R l (map f l).
Proof. intros HR. induction l; constructor; auto. Qed.

(** Claim C6. The exported text is the rows joined by line feeds, each row
    its fields joined by commas, each field made from the trimmed text of
    its cell: the text itself when it holds neither a comma nor a double
    quote, and otherwise the text between double quotes with every double
    quote in it doubled. *)
Theorem export_serializes_cells
    (p : page) (tableId : string) (filename : option string) (t : table) :
  elementsById p !! tableId = Some t ->
  exists (fields : list (list string)) (name : string),
    Forall2
      (Forall2 (fun cell field => csv_field_spec (JS.trim (textContent cell)) field))
      (map cells (all_rows t)) fields /\
    exportTableToCSV tableId filename p =
    (Normal tt,
     set_downloads
       (downloads p ++
          [{| file_name := name; mime_type := "text/csv";
              content := String.concat LF (map (String.concat ",") fields) |}])
       p).
Proof.
  intros Ht.
  exists (map (map csv_field) (map cells (all_rows t))).
  exists (match filename with
          | Some f => if String.eqb f "" then "albion_market_data.csv" else f
          | None => "albion_market_data.csv"
          end).
  split.
  - apply Forall2_map_self. intros cs. apply Forall2_map_self.
    apply csv_field_meets_spec.
  - unfold exportTableToCSV, getElementById. rewrite bind_gets, Ht.
    unfold modify, csv_content. rewrite join_concat, !List.map_map.
    rewrite (List.map_ext _ _ (fun r => join_concat "," (map csv_field (cells r)))).
    reflexivity.
Qed.

(** ** [filterTable] *)

Lemma filter_row_display (filterValue : string) (columnIndex : Z) (r : row) :
  cells (filter_row (JS.toLowerCase filterValue) columnIndex r) = cells r /\
  ((occurs_ignoring_case filterValue (column_text r columnIndex) /\
    display (filter_row (JS.toLowerCase filterValue) columnIndex r) = "") \/
   (~ occurs_ignoring_case filterValue (column_text r columnIndex) /\
    display (filter_row (JS.toLowerCase filterValue) columnIndex r) = "none")).
Proof.
  split; [reflexivity|].
  unfold filter_row, occurs_ignoring_case, column_text. cbn [display].
  assert (E : match cell_at r columnIndex with
              | Some cell => JS.toLowerCase (textContent cell)
              | None => ""
              end
              = JS.toLowerCase (from_option textContent "" (cell_at r columnIndex))).
  { destruct (cell_at r columnIndex); reflexivity. }
  rewrite E.
  destruct (JS.includes _ _) eqn:Hi; [left | right]; split; try reflexivity.
  - apply includes_spec. exact Hi.
  - rewrite <- includes_spec, Hi. discriminate.
Qed.

Lemma is_tbody_filter_section (filter : string) (columnIndex : Z) (s : tsection) :
  is_tbody (filter_section filter columnIndex s) = is_tbody s.
Proof. unfold filter_section. destruct (is_tbody s) eqn:Hs; [|exact Hs]. exact Hs. Qed.

Lemma body_rows_filtered (filter : string) (columnIndex : Z) (ss : list tsection) (d : gmap string string) :
  body_rows {| dataset := d; sections := map (filter_section filter columnIndex) ss |}
  = map (filter_row filter columnIndex) (body_rows {| dataset := d; sections := ss |}).
Proof.
  unfold body_rows. cbn [sections].
  induction ss as [|s ss IH]; [reflexivity|].
  cbn [map List.filter]. rewrite is_tbody_filter_section.
  destruct (is_tbody s) eqn:Hs; [|exact IH].
  cbn [map concat]. rewrite IH, map_app. f_equal.
  unfold filter_section. rewrite Hs. reflexivity.
Qed.

(** Claim C8. [filterTable] keeps every body row and its cells, and sets
    the row's [display] to the empty string when the filter text occurs,
    ignoring case, in the text of the row's cell in the column, and to
    [none] when it does not. A filter that occurs in no cell of the column
    hides every body row; the empty filter shows every body row. *)
Theorem filterTable_hides_non_matching
    (p : page) (tableId filterValue : string) (columnIndex : Z) (t : table) :
  elementsById p !! tableId = Some t ->
  exists t' : table,
    filterTable tableId filterValue columnIndex p
    = (Normal tt, set_elementsById (<[tableId := t']> (elementsById p)) p) /\
    Forall2
      (fun r r' =>
         cells r' = cells r /\
         ((occurs_ignoring_case filterValue (column_text r columnIndex) /\
           display r' = "") \/
          (~ occurs_ignoring_case filterValue (column_text r columnIndex) /\
           display r' = "none")))
      (body_rows t) (body_rows t') /\
    ((forall r, In r (body_rows t) ->
        ~ occurs_ignoring_case filterValue (column_text r columnIndex)) ->
     Forall (fun r' => display r' = "none") (body_rows t')) /\
    (filterValue = "" -> Forall (fun r' => display r' = "") (body_rows t')).
Proof.
  intros Ht.
  exists {| dataset := dataset t;
            sections := map (filter_section (JS.toLowerCase filterValue) columnIndex)
                            (sections t) |}.
  split; [|split; [|split]].
  - unfold filterTable, getElementById. rewrite bind_gets, Ht. reflexivity.
  - rewrite body_rows_filtered. replace {| dataset := dataset t; sections := sections t |} with t
      by (destruct t; reflexivity).
    apply Forall2_map_self. intros r. apply filter_row_display.
  - intros Hnone. rewrite body_rows_filtered.
    replace {| dataset := dataset t; sections := sections t |} with t
      by (destruct t; reflexivity).
    apply List.Forall_map, List.Forall_forall. intros r Hr.
    destruct (filter_row_display filterValue columnIndex r) as [_ [[Ho _] | [_ Hd]]].
    + exfalso. exact (Hnone r Hr Ho).
    + exact Hd.
  - intros ->. rewrite body_rows_filtered.
    apply List.Forall_map, List.Forall_forall. intros r _.
    unfold filter_row. cbn [display JS.toLowerCase].
    rewrite includes_empty. reflexivity.
Qed.

(** ** [sortTable] *)

Section SortFacts.
Context `{Host}.

Lemma sort_insert_total {A : Type} (P : A -> Prop) (cmp : A -> A -> completion float)
    (x : A) (l : list A) :
  (forall a b, P a -> P b -> exists v, cmp a b = Normal v) ->
  P x -> Forall P l ->
  exists l', sort_insert cmp x l = Normal l' /\ Forall P l'.
Proof.
  intros Hcmp Hx. induction l as [|y l IH]; intros Hl.
  - exists [x]. split; [reflexivity | constructor; [exact Hx | constructor]].
  - inversion Hl as [|? ? Hy Hl']; subst.
    destruct (Hcmp x y Hx Hy) as [v Hv].
    destruct (IH Hl') as (l' & Hi & Hl'').
    cbn [sort_insert]. rewrite Hv. cbn [mbind completion_bind].
    destruct (PrimFloat.ltb 0 v).
    + rewrite Hi. exists (y :: l'). split; [reflexivity | constructor; assumption].
    + exists (x :: y :: l). split; [reflexivity | repeat constructor; assumption].
Qed.

Lemma array_sort_total {A : Type} (P : A -> Prop) (cmp : A -> A -> completion float)
    (l : list A) :
  (forall a b, P a -> P b -> exists v, cmp a b = Normal v) ->
  Forall P l ->
  exists l', array_sort cmp l = Normal l' /\ Forall P l'.
Proof.
  intros Hcmp. induction l as [|x l IH]; intros Hl.
  - exists []. split; [reflexivity | constructor].
  - inversion Hl as [|? ? Hx Hl']; subst.
    destruct (IH Hl') as (l' & Hs & Hl'').
    cbn [array_sort]. rewrite Hs. cbn [mbind completion_bind].
    apply sort_insert_total; assumption.
Qed.

Lemma compare_rows_total (columnIndex : Z) (isNumeric : bool) (newDir : string)
    (a b : nat * row) :
  has_cell columnIndex (snd a) -> has_cell columnIndex (snd b) ->
  exists v, compare_rows columnIndex isNumeric newDir a b = Normal v.
Proof.
  intros [ca Ha] [cb Hb]. unfold compare_rows. rewrite Ha, Hb. eauto.
Qed.

Lemma appendChild_all (P : nat * row -> Prop) (sorted children : list (nat * row)) :
  Forall P sorted -> Forall P children ->
  Forall P (foldl (fun ch r => appendChild r ch) children sorted).
Proof.
  revert children. induction sorted as [|r sorted IH]; intros children Hs Hc.
  - exact Hc.
  - inversion Hs as [|? ? Hr Hs']; subst. cbn [foldl]. apply IH; [exact Hs'|].
    unfold appendChild. apply List.Forall_app. split.
    + apply List.Forall_forall. intros x Hx. apply List.filter_In in Hx as [Hx _].
      revert x Hx. apply List.Forall_forall. exact Hc.
    + constructor; [exact Hr | constructor].
Qed.

Lemma indexed_all (P : row -> Prop) (rows : list row) :
  Forall P rows -> Forall (fun r => P (snd r)) (indexed rows).
Proof.
  intros Hr. unfold indexed. apply List.Forall_forall. intros [i r] Hir.
  apply in_combine_r in Hir. cbn [snd].
  revert r Hir. apply List.Forall_forall. exact Hr.
Qed.

Lemma has_cell_length (columnIndex : Z) (r : row) :
  has_cell columnIndex r <->
  0 <= columnIndex /\ (Z.to_nat columnIndex < length (cells r))%nat.
Proof.
  unfold has_cell, cell_at. destruct (Z.ltb_spec columnIndex 0) as [Hneg | Hpos].
  - split; [intros [x Hx]; discriminate | lia].
  - rewrite lookup_lt_is_Some. tauto.
Qed.

Lemma mark_cells_length (columnIndex : Z) (newDir : string) (cs : list element) :
  forall index, length (snd (mark_cells columnIndex newDir index cs)) = length cs.
Proof.
  induction cs as [|c cs IH]; intros index; [reflexivity|].
  cbn [mark_cells]. destruct (is_th c).
  - specialize (IH (S index)).
    destruct (mark_cells columnIndex newDir (S index) cs) as [n r'].
    cbn [snd length] in *. now rewrite IH.
  - specialize (IH index).
    destruct (mark_cells columnIndex newDir index cs) as [n r'].
    cbn [snd length] in *. now rewrite IH.
Qed.

Lemma mark_rows_has_cell (columnIndex c : Z) (newDir : string) (rs : list row) :
  forall index,
  Forall (has_cell c) rs ->
  Forall (has_cell c) (snd (mark_rows columnIndex newDir index rs)).
Proof.
  induction rs as [|r rs IH]; intros index Hrs; [constructor|].
  inversion Hrs as [|? ? Hr Hrs']; subst.
  cbn [mark_rows].
  pose proof (mark_cells_length columnIndex newDir (cells r) index) as Hlen.
  destruct (mark_cells columnIndex newDir index (cells r)) as [n cs].
  specialize (IH n Hrs').
  destruct (mark_rows columnIndex newDir n rs) as [n' rest'].
  cbn [snd] in *. constructor; [|exact IH].
  apply has_cell_length. apply has_cell_length in Hr.
  cbn [cells]. rewrite Hlen. exact Hr.
Qed.

Lemma mark_sections_first_tbody (columnIndex c : Z) (newDir : string)
    (ss : list tsection) :
  forall index tbody,
  List.find is_tbody ss = Some tbody ->
  Forall (has_cell c) (sec_rows tbody) ->
  exists tbody',
    List.find is_tbody (mark_sections columnIndex newDir index ss) = Some tbody' /\
    Forall (has_cell c) (sec_rows tbody').
Proof.
  induction ss as [|s ss IH]; intros index tbody Hfind Hrows; [discriminate|].
  cbn [mark_sections].
  pose proof (mark_rows_has_cell columnIndex c newDir (sec_rows s) index) as Hmark.
  destruct (mark_rows columnIndex newDir index (sec_rows s)) as [n rs].
  cbn [List.find] in *. unfold is_tbody at 1. cbn [sec_tag]. fold (is_tbody s).
  destruct (is_tbody s).
  - injection Hfind as <-. eexists. split; [reflexivity|]. exact (Hmark Hrows).
  - eapply IH; eassumption.
Qed.

Lemma set_first_tbody_find (rows : list row) (ss : list tsection) (tbody : tsection) :
  List.find is_tbody ss = Some tbody ->
  List.find is_tbody (set_first_tbody rows ss)
  = Some {| sec_tag := sec_tag tbody; sec_rows := rows |}.
Proof.
  induction ss as [|s ss IH]; intros Hfind; [discriminate|].
  cbn [List.find set_first_tbody] in *. destruct (is_tbody s) eqn:Hs.
  - injection Hfind as <-. cbn [List.find]. unfold is_tbody at 1. cbn [sec_tag].
    fold (is_tbody s). rewrite Hs. reflexivity.
  - cbn [List.find]. rewrite Hs. apply IH, Hfind.
Qed.

(** The direction [sortTable] chooses. *)
Lemma new_direction (t : table) (columnIndex : Z) :
  let currentDir :=
    match dataset t !! "sortDirection" with
    | Some d => if String.eqb d "" then "asc" else d
    | None => "asc"
    end in
  let newDir :=
    if bool_decide (dataset t !! "sortColumn" = Some (JS.Number_toString columnIndex))
       && String.eqb currentDir "asc"
    then "desc" else "asc" in
  (sorted_ascending_on t columnIndex /\ newDir = "desc") \/
  (~ sorted_ascending_on t columnIndex /\ newDir = "asc").
Proof.
  unfold sorted_ascending_on. cbv zeta.
  destruct (bool_decide_reflect
              (dataset t !! "sortColumn" = Some (JS.Number_toString columnIndex)))
    as [Hcol | Hcol]; cbn [andb]; [|right; tauto].
  destruct (dataset t !! "sortDirection") as [d|]; [|left; tauto].
  destruct (String.eqb_spec d "") as [-> | Hd]; [left; tauto|].
  destruct (String.eqb_spec d "asc") as [-> | Hasc]; [left; tauto|].
  right. split; [|reflexivity].
  intros [_ [[= ->] | [[= ->] | [=]]]]; congruence.
Qed.

(** One call on a table whose rows all have the cell: it returns, keeps
    the table sortable and records the column and the direction. *)
Lemma sortTable_once (p : page) (tableId : string) (columnIndex : Z)
    (isNumeric : bool) (t : table) :
  elementsById p !! tableId = Some t ->
  sortable_on t columnIndex ->
  exists t' : table,
    sortTable tableId columnIndex isNumeric p
    = (Normal tt, set_elementsById (<[tableId := t']> (elementsById p)) p) /\
    sortable_on t' columnIndex /\
    dataset t' !! "sortColumn" = Some (JS.Number_toString columnIndex) /\
    ((sorted_ascending_on t columnIndex /\ dataset t' !! "sortDirection" = Some "desc") \/
     (~ sorted_ascending_on t columnIndex /\ dataset t' !! "sortDirection" = Some "asc")).
Proof.
  intros Ht (tbody & Htbody & Hrows).
  unfold sortTable, getElementById. rewrite bind_gets, Ht, Htbody.
  pose proof (new_direction t columnIndex) as Hdir. cbv zeta in Hdir.
  set (newDir := if _ && _ then "desc" else "asc") in *.
  destruct (array_sort_total (fun r => has_cell columnIndex (snd r))
              (compare_rows columnIndex isNumeric newDir) (indexed (sec_rows tbody)))
    as (sorted & Hsorted & Hall).
  { intros a b. apply compare_rows_total. }
  { apply (indexed_all (has_cell columnIndex)). exact Hrows. }
  rewrite Hsorted. unfold lift, put_element, modify, mbind at 1, M_bind.
  eexists. split; [reflexivity|]. split; [|split].
  - unfold sortable_on, first_tbody. cbn [sections].
    eapply (mark_sections_first_tbody columnIndex columnIndex newDir).
    + apply set_first_tbody_find. exact Htbody.
    + cbn [sec_rows]. apply List.Forall_map.
      apply appendChild_all; [exact Hall|].
      apply (indexed_all (has_cell columnIndex)). exact Hrows.
  - cbn [dataset]. rewrite lookup_insert_ne by discriminate.
    apply lookup_insert_eq.
  - cbn [dataset]. rewrite lookup_insert_eq.
    destruct Hdir as [[Hs ->] | [Hs ->]]; [left | right]; split; auto.
Qed.

(** Whatever the table, a call either throws and leaves the page as it
    was, or returns having recorded the column and the direction: [desc]
    when the table was sorted ascending on the column, [asc] otherwise. *)
Lemma sortTable_outcome (p : page) (tableId : string) (columnIndex : Z)
    (isNumeric : bool) (t : table) :
  elementsById p !! tableId = Some t ->
  (exists error, sortTable tableId columnIndex isNumeric p = (Throw error, p)) \/
  (exists t' : table,
     sortTable tableId columnIndex isNumeric p
     = (Normal tt, set_elementsById (<[tableId := t']> (elementsById p)) p) /\
     dataset t' !! "sortColumn" = Some (JS.Number_toString columnIndex) /\
     ((sorted_ascending_on t columnIndex /\
       dataset t' !! "sortDirection" = Some "desc") \/
      (~ sorted_ascending_on t columnIndex /\
       dataset t' !! "sortDirection" = Some "asc"))).
Proof.
  intros Ht. unfold sortTable, getElementById. rewrite bind_gets, Ht.
  destruct (first_tbody t) as [tbody|]; [|left; eexists; reflexivity].
  pose proof (new_direction t columnIndex) as Hdir. cbv zeta in Hdir.
  set (newDir := if _ && _ then "desc" else "asc") in *.
  destruct (array_sort _ _) as [sorted | error];
    [right | left; eexists; reflexivity].
  eexists. split; [reflexivity|]. cbn [dataset]. split.
  - rewrite lookup_insert_ne by discriminate. apply lookup_insert_eq.
  - rewrite lookup_insert_eq.
    destruct Hdir as [[Hs ->] | [Hs ->]]; [left | right]; split; auto.
Qed.

End SortFacts.

(** ** Missing targets and unguarded lookups *)

Section MissingTargets.
Context `{Host}.

(** With no element of the given id the three helpers return at once. *)
Lemma table_helpers_skip_missing_target
    (p : page) (tableId filterValue : string) (filename : option string)
    (columnIndex : Z) (isNumeric : bool) :
  elementsById p !! tableId = None ->
  sortTable tableId columnIndex isNumeric p = (Normal tt, p) /\
  filterTable tableId filterValue columnIndex p = (Normal tt, p) /\
  exportTableToCSV tableId filename p = (Normal tt, p).
Proof.
  intros Hnone.
  unfold sortTable, filterTable, exportTableToCSV, getElementById.
  rewrite !bind_gets, Hnone. repeat split.
Qed.

(** [filterTable] and [exportTableToCSV] never throw. *)
Lemma filter_and_export_return
    (p : page) (tableId filterValue : string) (filename : option string)
    (columnIndex : Z) :
  fst (filterTable tableId filterValue columnIndex p) = Normal tt /\
  fst (exportTableToCSV tableId filename p) = Normal tt.
Proof.
  unfold filterTable, exportTableToCSV, getElementById. rewrite !bind_gets.
  destruct (elementsById p !! tableId); split; reflexivity.
Qed.

(** [sortTable] reads the rows of a [tbody] it did not check for. *)
Lemma sortTable_throws_without_tbody
    (p : page) (tableId : string) (columnIndex : Z) (isNumeric : bool) (t : table) :
  elementsById p !! tableId = Some t ->
  first_tbody t = None ->
  sortTable tableId columnIndex isNumeric p
  = (Throw (TypeError "Cannot read properties of null"), p).
Proof.
  intros Ht Hnone. unfold sortTable, getElementById.
  rewrite bind_gets, Ht, Hnone. reflexivity.
Qed.

Lemma sort_insert_length {A : Type} (cmp : A -> A -> completion float) (x : A) :
  forall l l', sort_insert cmp x l = Normal l' -> length l' = S (length l).
Proof.
  induction l as [|y l IH]; intros l' Hl'.
  - injection Hl' as <-. reflexivity.
  - cbn [sort_insert] in Hl'. destruct (cmp x y) as [v | e]; [|discriminate].
    cbn [mbind completion_bind] in Hl'. destruct (PrimFloat.ltb 0 v).
    + destruct (sort_insert cmp x l) as [r' | e] eqn:Hr; [|discriminate].
      injection Hl' as <-. cbn [length]. rewrite (IH r' eq_refl). reflexivity.
    + injection Hl' as <-. reflexivity.
Qed.

Lemma array_sort_length {A : Type} (cmp : A -> A -> completion float) :
  forall l l', array_sort cmp l = Normal l' -> length l' = length l.
Proof.
  induction l as [|x l IH]; intros l' Hl'.
  - injection Hl' as <-. reflexivity.
  - cbn [array_sort] in Hl'. destruct (array_sort cmp l) as [r' | e]; [|discriminate].
    cbn [mbind completion_bind] in Hl'.
    rewrite (sort_insert_length _ _ _ _ Hl'), (IH r' eq_refl). reflexivity.
Qed.

(** With a comparator that throws whenever one of its arguments is bad,
    sorting two or more elements of which one is bad throws. *)
Lemma array_sort_throws {A : Type} (bad : A -> Prop) (err : js_error)
    (cmp : A -> A -> completion float) :
  (forall a b, bad a \/ bad b -> cmp a b = Throw err) ->
  (forall a b e, cmp a b = Throw e -> e = err) ->
  forall l, (2 <= length l)%nat -> Exists bad l -> array_sort cmp l = Throw err.
Proof.
  intros Hbad Honly. 
  assert (Hins : forall x l e, sort_insert cmp x l = Throw e -> e = err).
  { intros x l. induction l as [|y l IH]; intros e; cbn [sort_insert]; [discriminate|].
    destruct (cmp x y) as [v | e'] eqn:Hc; cbn [mbind completion_bind].
    - destruct (PrimFloat.ltb 0 v); [|discriminate].
      destruct (sort_insert cmp x l) as [r' | e'']; [discriminate|].
      intros [= <-]. apply IH. reflexivity.
    - intros [= <-]. eapply Honly, Hc. }
  assert (Hsort : forall l e, array_sort cmp l = Throw e -> e = err).
  { induction l as [|x l IH]; intros e; cbn [array_sort]; [discriminate|].
    destruct (array_sort cmp l) as [r' | e']; cbn [mbind completion_bind].
    - apply Hins.
    - intros [= <-]. apply IH. reflexivity. }
  induction l as [|x l IH]; intros Hlen Hex; [inversion Hex|].
  cbn [array_sort].
  destruct (array_sort cmp l) as [r' | e] eqn:Hr; cbn [mbind completion_bind].
  2: { f_equal. eapply Hsort, Hr. }
  pose proof (array_sort_length _ _ _ Hr) as Hlen'.
  destruct r' as [|y r']; [cbn [length] in *; lia|].
  cbn [sort_insert].
  apply Exists_cons in Hex as [Hx | Hl].
  - rewrite (Hbad x y (or_introl Hx)). reflexivity.
  - destruct l as [|y0 [|y1 l]]; [inversion Hl | |].
    + change (array_sort cmp [y0]) with (Normal (A := list A) [y0]) in Hr.
      revert Hr. intros [= <- <-].
      apply Exists_cons in Hl as [Hy | Hnil]; [|inversion Hnil].
      rewrite (Hbad x y0 (or_intror Hy)). reflexivity.
    + assert (Hlong : (2 <= length (y0 :: y1 :: l))%nat) by (cbn [length]; lia).
      discriminate (IH Hlong Hl).
Qed.

Lemma indexed_some (P : row -> Prop) (rows : list row) :
  Exists P rows -> Exists (fun r => P (snd r)) (indexed rows).
Proof.
  unfold indexed. generalize 0%nat as start.
  induction rows as [|r rows IH]; intros start Hex; [inversion Hex|].
  cbn [length seq combine].
  apply Exists_cons in Hex as [Hr | Hrest].
  - left. exact Hr.
  - right. apply IH, Hrest.
Qed.

(** With two or more rows in the [tbody], one of them without a cell in the
    column, the comparator reads [textContent] of [undefined]. *)
Lemma sortTable_throws_on_short_rows
    (p : page) (tableId : string) (columnIndex : Z) (isNumeric : bool)
    (t : table) (tbody : tsection) :
  elementsById p !! tableId = Some t ->
  first_tbody t = Some tbody ->
  (2 <= length (sec_rows tbody))%nat ->
  Exists (fun r => cell_at r columnIndex = None) (sec_rows tbody) ->
  sortTable tableId columnIndex isNumeric p
  = (Throw (TypeError "Cannot read properties of undefined"), p).
Proof.
  intros Ht Htbody Hlen Hshort. unfold sortTable, getElementById.
  rewrite bind_gets, Ht, Htbody.
  set (newDir := if _ && _ then "desc" else "asc").
  rewrite (array_sort_throws (fun r => cell_at (snd r) columnIndex = None)
             (TypeError "Cannot read properties of undefined")).
  - reflexivity.
  - intros a b [Ha | Hb]; unfold compare_rows.
    + rewrite Ha. reflexivity.
    + rewrite Hb. destruct (cell_at (snd a) columnIndex); reflexivity.
  - intros a b e. unfold compare_rows.
    destruct (cell_at (snd a) columnIndex); [|intros [= <-]; reflexivity].
    destruct (cell_at (snd b) columnIndex); [discriminate | intros [= <-]; reflexivity].
  - unfold indexed. rewrite length_combine, length_seq. lia.
  - apply (indexed_some (fun r => cell_at r columnIndex = None)). exact Hshort.
Qed.
(** Claim C5, where the script departs from it. [sortTable] on an element
    that has no [tbody] (an empty table), and on a table whose rows have no
    cell in the column, throws a [TypeError] in every browser: the lookups
    of the [tbody] and of the cells are used without a check. *)
Theorem sortTable_throws_on_unguarded_lookups :
  sortTable "empty" 0 false dashboard
  = (Throw (TypeError "Cannot read properties of null"), dashboard) /\
  sortTable "ragged" 2 false dashboard
  = (Throw (TypeError "Cannot read properties of undefined"), dashboard).
Proof. split; reflexivity. Qed.

End MissingTargets.

(** ** The quantity fields *)

(** Claim C9, amended. When the declared maximum parses to a safe integer
    of at least 1: a value that parses to an integer [v] is replaced by [v]
    brought into the range from 1 to the maximum (and is left as typed
    when [v] is in the range already), so that afterwards the value parses
    to an integer of the range; a value that does not parse to an integer
    is left as it is. *)
Theorem quantity_listener_clamps_numbers (this : Input.t) (m : Z) :
  JS.parseInt (Input.max this) = Some m ->
  1 <= m <= JS.MAX_SAFE_INTEGER ->
  let this' := quantity_input_listener this in
  Input.max this' = Input.max this /\
  match JS.parseInt (Input.value this) with
  | Some v =>
      exists v', JS.parseInt (Input.value this') = Some v' /\
                 v' = Z.max 1 (Z.min v m) /\ 1 <= v' <= m /\
                 (1 <= v <= m -> this' = this)
  | None => this' = this
  end.
Proof.
  intros Hmax [Hm _] this'. subst this'. unfold quantity_input_listener.
  rewrite Hmax. destruct (JS.parseInt (Input.value this)) as [v|] eqn:Hv.
  - cbn [num_gt num_lt default from_option id].
    destruct (Z.ltb_spec m v) as [Hgt | Hle];
      destruct (Z.ltb_spec v 1) as [Hlt | Hge]; try lia.
    + split; [reflexivity|]. exists m. cbn [Input.set_value Input.value].
      rewrite JSFacts.parseInt_Number_toString. repeat split; lia.
    + split; [reflexivity|]. exists 1. cbn [Input.set_value Input.value].
      rewrite JSFacts.parseInt_Number_toString. repeat split; lia.
    + split; [reflexivity|]. exists v. rewrite Hv. repeat split; lia.
  - split; reflexivity.
Qed.

(** ** Return on investment *)

(** A Number for which [b <= 0] is false is above zero or NaN: it is
    neither zero nor negative. *)
Lemma not_leb_zero (b : float) :
  PrimFloat.leb b 0%float = false ->
  PrimFloat.ltb 0%float b = true \/ PrimFloat.is_nan b = true.
Proof.
  unfold PrimFloat.is_nan.
  rewrite FloatAxioms.leb_spec, FloatAxioms.ltb_spec, FloatAxioms.eqb_spec.
  change (Prim2SF 0%float) with (S754_zero false).
  unfold SFleb, SFltb, SFeqb.
  destruct (Prim2SF b) as [s | s | | s m e]; cbn.
  - discriminate.
  - destruct s; [discriminate | auto].
  - auto.
  - destruct s; [discriminate | auto].
Qed.

(** Claim C10. [calculateROI] returns 0 whenever [buyPrice <= 0] holds;
    otherwise, and only then, it divides: the buy price it divides by is
    above zero (or NaN), never zero or negative, and the result is
    [((sellPrice - buyPrice) / buyPrice) * 100]. *)
Theorem calculateROI_guards_division (buyPrice sellPrice : float) :
  (PrimFloat.leb buyPrice 0%float = true /\
   calculateROI buyPrice sellPrice = 0%float) \/
  (PrimFloat.leb buyPrice 0%float = false /\
   (PrimFloat.ltb 0%float buyPrice = true \/ PrimFloat.is_nan buyPrice = true) /\
   calculateROI buyPrice sellPrice
   = PrimFloat.mul (PrimFloat.div (PrimFloat.sub sellPrice buyPrice) buyPrice)
       100%float).
Proof.
  unfold calculateROI.
  destruct (PrimFloat.leb buyPrice 0%float) eqn:Hguard; [left | right].
  - split; reflexivity.
  - split; [reflexivity|]. split; [|reflexivity].
    apply not_leb_zero, Hguard.
Qed.

Example calculateROI_samples :
  calculateROI 100%float 150%float = 50%float /\
  calculateROI 0%float 150%float = 0%float /\
  calculateROI (-0)%float 150%float = 0%float /\
  calculateROI (-20)%float 150%float = 0%float /\
  calculateROI 200%float 150%float = (-25)%float.
Proof. repeat split; reflexivity. Qed.

(** * The properties on the sample page *)

Lemma en_US_comma_grouping : comma_grouping en_US.
Proof. intros z. apply JSFacts.strip_commas_format_grouped. Qed.

(** Claim C1 on the sample page: a 502 response whose body is an HTML
    error page, so that [response.json()] rejects. *)
Lemma failed_poll_touches_only_connection_witness :
  let outcome := Resolved {| status := 502; json := Throw (SyntaxError "Unexpected token <") |} in
  let p' := exec (refreshData (H := en_US) outcome 3723000) dashboard in
  fetch_or_parse_fails outcome /\
  fst (refreshData (H := en_US) outcome 3723000 dashboard) = Normal tt /\
  connectionStatus p' = VBool false /\
  indicators p' = map (fun _ => disconnected_indicator) (indicators dashboard) /\
  displayed_fields p' = displayed_fields dashboard /\
  timers p' = timers dashboard /\
  elementsById p' = elementsById dashboard /\
  downloads p' = downloads dashboard.
Proof.
  split; [exact I|].
  apply (failed_poll_touches_only_connection (H := en_US)). exact I.
Defined.

(** A document that lacks a counter is rendered up to that counter: the
    player is overwritten and the transition class is added before the
    handler runs. *)
Example malformed_document_is_partly_rendered :
  let document := {|
    connection_established := VBool true;
    current_player := VStr "Bob";
    current_location := VUndefined;
    offers_count := VUndefined;
    requests_count := VNum 7 |} in
  let outcome := Resolved {| status := 200; json := Normal (JsonObject document) |} in
  let p' := exec (refreshData (H := en_US) outcome 3723000) dashboard in
  connectionStatus p' = VBool false /\
  playerInfo p' = Some (text_element "SPAN" "Bob" ["player-info"]) /\
  offersCount p' = Some (text_element "SPAN" "3" ["offers-count"; "fade-in"]) /\
  requestsCount p' = requestsCount dashboard /\
  timers p' = [].
Proof. repeat split. Qed.

(** Claim C2 as stated fails here: a response with status 500 and a
    well-formed body is rendered; the connection flag becomes true and the
    counters change. *)
Lemma non_2xx_response_is_rendered :
  let r := {| status := 500; json := Normal (JsonObject status_document) |} in
  let p' := exec (refreshData (H := en_US) (Resolved r) 3723000) dashboard in
  is_2xx (status r) = false /\
  connectionStatus p' = VBool true /\
  offersCount p' = Some (text_element "SPAN" "5" ["offers-count"; "fade-in"]) /\
  ~ (connectionStatus p' = VBool false /\
     displayed_fields p' = displayed_fields dashboard).
Proof.
  repeat split. intros [Hflag _]. discriminate Hflag.
Qed.

(** Claim C2, amended, on the sample page: the same response under status
    500 and under status 200. *)
Lemma status_is_not_read_witness :
  let r := {| status := 500; json := Normal (JsonObject status_document) |} in
  is_2xx (status r) = false /\
  refreshData (H := en_US) (Resolved r) 3723000 dashboard
  = refreshData (H := en_US)
      (Resolved {| status := 200; json := json r |}) 3723000 dashboard.
Proof.
  intros r. split; [reflexivity|].
  exact (proj1 (status_is_not_read (H := en_US) r 3723000 dashboard eq_refl)).
Defined.

(** Claim C3 as stated fails here: in a browser whose locale groups digits
    with dots, 1234 is written [1.234], which reads back as 1. *)
Lemma dot_grouping_breaks_round_trip :
  let p' := exec (updateCountWithAnimation (H := de_DE) ".requests-count" (VNum 1234))
              dashboard in
  requestsCount p' = Some (text_element "SPAN" "1.234" ["requests-count"; "fade-in"]) /\
  shown_value <$> requestsCount p' = Some 1 /\
  ~ (forall e', requestsCount p' = Some e' -> shown_value e' = 1234).
Proof.
  repeat split. intros Hall.
  specialize (Hall _ eq_refl). vm_compute in Hall. discriminate Hall.
Qed.

(** Claim C3, amended, on the sample page in an en-US browser: 1234 is
    written [1,234] and reads back as 1234. *)
Lemma counter_round_trip_witness :
  shown_value (text_element "SPAN" "1,234" ["requests-count"; "fade-in"]) = 1234.
Proof.
  apply (proj1 (counter_round_trip (H := en_US) Requests 1234 dashboard
                  en_US_comma_grouping)).
  reflexivity.
Defined.

(** Claim C4 on the sample page: the document repeats the 1,204 requests
    already shown. *)
Lemma unchanged_counter_is_untouched_witness :
  let o := {|
    connection_established := VBool true;
    current_player := VStr "Bob";
    current_location := VNull;
    offers_count := VNum 5;
    requests_count := VNum 1204 |} in
  updateCountWithAnimation (H := en_US) ".requests-count" (VNum 1204) dashboard
  = (Normal tt, dashboard) /\
  requestsCount (exec (updateStatus (H := en_US) (JsonObject o)) dashboard)
  = Some (text_element "SPAN" "1,204" ["requests-count"]).
Proof.
  apply (unchanged_counter_is_untouched (H := en_US) Requests
           {| connection_established := VBool true;
              current_player := VStr "Bob";
              current_location := VNull;
              offers_count := VNum 5;
              requests_count := VNum 1204 |} dashboard
           (text_element "SPAN" "1,204" ["requests-count"]));
    reflexivity.
Defined.

(** Claim C6 on the sample table. *)
Lemma export_serializes_cells_witness :
  exists (fields : list (list string)) (name : string),
    Forall2
      (Forall2 (fun cell field => csv_field_spec (JS.trim (textContent cell)) field))
      (map cells (all_rows offers_table)) fields /\
    exportTableToCSV "offers" None dashboard =
    (Normal tt,
     set_downloads
       (downloads dashboard ++
          [{| file_name := name; mime_type := "text/csv";
              content := String.concat LF (map (String.concat ",") fields) |}])
       dashboard).
Proof.
  apply (export_serializes_cells dashboard "offers" None offers_table).
  reflexivity.
Defined.

(** The export of the sample table: the price [12,500] is quoted. *)
Example export_of_offers_table :
  content <$> last (downloads (exec (exportTableToCSV "offers" None) dashboard))
  = Some ("Item,City,Price" +:+ LF
          +:+ "Adept's Bag,Lymhurst," +:+ quote +:+ "12,500" +:+ quote +:+ LF
          +:+ "Novice's Cape,Martlock,900" +:+ LF
          +:+ "Carrot,Bridgewatch,35").
Proof. reflexivity. Qed.

(** The sample table can be sorted on its price column, and carries no
    sort state yet. *)
Lemma offers_table_sortable : sortable_on offers_table 2.
Proof.
  eexists. split; [reflexivity|].
  repeat constructor; eexists; reflexivity.
Qed.

Lemma offers_table_unsorted : ~ sorted_ascending_on offers_table 2.
Proof. intros [Hcol _]. discriminate Hcol. Qed.

(** Sorting the sample table by price, numerically: 35, 900, 12500. *)
Example sort_offers_by_price :
  (fun t => map (fun r => column_text r 2) (body_rows t))
    <$> (elementsById (exec (sortTable (H := en_US) "offers" 2 true) dashboard)
           !! "offers")
  = Some ["35"; "900"; "12,500"].
Proof. reflexivity. Qed.

(** Claim C8 on the sample table, filtered on the city column. *)
Lemma filterTable_hides_non_matching_witness :
  exists t' : table,
    filterTable "offers" "MARt" 1 dashboard
    = (Normal tt, set_elementsById (<["offers" := t']> (elementsById dashboard)) dashboard) /\
    Forall2
      (fun r r' =>
         cells r' = cells r /\
         ((occurs_ignoring_case "MARt" (column_text r 1) /\ display r' = "") \/
          (~ occurs_ignoring_case "MARt" (column_text r 1) /\ display r' = "none")))
      (body_rows offers_table) (body_rows t') /\
    ((forall r, In r (body_rows offers_table) ->
        ~ occurs_ignoring_case "MARt" (column_text r 1)) ->
     Forall (fun r' => display r' = "none") (body_rows t')) /\
    ("MARt" = "" -> Forall (fun r' => display r' = "") (body_rows t')).
Proof.
  apply (filterTable_hides_non_matching dashboard "offers" "MARt" 1 offers_table).
  reflexivity.
Defined.

(** Filtering the sample table on the city column shows Martlock only. *)
Example filter_offers_by_city :
  (fun t => map display (body_rows t))
    <$> (elementsById (exec (filterTable "offers" "MARt" 1) dashboard) !! "offers")
  = Some ["none"; ""; "none"].
Proof. reflexivity. Qed.

(** Claim C9 as stated fails here: a value that does not parse is neither
    clamped nor rejected; the field keeps it, and it still does not parse.
    The same holds for the empty value a numeric field reports for
    malformed text. With a declared maximum below 1 the listener leaves a
    number outside any range from 1. *)
Lemma non_numeric_quantity_is_kept :
  let typed := {| Input.max := "10"; Input.value := "abc" |} in
  let empty := {| Input.max := "10"; Input.value := "" |} in
  quantity_input_listener typed = typed /\
  quantity_input_listener empty = empty /\
  ~ (exists v, JS.parseInt (Input.value (quantity_input_listener typed)) = Some v /\
               1 <= v <= 10) /\
  quantity_input_listener {| Input.max := "0"; Input.value := "5" |}
  = {| Input.max := "0"; Input.value := "0" |}.
Proof.
  repeat split. intros (v & Hv & _). discriminate Hv.
Qed.

(** Claim C9, amended, on a field with maximum 10 and value 15. *)
Lemma quantity_listener_clamps_numbers_witness :
  let this := {| Input.max := "10"; Input.value := "15" |} in
  let this' := quantity_input_listener this in
  Input.max this' = Input.max this /\
  exists v', JS.parseInt (Input.value this') = Some v' /\
             v' = Z.max 1 (Z.min 15 10) /\ 1 <= v' <= 10 /\
             (1 <= 15 <= 10 -> this' = this).
Proof.
  apply (quantity_listener_clamps_numbers
           {| Input.max := "10"; Input.value := "15" |} 10);
    [reflexivity | unfold JS.MAX_SAFE_INTEGER; lia].
Defined.

(** * Further properties *)

(** ** The poller: what a poll leaves behind *)

Ltac stable_step :=
  first
    [ apply stable_ret
    | apply stable_throw
    | apply stable_gets
    | apply stable_bind; [|intros ?]
    | match goal with
      | |- stable _ (match ?x with _ => _ end) => destruct x
      end
    | apply stable_modify; intros ? ?; assumption ].

Ltac stable_auto :=
  unfold updateCountWithAnimation, querySelector, get_textContent,
    set_textContent, classList_add, classList_remove, update_element,
    setTimeout, toLocaleString, get_prop;
  repeat stable_step.





Section MorePoller.
Context `{H : Host}.

(** Rendering a counter touches the counter and the timers only. *)
Lemma updateCount_keeps_chrome (selector : string) (v : jsval) (x : _) :
  stable (fun p => chrome p = x) (updateCountWithAnimation selector v).
Proof. stable_auto. Qed.

Lemma updateStatus_chrome (o : snapshot) (p : page) :
  chrome (exec (updateStatus (JsonObject o)) p)
  = (connection_established o,
     map (fun _ => indicator_for (connection_established o)) (indicators p),
     lastUpdateTime p, timeElements p, console p, elementsById p, downloads p).
Proof.
  unfold exec, updateStatus. cbn [get_prop]. rewrite ret_bind, bind_modify.
  unfold updateConnectionIndicator at 1. rewrite bind_modify.
  match goal with |- chrome (snd (?m ?q)) = ?x =>
    cut (stable (fun p => chrome p = x) m);
      [intros Hs; apply (Hs q); reflexivity|]
  end.
  stable_auto.
Qed.

Lemma updateLastUpdateTime_effect (now : Z) (p : page) :
  updateLastUpdateTime now p
  = (Normal tt,
     set_timeElements
       (map (fun e => {| tagName := tagName e;
                         textContent := Date_toLocaleTimeString now;
                         classList := classList e |})
          (timeElements p))
       (set_lastUpdateTime now p)).
Proof. reflexivity. Qed.

Lemma indicators_repainted (flag : jsval) (l : list indicator) :
  map (fun _ : indicator => disconnected_indicator)
    (map (fun _ : indicator => indicator_for flag) l)
  = map (fun _ => disconnected_indicator) l.
Proof. rewrite List.map_map. reflexivity. Qed.

(** Property X1. Every poll returns, whatever the fetch settled to, and leaves every
    connection indicator showing the state of the flag. *)
Theorem poll_returns_with_indicators_in_step
    (outcome : fetch_result) (now : Z) (p : page) :
  let p' := exec (refreshData outcome now) p in
  fst (refreshData outcome now p) = Normal tt /\
  indicators p' = map (fun _ => indicator_for (connectionStatus p')) (indicators p).
Proof.
  cbv zeta. unfold exec, refreshData, try_catch.
  destruct outcome as [error | [st [data | error]]]; cbn [settled];
    [split; reflexivity | | split; reflexivity].
  rewrite ret_bind. cbn [json lift]. unfold lift.
  change ((fun p0 : page => (Normal data, p0)) ≫= ?k) with (k data).
  destruct data as [|o]; [split; reflexivity|].
  unfold mbind, M_bind.
  pose proof (updateStatus_chrome o p) as Hc. unfold exec in Hc.
  destruct (updateStatus (JsonObject o) p) as [[[] | error] p1]; cbn [snd] in Hc.
  - injection Hc as Hflag Hind _ _ _ _ _.
    rewrite updateLastUpdateTime_effect. cbn.
    rewrite Hflag, Hind. split; reflexivity.
  - injection Hc as Hflag Hind _ _ _ _ _.
    destruct (on_rejected_frame error p1) as (Hf & Hi & _). unfold exec in Hf, Hi.
    split; [reflexivity|].
    rewrite Hf, Hi, Hind. apply indicators_repainted.
Qed.

(** Property X2. The update time moves exactly when the whole document was rendered;
    any other poll keeps it and logs one error. *)
Theorem update_time_follows_render
    (outcome : fetch_result) (now : Z) (p : page) :
  let p' := exec (refreshData outcome now) p in
  (renders outcome p /\
   lastUpdateTime p' = now /\
   timeElements p'
   = map (fun e => {| tagName := tagName e;
                      textContent := Date_toLocaleTimeString now;
                      classList := classList e |}) (timeElements p) /\
   console p' = console p) \/
  (~ renders outcome p /\
   lastUpdateTime p' = lastUpdateTime p /\
   timeElements p' = timeElements p /\
   exists error, console p' = console p ++ [("Error refreshing data:", Some error)]).
Proof.
  cbv zeta. unfold exec, refreshData, try_catch.
  destruct outcome as [error | [st [data | error]]]; cbn [settled].
  - right. split; [intros (r & d & [=] & _)|]. cbn. eauto.
  - rewrite ret_bind. unfold lift. cbn [json].
    change ((fun p0 : page => (Normal data, p0)) ≫= ?k) with (k data).
    destruct data as [|o].
    { right. split; [intros (r & d & [= <-] & [= <-] & Hr); discriminate Hr|].
      cbn. eauto. }
    unfold mbind, M_bind.
    pose proof (updateStatus_chrome o p) as Hc. unfold exec in Hc.
    destruct (updateStatus (JsonObject o) p) as [[[] | error] p1] eqn:Hrun;
      cbn [snd] in Hc; injection Hc as _ _ Htime Hels Hcon _ _.
    + left. split.
      { exists {| status := st; json := Normal (JsonObject o) |}, (JsonObject o).
        rewrite Hrun. auto. }
      rewrite updateLastUpdateTime_effect. cbn. rewrite Hels, Hcon. auto.
    + right. split.
      { intros (r & d & [= <-] & [= <-] & Hr). rewrite Hrun in Hr. discriminate Hr. }
      split; [exact Htime|]. split; [exact Hels|].
      exists error. rewrite <- Hcon. reflexivity.
  - right. split; [intros (r & d & [= <-] & [=] & _)|]. cbn. eauto.
Qed.

Lemma updateStatus_labels (o : snapshot) (p : page) :
  updateStatus (JsonObject o) p
  = (_ ← updateCountWithAnimation ".offers-count" (offers_count o);
     updateCountWithAnimation ".requests-count" (requests_count o))
      (set_slot LocationInfo (labelled (current_location o) <$> locationInfo p)
         (set_slot PlayerInfo (labelled (current_player o) <$> playerInfo p)
            (exec updateConnectionIndicator
               (set_connectionStatus (connection_established o) p)))).
Proof.
  unfold updateStatus, labelled. cbn [get_prop]. rewrite !ret_bind.
  rewrite bind_modify. unfold updateConnectionIndicator at 1. rewrite bind_modify.
  unfold querySelector, set_textContent, update_element.
  destruct p as [cs lu ind [pe|] [le|] oc rc te tm co el dl];
    destruct (truthy (current_player o)) eqn:Hp, (truthy (current_location o)) eqn:Hl;
    repeat first [ rewrite bind_gets | rewrite bind_modify | rewrite ret_bind
                 | rewrite Hp | rewrite Hl
                 | progress cbn [selector_slot String.eqb Ascii.eqb Bool.eqb get_slot
                                 set_slot playerInfo locationInfo set_indicators
                                 set_connectionStatus fmap option_fmap option_map] ];
    reflexivity.
Qed.

Lemma labels_after_status (o : snapshot) (p : page) :
  playerInfo (exec (updateStatus (JsonObject o)) p)
  = labelled (current_player o) <$> playerInfo p /\
  locationInfo (exec (updateStatus (JsonObject o)) p)
  = labelled (current_location o) <$> locationInfo p.
Proof.
  unfold exec. rewrite updateStatus_labels.
  set (q := set_slot LocationInfo _ _).
  assert (Hs : forall (s : slot) (x : option element),
             s = PlayerInfo \/ s = LocationInfo ->
             stable (fun p => get_slot s p = x)
               (_ ← updateCountWithAnimation ".offers-count" (offers_count o);
                updateCountWithAnimation ".requests-count" (requests_count o))).
  { intros s x Hsl. apply stable_bind; [|intros _].
    - apply (updateCount_other Offers). destruct Hsl as [-> | ->]; discriminate.
    - apply (updateCount_other Requests). destruct Hsl as [-> | ->]; discriminate. }
  split.
  - apply (Hs PlayerInfo _ (or_introl eq_refl) q). reflexivity.
  - apply (Hs LocationInfo _ (or_intror eq_refl) q). reflexivity.
Qed.

(** Property X3. The player and location labels follow the document: whenever the
    response parses to a document, each label is overwritten with the
    document's value when that value is truthy and kept otherwise, also
    when the poll then fails on the counters. *)
Theorem status_labels_follow_document
    (r : response) (o : snapshot) (now : Z) (p : page) :
  json r = Normal (JsonObject o) ->
  let p' := exec (refreshData (Resolved r) now) p in
  playerInfo p' = labelled (current_player o) <$> playerInfo p /\
  locationInfo p' = labelled (current_location o) <$> locationInfo p.
Proof.
  intros Hjson p'. destruct (labels_after_status o p) as [Hplayer Hlocation].
  rewrite <- Hplayer, <- Hlocation. subst p'.
  unfold exec, refreshData, try_catch. cbn [settled]. rewrite ret_bind, Hjson.
  unfold lift.
  change ((fun p0 : page => (Normal (JsonObject o), p0)) ≫= ?k) with (k (JsonObject o)).
  unfold mbind, M_bind.
  destruct (updateStatus (JsonObject o) p) as [[[] | error] p1]; split; reflexivity.
Qed.

Lemma updateCount_missing (c : counter) (v : jsval) (p : page) (e : element) :
  missing v ->
  get_slot (counter_slot c) p = Some e ->
  exists error,
    updateCountWithAnimation (counter_selector c) v p
    = (Throw error,
       set_slot (counter_slot c) (Some (with_classList (token_add "fade-in") e)) p).
Proof.
  intros Hv He. unfold updateCountWithAnimation, querySelector. rewrite bind_gets.
  replace (selector_slot (counter_selector c)) with (Some (counter_slot c))
    by (destruct c; reflexivity).
  rewrite He. unfold get_textContent. rewrite bind_gets.
  replace (strict_neq _ v) with true by (destruct Hv as [-> | ->]; reflexivity).
  unfold classList_add, update_element. rewrite bind_modify, He.
  destruct Hv as [-> | ->]; eexists; reflexivity.
Qed.

(** Property X4. A counter value that is [undefined] or [null] starts the transition and
    never ends it: the render throws after adding the class, the text is
    kept and no timer is set to remove the class. *)
Theorem missing_count_leaves_transition_class
    (c : counter) (v : jsval) (p : page) (e : element) :
  missing v ->
  get_slot (counter_slot c) p = Some e ->
  let m := updateCountWithAnimation (counter_selector c) v in
  (exists error, fst (m p) = Throw error) /\
  get_slot (counter_slot c) (exec m p)
  = Some {| tagName := tagName e; textContent := textContent e;
            classList := token_add "fade-in" (classList e) |} /\
  timers (exec m p) = timers p.
Proof.
  intros Hv He m. subst m. unfold exec.
  destruct (updateCount_missing c v p e Hv He) as [error ->]. cbn [fst snd].
  split; [eauto|]. split; [apply get_set_slot|]. destruct c; reflexivity.
Qed.

(** Property X5. A document without the number of offers fails the poll after the
    labels were written: the poll ends in the rejection handler, with the
    connection shown as lost whatever the document said, the update time
    not moved and the requests counter not rendered. *)
Theorem document_without_offers_fails_the_poll
    (st now : Z) (o : snapshot) (p : page) (e : element) :
  missing (offers_count o) ->
  offersCount p = Some e ->
  let p' := exec (refreshData (Resolved {| status := st; json := Normal (JsonObject o) |}) now) p in
  connectionStatus p' = VBool false /\
  playerInfo p' = labelled (current_player o) <$> playerInfo p /\
  locationInfo p' = labelled (current_location o) <$> locationInfo p /\
  requestsCount p' = requestsCount p /\
  lastUpdateTime p' = lastUpdateTime p /\
  timers p' = timers p.
Proof.
  intros Hv He p'.
  assert (Hrun : exists error,
             p' = exec (on_rejected error)
                    (set_slot OffersCount (Some (with_classList (token_add "fade-in") e))
                       (set_slot LocationInfo (labelled (current_location o) <$> locationInfo p)
                          (set_slot PlayerInfo (labelled (current_player o) <$> playerInfo p)
                             (exec updateConnectionIndicator
                                (set_connectionStatus (connection_established o) p)))))).
  { subst p'. unfold exec, refreshData, try_catch. cbn [settled].
    rewrite ret_bind. unfold lift. cbn [json].
    change ((fun p0 : page => (Normal (JsonObject o), p0)) ≫= ?k) with (k (JsonObject o)).
    unfold mbind at 1, M_bind at 1. rewrite updateStatus_labels.
    set (q := set_slot LocationInfo _ _).
    destruct (updateCount_missing Offers (offers_count o) q e Hv) as [error Hrun];
      [exact He|].
    cbn [counter_selector counter_slot] in Hrun.
    unfold mbind, M_bind. rewrite Hrun. exists error. reflexivity. }
  destruct Hrun as [error ->]. repeat split.
Qed.




End MorePoller.

(** The poller's further properties on the sample page. *)

Lemma document_without_offers_fails_the_poll_witness :
  connectionStatus
    (exec (refreshData (H := en_US)
             (Resolved {| status := 200; json := Normal (JsonObject document_without_offers) |})
             3723000) dashboard)
  = VBool false.
Proof.
  apply (document_without_offers_fails_the_poll (H := en_US) 200 3723000
           document_without_offers dashboard
           (text_element "SPAN" "3" ["offers-count"])).
  - left. reflexivity.
  - reflexivity.
Defined.

Lemma missing_count_leaves_transition_class_witness :
  timers (exec (updateCountWithAnimation (H := en_US) ".requests-count" VNull) dashboard)
  = timers dashboard.
Proof.
  apply (missing_count_leaves_transition_class (H := en_US) Requests VNull dashboard
           (text_element "SPAN" "1,204" ["requests-count"])).
  - right. reflexivity.
  - reflexivity.
Defined.

Lemma transition_class_is_removed_witness :
  get_slot OffersCount
    (exec (fire (RemoveClass OffersCount "fade-in"))
       (exec (updateCountWithAnimation (H := en_US) ".offers-count" (VNum 5)) dashboard))
  = Some (text_element "SPAN" "5" ["offers-count"]).
Proof.
  apply (transition_class_is_removed (H := en_US) Offers 5 dashboard
           (text_element "SPAN" "3" ["offers-count"])).
  - reflexivity.
  - vm_compute. discriminate.
  - reflexivity.
Defined.

Lemma status_labels_follow_document_witness :
  let p' := exec (refreshData (H := en_US)
                    (Resolved {| status := 200; json := Normal (JsonObject document_without_offers) |})
                    3723000) dashboard in
  playerInfo p' = labelled (VStr "Avalon") <$> playerInfo dashboard /\
  locationInfo p' = labelled (VStr "") <$> locationInfo dashboard.
Proof.
  apply (status_labels_follow_document (H := en_US)
           {| status := 200; json := Normal (JsonObject document_without_offers) |}
           document_without_offers 3723000 dashboard).
  reflexivity.
Defined.


(** ** Tables: filters, exports and sorts together *)

Lemma set_elementsById_twice (m1 m2 : gmap string table) (p : page) :
  set_elementsById m2 (set_elementsById m1 p) = set_elementsById m2 p.
Proof. reflexivity. Qed.

Lemma filter_section_twice (f1 f2 : string) (c1 c2 : Z) (s : tsection) :
  filter_section f2 c2 (filter_section f1 c1 s) = filter_section f2 c2 s.
Proof.
  unfold filter_section at 1 3. rewrite is_tbody_filter_section.
  destruct (is_tbody s) eqn:Hs; [|unfold filter_section; rewrite Hs; reflexivity].
  unfold filter_section. rewrite Hs. cbn [sec_tag sec_rows]. f_equal.
  rewrite List.map_map. apply List.map_ext. intros r. reflexivity.
Qed.

(** Property X8. A filter replaces the one before it: filtering a
    filtered table gives what the second filter alone gives. *)
Theorem filterTable_last_filter_wins
    (p : page) (tableId f1 f2 : string) (c1 c2 : Z) :
  filterTable tableId f2 c2 (exec (filterTable tableId f1 c1) p)
  = filterTable tableId f2 c2 p.
Proof.
  unfold exec, filterTable at 2, getElementById. rewrite bind_gets.
  destruct (elementsById p !! tableId) as [t|] eqn:Ht; [|reflexivity].
  unfold put_element, modify. cbn [snd].
  unfold filterTable, getElementById. rewrite !bind_gets. cbn [elementsById set_elementsById].
  rewrite lookup_insert_eq, Ht. unfold put_element, modify.
  cbn [elementsById set_elementsById dataset sections].
  rewrite insert_insert_eq, set_elementsById_twice. do 4 f_equal.
  rewrite List.map_map. apply List.map_ext. intros s.
  apply (filter_section_twice (JS.toLowerCase f1) (JS.toLowerCase f2)).
Qed.

Lemma csv_field_filter_row (f : string) (c : Z) (r : row) :
  map csv_field (cells (filter_row f c r)) = map csv_field (cells r).
Proof. reflexivity. Qed.

Lemma all_rows_filtered (f : string) (c : Z) (d : gmap string string) (ss : list tsection) :
  map cells (all_rows {| dataset := d; sections := map (filter_section f c) ss |})
  = map cells (all_rows {| dataset := d; sections := ss |}).
Proof.
  unfold all_rows. cbn [sections].
  induction ss as [|s ss IH]; [reflexivity|].
  cbn [map concat]. rewrite !map_app, IH. f_equal.
  unfold filter_section. destruct (is_tbody s); [|reflexivity].
  cbn [sec_rows]. rewrite List.map_map. reflexivity.
Qed.

Lemma csv_content_cells (t t' : table) :
  map cells (all_rows t) = map cells (all_rows t') -> csv_content t = csv_content t'.
Proof.
  intros Hc. unfold csv_content. f_equal.
  rewrite <- (List.map_map cells (fun cs => JS.join "," (map csv_field cs))).
  rewrite <- (List.map_map cells (fun cs => JS.join "," (map csv_field cs)) (all_rows t')).
  rewrite Hc. reflexivity.
Qed.

(** Property X9. The export does not look at [display]: rows hidden by a filter are
    exported like the others. *)
Theorem export_ignores_filter
    (p : page) (tableId filterValue : string) (columnIndex : Z)
    (filename : option string) :
  downloads (exec (exportTableToCSV tableId filename)
               (exec (filterTable tableId filterValue columnIndex) p))
  = downloads (exec (exportTableToCSV tableId filename) p).
Proof.
  unfold exec, filterTable, getElementById. rewrite bind_gets.
  destruct (elementsById p !! tableId) as [t|] eqn:Ht; [|reflexivity].
  unfold put_element, modify. cbn [snd].
  unfold exportTableToCSV, getElementById. rewrite !bind_gets.
  cbn [elementsById set_elementsById]. rewrite lookup_insert_eq, Ht.
  unfold modify. cbn [snd downloads set_downloads set_elementsById].
  do 3 f_equal. apply csv_content_cells.
  rewrite (all_rows_filtered (JS.toLowerCase filterValue) columnIndex).
  destruct t; reflexivity.
Qed.

Lemma length_append_ (a b : string) :
  String.length (a +:+ b) = (String.length a + String.length b)%nat.
Proof.
  induction a as [|x a IH]; [reflexivity|].
  rewrite append_cons. cbn [String.length]. rewrite IH. reflexivity.
Qed.

Lemma append_cancel_r (q a b : string) : a +:+ q = b +:+ q -> a = b.
Proof.
  revert b. induction a as [|x a IH]; intros [|y b] Heq.
  - reflexivity.
  - apply (f_equal String.length) in Heq.
    rewrite append_nil_l, append_cons in Heq. cbn [String.length] in Heq.
    rewrite length_append_ in Heq. lia.
  - apply (f_equal String.length) in Heq.
    rewrite append_nil_l, append_cons in Heq. cbn [String.length] in Heq.
    rewrite length_append_ in Heq. lia.
  - rewrite !append_cons in Heq. injection Heq as -> Heq. f_equal. apply IH, Heq.
Qed.

Lemma double_quotes_inj (a : string) : forall b,
  double_quotes a = double_quotes b -> a = b.
Proof.
  induction a as [|x a IH]; intros [|y b]; cbn [double_quotes].
  - reflexivity.
  - destruct (Ascii.eqb y JS.DQUOTE); discriminate.
  - destruct (Ascii.eqb x JS.DQUOTE); discriminate.
  - destruct (Ascii.eqb_spec x JS.DQUOTE) as [-> | Hx];
      destruct (Ascii.eqb_spec y JS.DQUOTE) as [-> | Hy].
    + intros [= Heq]. f_equal. apply IH, Heq.
    + intros [= Hy' _]. congruence.
    + intros [= Hx' _]. congruence.
    + intros [= -> Heq]. f_equal. apply IH, Heq.
Qed.

(** Property X10. Quoting loses nothing: two cells are exported as the same field only
    when their trimmed texts are the same. *)
Theorem csv_field_is_injective (cell1 cell2 : element) :
  csv_field cell1 = csv_field cell2 ->
  JS.trim (textContent cell1) = JS.trim (textContent cell2).
Proof.
  pose proof (csv_field_meets_spec cell1) as H1.
  pose proof (csv_field_meets_spec cell2) as H2.
  set (t1 := JS.trim (textContent cell1)) in *.
  set (t2 := JS.trim (textContent cell2)) in *.
  destruct H1 as [(_ & Hq1 & ->) | [_ ->]]; destruct H2 as [(_ & Hq2 & ->) | [_ ->]].
  - auto.
  - intros ->. exfalso. apply Hq1. left. reflexivity.
  - intros <-. exfalso. apply Hq2. left. reflexivity.
  - intros Heq. unfold quote in Heq at 1 3. rewrite !append_cons, !append_nil_l in Heq.
    injection Heq as Heq. apply append_cancel_r in Heq.
    apply double_quotes_inj, Heq.
Qed.

Lemma csv_field_is_injective_witness :
  JS.trim (textContent (text_element "TD" " 12,500 " []))
  = JS.trim (textContent (text_element "TD" "12,500" [])).
Proof.
  apply (csv_field_is_injective (text_element "TD" " 12,500 " [])
           (text_element "TD" "12,500" [])).
  reflexivity.
Defined.

(** ** [sortTable]: the rows, their order and the header indicators *)

Section SortOrder.
Context {A : Type} (cmp : A -> A -> completion float).

Lemma sort_insert_perm (x : A) (l : list A) :
  forall l', sort_insert cmp x l = Normal l' -> Permutation l' (x :: l).
Proof.
  induction l as [|y l IH]; intros l' Hl'.
  - injection Hl' as <-. reflexivity.
  - cbn [sort_insert] in Hl'. destruct (cmp x y) as [v|]; [|discriminate].
    cbn [mbind completion_bind] in Hl'. destruct (PrimFloat.ltb 0 v).
    + destruct (sort_insert cmp x l) as [r'|]; [|discriminate].
      injection Hl' as <-. rewrite (IH r' eq_refl). apply perm_swap.
    + injection Hl' as <-. reflexivity.
Qed.

Lemma array_sort_perm (l : list A) :
  forall l', array_sort cmp l = Normal l' -> Permutation l' l.
Proof.
  induction l as [|x l IH]; intros l' Hl'.
  - injection Hl' as <-. reflexivity.
  - cbn [array_sort] in Hl'. destruct (array_sort cmp l) as [r'|]; [|discriminate].
    cbn [mbind completion_bind] in Hl'.
    rewrite (sort_insert_perm _ _ _ Hl'), (IH r' eq_refl). reflexivity.
Qed.

Variable P : A -> Prop.
Hypothesis cmp_returns : forall a b, P a -> P b -> exists v, cmp a b = Normal v.
Hypothesis le_total : forall a b, P a -> P b -> in_order cmp a b \/ in_order cmp b a.
Hypothesis le_trans : forall a b c, P a -> P b -> P c ->
  in_order cmp a b -> in_order cmp b c -> in_order cmp a c.

Lemma sort_insert_sorted (x : A) (l : list A) :
  P x -> Forall P l -> StronglySorted (in_order cmp) l ->
  exists l', sort_insert cmp x l = Normal l' /\ StronglySorted (in_order cmp) l'.
Proof.
  intros Hx. induction l as [|y l IH]; intros Hl Hs.
  - exists [x]. split; [reflexivity|]. repeat constructor.
  - inversion Hl as [|? ? Hy Hl']; subst.
    inversion Hs as [|? ? Hs' Hyl]; subst.
    destruct (IH Hl' Hs') as (r' & Hr' & Hsr').
    destruct (cmp_returns x y Hx Hy) as [v Hv].
    cbn [sort_insert]. rewrite Hv. cbn [mbind completion_bind].
    destruct (PrimFloat.ltb 0 v) eqn:Hlt.
    + rewrite Hr'. exists (y :: r'). split; [reflexivity|].
      constructor; [exact Hsr'|].
      apply (Permutation_Forall (Permutation_sym (sort_insert_perm _ _ _ Hr'))).
      constructor; [|exact Hyl].
      destruct (le_total x y Hx Hy) as [(w & Hw & Hf) | Hyx]; [|exact Hyx].
      rewrite Hv in Hw. injection Hw as <-. congruence.
    + exists (x :: y :: l). split; [reflexivity|].
      assert (Hxy : in_order cmp x y) by (exists v; auto).
      constructor; [exact Hs|]. constructor; [exact Hxy|].
      rewrite List.Forall_forall in Hyl, Hl' |- *. intros z Hz.
      apply (le_trans x y z Hx Hy (Hl' z Hz) Hxy (Hyl z Hz)).
Qed.

Lemma array_sort_sorted (l : list A) :
  Forall P l ->
  exists l', array_sort cmp l = Normal l' /\ StronglySorted (in_order cmp) l'.
Proof.
  induction l as [|x l IH]; intros Hl.
  - exists []. split; [reflexivity | constructor].
  - inversion Hl as [|? ? Hx Hl']; subst.
    destruct (IH Hl') as (r' & Hr' & Hs).
    cbn [array_sort]. rewrite Hr'. cbn [mbind completion_bind].
    apply sort_insert_sorted; [exact Hx | | exact Hs].
    apply (Permutation_Forall (Permutation_sym (array_sort_perm _ _ Hr'))), Hl'.
Qed.

End SortOrder.

Lemma filter_all {A : Type} (f : A -> bool) (l : list A) :
  (forall x, In x l -> f x = true) -> List.filter f l = l.
Proof.
  induction l as [|a l IH]; intros Hf; [reflexivity|].
  cbn [List.filter]. rewrite (Hf a (or_introl eq_refl)). f_equal.
  apply IH. intros x Hx. apply Hf. now right.
Qed.

(** Appending every row of a list without repeated positions, in some
    order, to the children leaves exactly that order. *)
Lemma foldl_appendChild (post : list (nat * row)) :
  forall pre rest : list (nat * row),
  NoDup (map fst (pre ++ post)) ->
  (forall c, In c rest -> In (fst c) (map fst post)) ->
  foldl (fun ch r => appendChild r ch) (rest ++ pre) post = pre ++ post.
Proof.
  induction post as [|x post IH]; intros pre rest Hnd Hrest.
  - destruct rest as [|c rest]; [now rewrite app_nil_r|].
    destruct (Hrest c (or_introl eq_refl)).
  - cbn [foldl]. unfold appendChild at 2. rewrite List.filter_app.
    rewrite (filter_all _ pre).
    + rewrite <- app_assoc.
      rewrite (IH (pre ++ [x]) (List.filter _ rest)).
      * now rewrite <- app_assoc.
      * now rewrite <- app_assoc.
      * intros c Hc. apply List.filter_In in Hc as [Hc Hne].
        destruct (Hrest c Hc) as [Heq | Hin]; [|exact Hin].
        cbn [fst] in *. rewrite Heq, Nat.eqb_refl in Hne. discriminate.
    + intros c Hc. apply negb_true_iff, Nat.eqb_neq. intros Heq.
      rewrite map_app in Hnd. apply NoDup_app in Hnd as (_ & Hdis & _).
      apply (Hdis (fst c)).
      * apply list_elem_of_In, in_map, Hc.
      * rewrite Heq. cbn [map]. left.
Qed.

Lemma indexed_fst (rows : list row) : map fst (indexed rows) = seq 0 (length rows).
Proof. unfold indexed. apply fst_zip. now rewrite length_seq. Qed.

Lemma indexed_snd (rows : list row) : map snd (indexed rows) = rows.
Proof. unfold indexed. apply snd_zip. now rewrite length_seq. Qed.

Lemma appended_in_sorted_order (rows : list row) (sorted : list (nat * row)) :
  Permutation sorted (indexed rows) ->
  foldl (fun ch r => appendChild r ch) (indexed rows) sorted = sorted.
Proof.
  intros Hperm.
  rewrite <- (app_nil_r (indexed rows)).
  rewrite (foldl_appendChild sorted [] (indexed rows)); [reflexivity | |].
  - cbn [app]. rewrite Hperm, indexed_fst. apply NoDup_seq.
  - intros c Hc. apply in_map. apply list_elem_of_In. rewrite Hperm.
    apply list_elem_of_In, Hc.
Qed.

(** ** Marking the headers touches class lists only *)

Lemma mark_header_content (columnIndex : Z) (newDir : string) (index : nat) (h : element) :
  cell_content (mark_header columnIndex newDir index h) = cell_content h.
Proof. unfold mark_header. destruct (_ =? _); reflexivity. Qed.

Lemma mark_cells_content (columnIndex : Z) (newDir : string) (cs : list element) :
  forall index,
  map cell_content (snd (mark_cells columnIndex newDir index cs)) = map cell_content cs.
Proof.
  induction cs as [|c cs IH]; intros index; [reflexivity|].
  cbn [mark_cells]. destruct (is_th c).
  - specialize (IH (S index)).
    destruct (mark_cells columnIndex newDir (S index) cs) as [n r'].
    cbn [snd map] in *. now rewrite IH, mark_header_content.
  - specialize (IH index).
    destruct (mark_cells columnIndex newDir index cs) as [n r'].
    cbn [snd map] in *. now rewrite IH.
Qed.

Lemma mark_rows_content (columnIndex : Z) (newDir : string) (rs : list row) :
  forall index,
  map row_content (snd (mark_rows columnIndex newDir index rs)) = map row_content rs.
Proof.
  induction rs as [|r rs IH]; intros index; [reflexivity|].
  cbn [mark_rows].
  pose proof (mark_cells_content columnIndex newDir (cells r) index) as Hc.
  destruct (mark_cells columnIndex newDir index (cells r)) as [n cs].
  specialize (IH n). destruct (mark_rows columnIndex newDir n rs) as [n' rest'].
  cbn [snd map] in *. rewrite IH. unfold row_content at 1 3. cbn [cells display].
  now rewrite Hc.
Qed.

Lemma mark_sections_content (columnIndex : Z) (newDir : string) (ss : list tsection) :
  forall index,
  map section_content (mark_sections columnIndex newDir index ss) = map section_content ss.
Proof.
  induction ss as [|s ss IH]; intros index; [reflexivity|].
  cbn [mark_sections].
  pose proof (mark_rows_content columnIndex newDir (sec_rows s) index) as Hr.
  destruct (mark_rows columnIndex newDir index (sec_rows s)) as [n rs].
  cbn [snd map] in *. rewrite IH. unfold section_content at 1 3.
  cbn [sec_tag sec_rows]. now rewrite Hr.
Qed.

(** ** The header indicators *)

Lemma marked_from_nil (columnIndex : Z) (newDir : string) (index : nat) :
  marked_from columnIndex newDir index [].
Proof. intros k h Hk. discriminate. Qed.

Lemma marked_from_cons (columnIndex : Z) (newDir : string) (index : nat)
    (h0 : element) (l : list element) :
  marked_from columnIndex newDir (S index) l ->
  marked_from columnIndex newDir index (mark_header columnIndex newDir index h0 :: l).
Proof.
  intros Hl [|k] h Hk.
  - injection Hk as <-. exists h0. now rewrite Nat.add_0_r.
  - destruct (Hl k h Hk) as [h1 ->]. exists h1. f_equal. lia.
Qed.

Lemma marked_from_app (columnIndex : Z) (newDir : string) (index : nat)
    (l1 l2 : list element) :
  marked_from columnIndex newDir index l1 ->
  marked_from columnIndex newDir (index + length l1) l2 ->
  marked_from columnIndex newDir index (l1 ++ l2).
Proof.
  intros H1 H2 k h Hk. apply lookup_app_Some in Hk as [Hk | [Hlen Hk]].
  - exact (H1 k h Hk).
  - destruct (H2 _ h Hk) as [h1 ->]. exists h1. f_equal. lia.
Qed.

Lemma is_th_mark_header (columnIndex : Z) (newDir : string) (index : nat) (h : element) :
  is_th (mark_header columnIndex newDir index h) = is_th h.
Proof. unfold mark_header. destruct (_ =? _); reflexivity. Qed.

Lemma mark_cells_headers (columnIndex : Z) (newDir : string) (cs : list element) :
  forall index,
  let '(n, cs') := mark_cells columnIndex newDir index cs in
  n = (index + length (List.filter is_th cs'))%nat /\
  marked_from columnIndex newDir index (List.filter is_th cs').
Proof.
  induction cs as [|c cs IH]; intros index.
  - cbn. split; [lia | apply marked_from_nil].
  - cbn [mark_cells]. destruct (is_th c) eqn:Hc.
    + specialize (IH (S index)).
      destruct (mark_cells columnIndex newDir (S index) cs) as [n r'].
      destruct IH as [Hn Hm]. cbn [List.filter]. rewrite is_th_mark_header, Hc.
      split; [cbn [length]; lia | apply marked_from_cons, Hm].
    + specialize (IH index).
      destruct (mark_cells columnIndex newDir index cs) as [n r'].
      cbn [List.filter]. rewrite Hc. exact IH.
Qed.

Lemma mark_rows_headers (columnIndex : Z) (newDir : string) (rs : list row) :
  forall index,
  let '(n, rs') := mark_rows columnIndex newDir index rs in
  n = (index + length (List.filter is_th (concat (map cells rs'))))%nat /\
  marked_from columnIndex newDir index (List.filter is_th (concat (map cells rs'))).
Proof.
  induction rs as [|r rs IH]; intros index.
  - cbn. split; [lia | apply marked_from_nil].
  - cbn [mark_rows].
    pose proof (mark_cells_headers columnIndex newDir (cells r) index) as Hc.
    destruct (mark_cells columnIndex newDir index (cells r)) as [n cs].
    specialize (IH n). destruct (mark_rows columnIndex newDir n rs) as [n' rest'].
    destruct Hc as [Hn Hm], IH as [Hn' Hm'].
    cbn [map concat cells]. rewrite List.filter_app, length_app. split; [lia|].
    apply marked_from_app; [exact Hm|]. rewrite <- Hn. exact Hm'.
Qed.

Lemma mark_sections_headers (columnIndex : Z) (newDir : string) (ss : list tsection) :
  forall index,
  marked_from columnIndex newDir index
    (header_cells (mark_sections columnIndex newDir index ss)).
Proof.
  unfold header_cells.
  induction ss as [|s ss IH]; intros index; [apply marked_from_nil|].
  cbn [mark_sections].
  pose proof (mark_rows_headers columnIndex newDir (sec_rows s) index) as Hr.
  destruct (mark_rows columnIndex newDir index (sec_rows s)) as [n rs].
  destruct Hr as [Hn Hm]. cbn [map concat sec_rows].
  rewrite map_app, concat_app, List.filter_app.
  apply marked_from_app; [exact Hm|]. rewrite <- Hn. apply IH.
Qed.

Lemma In_token_remove (x cls : string) (l : list string) :
  In x (token_remove cls l) <-> In x l /\ x <> cls.
Proof.
  unfold token_remove. rewrite List.filter_In, negb_true_iff, String.eqb_neq.
  intuition congruence.
Qed.

Lemma In_token_add (x cls : string) (l : list string) :
  In x (token_add cls l) <-> In x l \/ x = cls.
Proof.
  unfold token_add. destruct (existsb (String.eqb cls) l) eqn:Hex.
  - apply existsb_exists in Hex as (y & Hy & Heq). apply String.eqb_eq in Heq as <-.
    intuition congruence.
  - rewrite in_app_iff. cbn [In]. intuition congruence.
Qed.

Lemma mark_header_class (columnIndex : Z) (newDir x : string) (index : nat) (h0 : element) :
  x = "asc" \/ x = "desc" -> newDir = "asc" \/ newDir = "desc" ->
  In ("sort-" +:+ x) (classList (mark_header columnIndex newDir index h0))
  <-> Z.of_nat index = columnIndex /\ x = newDir.
Proof.
  intros Hx Hd. unfold mark_header.
  destruct (Z.eqb_spec (Z.of_nat index) columnIndex) as [Heq | Hne];
    unfold with_classList; cbn [classList].
  - rewrite In_token_add, !In_token_remove.
    destruct Hx as [-> | ->], Hd as [-> | ->];
      change ("sort-" +:+ "asc") with "sort-asc";
      change ("sort-" +:+ "desc") with "sort-desc";
      (split;
       [ intros [[[_ Hn] Hn'] | Hc];
         first [ congruence | split; [exact Heq | reflexivity] ]
       | intros [_ Hc]; first [ discriminate Hc | right; reflexivity ] ]).
  - rewrite !In_token_remove.
    destruct Hx as [-> | ->];
      change ("sort-" +:+ "asc") with "sort-asc";
      change ("sort-" +:+ "desc") with "sort-desc"; tauto.
Qed.

Section MoreSort.
Context `{H : Host}.

(** The table a call of [sortTable] that returns leaves behind. *)
Lemma sortTable_result (p : page) (tableId : string) (columnIndex : Z)
    (isNumeric : bool) (t : table) :
  elementsById p !! tableId = Some t ->
  fst (sortTable tableId columnIndex isNumeric p) = Normal tt ->
  exists tbody sorted,
    first_tbody t = Some tbody /\
    array_sort (compare_rows columnIndex isNumeric (next_direction t columnIndex))
      (indexed (sec_rows tbody)) = Normal sorted /\
    elementsById (exec (sortTable tableId columnIndex isNumeric) p) !! tableId
    = Some {| dataset :=
                <["sortDirection" := next_direction t columnIndex]>
                  (<["sortColumn" := JS.Number_toString columnIndex]> (dataset t));
              sections :=
                mark_sections columnIndex (next_direction t columnIndex) 0
                  (set_first_tbody (map snd sorted) (sections t)) |}.
Proof.
  intros Ht. unfold exec, sortTable, getElementById. rewrite bind_gets, Ht.
  destruct (first_tbody t) as [tbody|]; [|discriminate].
  fold (next_direction t columnIndex).
  destruct (array_sort _ _) as [sorted | error] eqn:Hsort; [|discriminate].
  intros _. exists tbody, sorted. split; [reflexivity|]. split; [exact Hsort|].
  unfold lift, put_element, modify, mbind, M_bind. cbn [snd elementsById set_elementsById].
  rewrite lookup_insert_eq, appended_in_sorted_order; [reflexivity|].
  apply (array_sort_perm _ _ _ Hsort).
Qed.


(** Property X12. After a sort that returns, a header carries [sort-asc] or [sort-desc]
    exactly when it is the header at the sorted column's position and the
    class is the one of the recorded direction. *)
Theorem sortTable_marks_one_header
    (p : page) (tableId : string) (columnIndex : Z) (isNumeric : bool) (t : table) :
  elementsById p !! tableId = Some t ->
  fst (sortTable tableId columnIndex isNumeric p) = Normal tt ->
  exists (t' : table) (newDir : string),
    elementsById (exec (sortTable tableId columnIndex isNumeric) p) !! tableId = Some t' /\
    dataset t' !! "sortDirection" = Some newDir /\
    forall (index : nat) (header : element) (d : string),
      header_cells (sections t') !! index = Some header ->
      d = "asc" \/ d = "desc" ->
      (In ("sort-" +:+ d) (classList header)
       <-> Z.of_nat index = columnIndex /\ d = newDir).
Proof.
  intros Ht Hret.
  destruct (sortTable_result p tableId columnIndex isNumeric t Ht Hret)
    as (tbody & sorted & Htbody & Hsort & Hlook).
  eexists _, (next_direction t columnIndex). split; [exact Hlook|].
  split; [apply lookup_insert_eq|].
  intros index header d Hh Hd. cbn [sections] in Hh.
  destruct (mark_sections_headers columnIndex (next_direction t columnIndex) _ 0 index header Hh)
    as [h0 ->].
  cbn [Nat.add]. apply mark_header_class; [exact Hd|].
  unfold next_direction. destruct (_ && _); auto.
Qed.

Lemma compare_rows_positions (columnIndex : Z) (isNumeric : bool) (dir : string)
    (a b : nat * row) :
  compare_rows columnIndex isNumeric dir a b
  = compare_rows columnIndex isNumeric dir (0%nat, snd a) (0%nat, snd b).
Proof. reflexivity. Qed.

Lemma precedes_has_cell (columnIndex : Z) (isNumeric : bool) (dir : string) (a b : row) :
  precedes columnIndex isNumeric dir a b ->
  has_cell columnIndex a /\ has_cell columnIndex b.
Proof.
  intros (v & Hv & _). unfold compare_rows in Hv. cbn [snd] in Hv. unfold has_cell.
  destruct (cell_at a columnIndex); [|discriminate].
  destruct (cell_at b columnIndex); [|discriminate]. split; eexists; reflexivity.
Qed.

Lemma StronglySorted_map {A B : Type} (R : B -> B -> Prop) (f : A -> B) (l : list A) :
  StronglySorted (fun x y => R (f x) (f y)) l -> StronglySorted R (map f l).
Proof.
  induction 1 as [|x l Hs IH Hx]; cbn [map]; constructor; [exact IH|].
  apply List.Forall_map. exact Hx.
Qed.

(** Property X13. When the comparator orders the rows of the first [tbody] (any two are
    comparable and the order is transitive), the sort returns and leaves
    them in that order: up to the classes of header cells, the table is the
    one before with the rows of its first [tbody] replaced by a sorted
    permutation of them. *)
Theorem sortTable_orders_rows
    (p : page) (tableId : string) (columnIndex : Z) (isNumeric : bool)
    (t : table) (tbody : tsection) :
  elementsById p !! tableId = Some t ->
  first_tbody t = Some tbody ->
  let before := precedes columnIndex isNumeric (next_direction t columnIndex) in
  (forall a b, In a (sec_rows tbody) -> In b (sec_rows tbody) -> before a b \/ before b a) ->
  (forall a b c, In a (sec_rows tbody) -> In b (sec_rows tbody) -> In c (sec_rows tbody) ->
     before a b -> before b c -> before a c) ->
  exists (t' : table) (rows' : list row),
    fst (sortTable tableId columnIndex isNumeric p) = Normal tt /\
    elementsById (exec (sortTable tableId columnIndex isNumeric) p) !! tableId = Some t' /\
    Permutation rows' (sec_rows tbody) /\
    StronglySorted before rows' /\
    map section_content (sections t')
    = map section_content (set_first_tbody rows' (sections t)).
Proof.
  intros Ht Htbody before Htotal Htrans.
  set (dir := next_direction t columnIndex) in *.
  destruct (array_sort_sorted (compare_rows columnIndex isNumeric dir)
              (fun r => In (snd r) (sec_rows tbody))) with (l := indexed (sec_rows tbody))
    as (sorted & Hsort & Hsorted).
  { intros a b Ha Hb. apply compare_rows_total.
    - destruct (Htotal _ _ Ha Ha) as [Haa | Haa]; apply (precedes_has_cell _ _ _ _ _ Haa).
    - destruct (Htotal _ _ Hb Hb) as [Hbb | Hbb]; apply (precedes_has_cell _ _ _ _ _ Hbb). }
  { intros a b Ha Hb. exact (Htotal _ _ Ha Hb). }
  { intros a b c Ha Hb Hc. exact (Htrans _ _ _ Ha Hb Hc). }
  { apply List.Forall_forall. intros [i r] Hir. apply in_combine_r in Hir. exact Hir. }
  assert (Hret : fst (sortTable tableId columnIndex isNumeric p) = Normal tt).
  { unfold sortTable, getElementById. rewrite bind_gets, Ht, Htbody.
    fold (next_direction t columnIndex). fold dir. rewrite Hsort. reflexivity. }
  destruct (sortTable_result p tableId columnIndex isNumeric t Ht Hret)
    as (tbody' & sorted' & Htbody' & Hsort' & Hlook).
  rewrite Htbody in Htbody'. injection Htbody' as <-.
  fold dir in Hsort', Hlook. rewrite Hsort in Hsort'. injection Hsort' as <-.
  eexists _, (map snd sorted). split; [exact Hret|]. split; [exact Hlook|].
  split; [|split].
  - etransitivity; [apply Permutation_map, (array_sort_perm _ _ _ Hsort)|].
    now rewrite indexed_snd.
  - apply StronglySorted_map. exact Hsorted.
  - cbn [sections]. apply mark_sections_content.
Qed.

End MoreSort.


Lemma sortTable_marks_one_header_witness :
  exists (t' : table) (newDir : string),
    elementsById (exec (sortTable (H := en_US) "offers" 2 true) dashboard) !! "offers" = Some t' /\
    dataset t' !! "sortDirection" = Some newDir /\
    forall (index : nat) (header : element) (d : string),
      header_cells (sections t') !! index = Some header ->
      d = "asc" \/ d = "desc" ->
      (In ("sort-" +:+ d) (classList header) <-> Z.of_nat index = 2 /\ d = newDir).
Proof.
  apply (sortTable_marks_one_header (H := en_US) dashboard "offers" 2 true offers_table).
  - reflexivity.
  - reflexivity.
Defined.

Ltac decide_precedes :=
  first
    [ solve [ eexists; split; [vm_compute; reflexivity | vm_compute; reflexivity] ]
    | match goal with
      | Hp : precedes _ _ _ _ _ |- _ =>
          let v := fresh "v" in
          let Hv := fresh "Hv" in
          let Hlt := fresh "Hlt" in
          destruct Hp as (v & Hv & Hlt); vm_compute in Hv;
          injection Hv as <-; vm_compute in Hlt; discriminate Hlt
      end ].

Lemma sortTable_orders_rows_witness :
  exists (t' : table) (rows' : list row),
    fst (sortTable (H := en_US) "offers" 2 true dashboard) = Normal tt /\
    elementsById (exec (sortTable (H := en_US) "offers" 2 true) dashboard) !! "offers" = Some t' /\
    Permutation rows'
      [ table_row "TD" ["Adept's Bag"; "Lymhurst"; "12,500"];
        table_row "TD" ["Novice's Cape"; "Martlock"; "900"];
        table_row "TD" ["Carrot"; "Bridgewatch"; "35"] ] /\
    StronglySorted (precedes (H := en_US) 2 true "asc") rows' /\
    map section_content (sections t')
    = map section_content (set_first_tbody rows' (sections offers_table)).
Proof.
  apply (sortTable_orders_rows (H := en_US) dashboard "offers" 2 true offers_table
           {| sec_tag := TBODY;
              sec_rows :=
                [ table_row "TD" ["Adept's Bag"; "Lymhurst"; "12,500"];
                  table_row "TD" ["Novice's Cape"; "Martlock"; "900"];
                  table_row "TD" ["Carrot"; "Bridgewatch"; "35"] ] |}).
  - reflexivity.
  - reflexivity.
  - intros a b [<- | [<- | [<- | []]]] [<- | [<- | [<- | []]]];
      first [ left; decide_precedes | right; decide_precedes ].
  - intros a b c [<- | [<- | [<- | []]]] [<- | [<- | [<- | []]]] [<- | [<- | [<- | []]]]
      Hab Hbc; first [ solve [decide_precedes] | clear Hbc; decide_precedes | clear Hab; decide_precedes ].
Defined.

(** ** [sortTable]: the direction of the rows *)

Lemma ltb_opp (v : float) : PrimFloat.ltb 0 (PrimFloat.opp v) = PrimFloat.ltb v 0.
Proof.
  rewrite !FloatAxioms.ltb_spec, FloatAxioms.opp_spec.
  change (Prim2SF 0%float) with (S754_zero false).
  destruct (Prim2SF v) as [s | s | | s m e]; try destruct s; reflexivity.
Qed.

Section Direction.
Context `{H : Host}.

Lemma compare_rows_comparison (columnIndex : Z) (isNumeric : bool) (dir : string)
    (a b : nat * row) (w : float) :
  compare_rows columnIndex isNumeric dir a b = Normal w <->
  exists v, column_comparison columnIndex isNumeric (snd a) (snd b) = Some v /\
            w = if String.eqb dir "asc" then v else PrimFloat.opp v.
Proof.
  unfold compare_rows, column_comparison.
  destruct (cell_at (snd a) columnIndex) as [aCell|];
    [|split; [discriminate | intros (v & [=] & _)]].
  destruct (cell_at (snd b) columnIndex) as [bCell|];
    [|split; [discriminate | intros (v & [=] & _)]].
  split.
  - intros [= <-]. eexists. split; reflexivity.
  - intros (v & [= <-] & ->). reflexivity.
Qed.

Lemma in_order_asc (columnIndex : Z) (isNumeric : bool) (a b : nat * row) :
  in_order (compare_rows columnIndex isNumeric "asc") a b <->
  ascending_pair columnIndex isNumeric (snd a) (snd b).
Proof.
  unfold in_order, ascending_pair. split.
  - intros (w & Hw & Hlt). apply compare_rows_comparison in Hw as (v & Hv & ->).
    exists v. auto.
  - intros (v & Hv & Hlt). exists v. split; [|exact Hlt].
    apply compare_rows_comparison. exists v. auto.
Qed.

Lemma in_order_desc (columnIndex : Z) (isNumeric : bool) (a b : nat * row) :
  in_order (compare_rows columnIndex isNumeric "desc") a b <->
  descending_pair columnIndex isNumeric (snd a) (snd b).
Proof.
  unfold in_order, descending_pair. split.
  - intros (w & Hw & Hlt). apply compare_rows_comparison in Hw as (v & Hv & ->).
    exists v. cbn in Hlt. rewrite ltb_opp in Hlt. auto.
  - intros (v & Hv & Hlt). exists (PrimFloat.opp v). split; [|now rewrite ltb_opp].
    apply compare_rows_comparison. exists v. auto.
Qed.

Lemma descending_ascending (columnIndex : Z) (isNumeric : bool) (rows : list row)
    (a b : row) :
  orders columnIndex isNumeric rows -> In a rows -> In b rows ->
  descending_pair columnIndex isNumeric a b <-> ascending_pair columnIndex isNumeric b a.
Proof.
  intros (Hanti & _ & _) Ha Hb. destruct (Hanti a b Ha Hb) as (v & w & Hv & Hw & Hsign).
  unfold descending_pair, ascending_pair. rewrite Hv, Hw. split.
  - intros (v' & [= <-] & Hlt). exists w. split; [reflexivity | congruence].
  - intros (w' & [= <-] & Hlt). exists v. split; [reflexivity | congruence].
Qed.

End Direction.

Lemma StronglySorted_weaken {A : Type} (R R' : A -> A -> Prop) (l : list A) :
  (forall a b, R a b -> R' a b) -> StronglySorted R l -> StronglySorted R' l.
Proof.
  intros HR. induction 1 as [|x l Hs IH Hx]; constructor; [exact IH|].
  revert Hx. apply List.Forall_impl. apply HR.
Qed.

Lemma cell_at_content (a a' : row) (columnIndex : Z) :
  map cell_content (cells a) = map cell_content (cells a') ->
  textContent <$> cell_at a columnIndex = textContent <$> cell_at a' columnIndex.
Proof.
  intros Hc. unfold cell_at. destruct (columnIndex <? 0); [reflexivity|].
  assert (Hl : cell_content <$> (cells a !! Z.to_nat columnIndex)
               = cell_content <$> (cells a' !! Z.to_nat columnIndex)).
  { rewrite <- !list_lookup_fmap. unfold fmap, list_fmap. fold (map cell_content (cells a)).
    fold (map cell_content (cells a')). now rewrite Hc. }
  destruct (cells a !! _) as [x|], (cells a' !! _) as [x'|]; try discriminate; [|reflexivity].
  injection Hl as _ Hl. cbn. now rewrite Hl.
Qed.

Section Direction2.
Context `{H : Host}.

Lemma column_comparison_content (columnIndex : Z) (isNumeric : bool) (a a' b b' : row) :
  row_content a = row_content a' -> row_content b = row_content b' ->
  column_comparison columnIndex isNumeric a b
  = column_comparison columnIndex isNumeric a' b'.
Proof.
  unfold row_content. intros [= Ha _] [= Hb _].
  pose proof (cell_at_content a a' columnIndex Ha) as Hca.
  pose proof (cell_at_content b b' columnIndex Hb) as Hcb.
  unfold column_comparison.
  destruct (cell_at a columnIndex) as [x|], (cell_at a' columnIndex) as [x'|];
    try discriminate; [|reflexivity].
  destruct (cell_at b columnIndex) as [y|], (cell_at b' columnIndex) as [y'|];
    try discriminate; [|reflexivity].
  injection Hca as ->. injection Hcb as ->. reflexivity.
Qed.

Lemma StronglySorted_content (R : row -> row -> Prop) (l : list row) :
  (forall a a' b b', row_content a = row_content a' -> row_content b = row_content b' ->
                     R a b -> R a' b') ->
  StronglySorted R l ->
  forall l', map row_content l' = map row_content l -> StronglySorted R l'.
Proof.
  intros HR. induction 1 as [|x l Hs IH Hx]; intros [|x' l'] Heq; try discriminate;
    [constructor|].
  pose proof (f_equal (hd (row_content x)) Heq) as Hx'.
  pose proof (f_equal (@tl _) Heq) as Hl'. cbn [map hd tl] in Hx', Hl'. clear Heq.
  constructor; [apply IH, Hl'|].
  clear IH Hs. revert l' Hl'. induction Hx as [|y l Hy Hl IH]; intros [|y' l'] Heq;
    try discriminate; [constructor|].
  pose proof (f_equal (hd (row_content y)) Heq) as Hy'.
  pose proof (f_equal (@tl _) Heq) as Hl'. cbn [map hd tl] in Hy', Hl'. clear Heq.
  constructor; [|apply IH, Hl'].
  apply (HR x x' y y'); auto.
Qed.

Lemma orders_content (columnIndex : Z) (isNumeric : bool) (rows rows' : list row) :
  Permutation (map row_content rows') (map row_content rows) ->
  orders columnIndex isNumeric rows -> orders columnIndex isNumeric rows'.
Proof.
  intros Hperm (Hanti & Htotal & Htrans).
  assert (Hback : forall r', In r' rows' -> exists r, In r rows /\ row_content r' = row_content r).
  { intros r' Hr'. apply (in_map row_content) in Hr'.
    apply list_elem_of_In in Hr'. rewrite Hperm in Hr'. apply list_elem_of_In in Hr'.
    apply in_map_iff in Hr' as (r & Heq & Hr). eauto. }
  assert (Hcmp : forall a b a0 b0, row_content a = row_content a0 ->
                   row_content b = row_content b0 ->
                   column_comparison columnIndex isNumeric a b
                   = column_comparison columnIndex isNumeric a0 b0).
  { intros. now apply column_comparison_content. }
  assert (Hasc : forall a b a0 b0, row_content a = row_content a0 ->
                   row_content b = row_content b0 ->
                   ascending_pair columnIndex isNumeric a0 b0 ->
                   ascending_pair columnIndex isNumeric a b).
  { intros a b a0 b0 Hea Heb (v & Hv & Hlt). exists v. now rewrite (Hcmp a b a0 b0 Hea Heb). }
  split; [|split].
  - intros a b Ha Hb. destruct (Hback a Ha) as (a0 & Ha0 & Hea), (Hback b Hb) as (b0 & Hb0 & Heb).
    destruct (Hanti a0 b0 Ha0 Hb0) as (v & w & Hv & Hw & Hsign). exists v, w.
    now rewrite (Hcmp a b a0 b0 Hea Heb), (Hcmp b a b0 a0 Heb Hea).
  - intros a b Ha Hb. destruct (Hback a Ha) as (a0 & Ha0 & Hea), (Hback b Hb) as (b0 & Hb0 & Heb).
    destruct (Htotal a0 b0 Ha0 Hb0); [left | right]; eapply Hasc; eassumption.
  - intros a b c Ha Hb Hc Hab Hbc.
    destruct (Hback a Ha) as (a0 & Ha0 & Hea), (Hback b Hb) as (b0 & Hb0 & Heb),
      (Hback c Hc) as (c0 & Hc0 & Hec).
    apply (Hasc a c a0 c0 Hea Hec). apply (Htrans a0 b0 c0 Ha0 Hb0 Hc0).
    + apply (Hasc a0 b0 a b); auto.
    + apply (Hasc b0 c0 b c); auto.
Qed.

Lemma mark_sections_first_tbody_content (columnIndex : Z) (newDir : string)
    (ss : list tsection) :
  forall index tbody,
  List.find is_tbody ss = Some tbody ->
  exists tbody',
    List.find is_tbody (mark_sections columnIndex newDir index ss) = Some tbody' /\
    map row_content (sec_rows tbody') = map row_content (sec_rows tbody).
Proof.
  induction ss as [|s ss IH]; intros index tbody Hfind; [discriminate|].
  cbn [mark_sections].
  pose proof (mark_rows_content columnIndex newDir (sec_rows s) index) as Hmark.
  destruct (mark_rows columnIndex newDir index (sec_rows s)) as [n rs].
  cbn [List.find] in *. unfold is_tbody at 1. cbn [sec_tag]. fold (is_tbody s).
  destruct (is_tbody s).
  - injection Hfind as <-. eexists. split; [reflexivity|]. exact Hmark.
  - eapply IH; eassumption.
Qed.

Lemma next_direction_cases (t : table) (columnIndex : Z) :
  (sorted_ascending_on t columnIndex /\ next_direction t columnIndex = "desc") \/
  (~ sorted_ascending_on t columnIndex /\ next_direction t columnIndex = "asc").
Proof. exact (new_direction t columnIndex). Qed.

(** One call on a table whose rows the comparison orders: it returns,
    records the column and the direction it chose, and leaves the rows of
    the first [tbody] permuted into that direction. *)
Lemma sortTable_sorts (p : page) (tableId : string) (columnIndex : Z)
    (isNumeric : bool) (t : table) (tbody : tsection) :
  elementsById p !! tableId = Some t ->
  first_tbody t = Some tbody ->
  orders columnIndex isNumeric (sec_rows tbody) ->
  exists (t' : table) (tbody' : tsection),
    sortTable tableId columnIndex isNumeric p
    = (Normal tt, set_elementsById (<[tableId := t']> (elementsById p)) p) /\
    first_tbody t' = Some tbody' /\
    Permutation (map row_content (sec_rows tbody')) (map row_content (sec_rows tbody)) /\
    dataset t' !! "sortColumn" = Some (JS.Number_toString columnIndex) /\
    dataset t' !! "sortDirection" = Some (next_direction t columnIndex) /\
    (next_direction t columnIndex = "asc" ->
     rows_ascending columnIndex isNumeric (sec_rows tbody')) /\
    (next_direction t columnIndex = "desc" ->
     rows_descending columnIndex isNumeric (sec_rows tbody')).
Proof.
  intros Ht Htbody Hord.
  set (dir := next_direction t columnIndex).
  assert (Hdir : dir = "asc" \/ dir = "desc").
  { subst dir. destruct (next_direction_cases t columnIndex) as [[_ ->] | [_ ->]]; auto. }
  pose proof Hord as (Hanti & Htotal & Htrans).
  destruct (array_sort_sorted (compare_rows columnIndex isNumeric dir)
              (fun r => In (snd r) (sec_rows tbody))) with (l := indexed (sec_rows tbody))
    as (sorted & Hsort & Hsorted).
  { intros a b Ha Hb. destruct (Hanti _ _ Ha Hb) as (v & w & Hv & _).
    eexists. apply compare_rows_comparison. eauto. }
  { intros a b Ha Hb. destruct Hdir as [-> | ->].
    - rewrite !in_order_asc. auto.
    - rewrite !in_order_desc, !(descending_ascending _ _ _ _ _ Hord) by assumption.
      destruct (Htotal _ _ Ha Hb); auto. }
  { intros a b c Ha Hb Hc. destruct Hdir as [-> | ->].
    - rewrite !in_order_asc. eauto.
    - rewrite !in_order_desc, !(descending_ascending _ _ _ _ _ Hord) by assumption.
      intros Hba Hcb. eauto. }
  { apply List.Forall_forall. intros [i r] Hir. apply in_combine_r in Hir. exact Hir. }
  assert (Hperm : Permutation (map snd sorted) (sec_rows tbody)).
  { etransitivity; [apply Permutation_map, (array_sort_perm _ _ _ Hsort)|].
    now rewrite indexed_snd. }
  destruct (mark_sections_first_tbody_content columnIndex dir
              (set_first_tbody (map snd sorted) (sections t)) 0 _
              (set_first_tbody_find (map snd sorted) (sections t) tbody Htbody))
    as (tbody' & Hfind & Hcontent).
  cbn [sec_rows] in Hcontent.
  exists {| dataset :=
              <["sortDirection" := dir]>
                (<["sortColumn" := JS.Number_toString columnIndex]> (dataset t));
            sections :=
              mark_sections columnIndex dir 0
                (set_first_tbody (map snd sorted) (sections t)) |}, tbody'.
  split; [|split; [exact Hfind|]].
  - unfold sortTable, getElementById. rewrite bind_gets, Ht, Htbody.
    fold (next_direction t columnIndex). fold dir. rewrite Hsort.
    unfold lift, put_element, modify, mbind, M_bind.
    rewrite appended_in_sorted_order by apply (array_sort_perm _ _ _ Hsort).
    reflexivity.
  - split; [rewrite Hcontent; apply Permutation_map, Hperm|].
    cbn [dataset]. split; [rewrite lookup_insert_ne by discriminate; apply lookup_insert_eq|].
    split; [apply lookup_insert_eq|].
    split; intros Hd; fold dir in Hd; rewrite Hd in Hsorted.
    + apply (StronglySorted_content _ (map snd sorted)); [| |exact Hcontent].
      * intros a a' b b' Ha Hb (v & Hv & Hlt). exists v.
        now rewrite <- (column_comparison_content _ _ a a' b b' Ha Hb).
      * apply StronglySorted_map. revert Hsorted. apply StronglySorted_weaken.
        intros a b. apply in_order_asc.
    + apply (StronglySorted_content _ (map snd sorted)); [| |exact Hcontent].
      * intros a a' b b' Ha Hb (v & Hv & Hlt). exists v.
        now rewrite <- (column_comparison_content _ _ a a' b b' Ha Hb).
      * apply StronglySorted_map. revert Hsorted. apply StronglySorted_weaken.
        intros a b. apply in_order_desc.
Qed.

End Direction2.

Section Toggle.
Context `{H : Host}.

(** Claim C7. Whatever the table, a call of [sortTable] on a column either
    throws and leaves the page as it was, or returns having recorded the
    column and the toggled direction: [desc] when the table was sorted
    ascending on the column, [asc] otherwise. On a table whose body rows
    all have a cell in the column and that is not currently sorted
    ascending on it, three consecutive calls on the column all return, and
    record the column with the directions [asc], [desc] and [asc] in
    turn. When moreover the comparison orders the rows of the first
    [tbody], the three calls leave these rows, each time a permutation of
    the rows before, in ascending, then descending, then ascending order
    on the column. *)
Theorem sortTable_toggles_direction
    (p : page) (tableId : string) (columnIndex : Z) (n1 n2 n3 : bool) (t : table) :
  elementsById p !! tableId = Some t ->
  ((exists error, sortTable tableId columnIndex n1 p = (Throw error, p)) \/
   (exists t' : table,
      sortTable tableId columnIndex n1 p
      = (Normal tt, set_elementsById (<[tableId := t']> (elementsById p)) p) /\
      dataset t' !! "sortColumn" = Some (JS.Number_toString columnIndex) /\
      ((sorted_ascending_on t columnIndex /\
        dataset t' !! "sortDirection" = Some "desc") \/
       (~ sorted_ascending_on t columnIndex /\
        dataset t' !! "sortDirection" = Some "asc")))) /\
  (sortable_on t columnIndex ->
   ~ sorted_ascending_on t columnIndex ->
   exists (p1 p2 p3 : page) (t1 t2 t3 : table),
    sortTable tableId columnIndex n1 p = (Normal tt, p1) /\
    elementsById p1 !! tableId = Some t1 /\
    dataset t1 !! "sortColumn" = Some (JS.Number_toString columnIndex) /\
    dataset t1 !! "sortDirection" = Some "asc" /\
    sortTable tableId columnIndex n2 p1 = (Normal tt, p2) /\
    elementsById p2 !! tableId = Some t2 /\
    dataset t2 !! "sortColumn" = Some (JS.Number_toString columnIndex) /\
    dataset t2 !! "sortDirection" = Some "desc" /\
    sortTable tableId columnIndex n3 p2 = (Normal tt, p3) /\
    elementsById p3 !! tableId = Some t3 /\
    dataset t3 !! "sortColumn" = Some (JS.Number_toString columnIndex) /\
    dataset t3 !! "sortDirection" = Some "asc") /\
  (forall tbody : tsection,
   first_tbody t = Some tbody ->
   ~ sorted_ascending_on t columnIndex ->
   orders columnIndex n1 (sec_rows tbody) ->
   orders columnIndex n2 (sec_rows tbody) ->
   orders columnIndex n3 (sec_rows tbody) ->
   exists (p1 p2 p3 : page) (t1 t2 t3 : table) (b1 b2 b3 : tsection),
    sortTable tableId columnIndex n1 p = (Normal tt, p1) /\
    elementsById p1 !! tableId = Some t1 /\
    first_tbody t1 = Some b1 /\
    Permutation (map row_content (sec_rows b1)) (map row_content (sec_rows tbody)) /\
    rows_ascending columnIndex n1 (sec_rows b1) /\
    dataset t1 !! "sortDirection" = Some "asc" /\
    sortTable tableId columnIndex n2 p1 = (Normal tt, p2) /\
    elementsById p2 !! tableId = Some t2 /\
    first_tbody t2 = Some b2 /\
    Permutation (map row_content (sec_rows b2)) (map row_content (sec_rows tbody)) /\
    rows_descending columnIndex n2 (sec_rows b2) /\
    dataset t2 !! "sortDirection" = Some "desc" /\
    sortTable tableId columnIndex n3 p2 = (Normal tt, p3) /\
    elementsById p3 !! tableId = Some t3 /\
    first_tbody t3 = Some b3 /\
    Permutation (map row_content (sec_rows b3)) (map row_content (sec_rows tbody)) /\
    rows_ascending columnIndex n3 (sec_rows b3) /\
    dataset t3 !! "sortDirection" = Some "asc").
Proof.
  intros Ht. split; [apply sortTable_outcome, Ht|]. split.
  - intros Hsortable Hnot.
    destruct (sortTable_once p tableId columnIndex n1 t Ht Hsortable)
      as (t1 & Hrun1 & Hs1 & Hc1 & [[Ha _] | [_ Hd1]]); [contradiction|].
    set (p1 := set_elementsById (<[tableId := t1]> (elementsById p)) p) in *.
    assert (Ht1 : elementsById p1 !! tableId = Some t1) by apply lookup_insert_eq.
    destruct (sortTable_once p1 tableId columnIndex n2 t1 Ht1 Hs1)
      as (t2 & Hrun2 & Hs2 & Hc2 & [[_ Hd2] | [Hn _]]).
    2: { exfalso. apply Hn. split; [exact Hc1 | left; exact Hd1]. }
    set (p2 := set_elementsById (<[tableId := t2]> (elementsById p1)) p1) in *.
    assert (Ht2 : elementsById p2 !! tableId = Some t2) by apply lookup_insert_eq.
    destruct (sortTable_once p2 tableId columnIndex n3 t2 Ht2 Hs2)
      as (t3 & Hrun3 & Hs3 & Hc3 & [[[_ Ha] _] | [_ Hd3]]).
    { rewrite Hd2 in Ha. destruct Ha as [[=] | [[=] | [=]]]. }
    exists p1, p2, (set_elementsById (<[tableId := t3]> (elementsById p2)) p2), t1, t2, t3.
    repeat split; try assumption. apply lookup_insert_eq.
  - intros tbody Htbody Hnot Hord1 Hord2 Hord3.
    destruct (sortTable_sorts p tableId columnIndex n1 t tbody Ht Htbody Hord1)
      as (t1 & b1 & Hrun1 & Hb1 & Hperm1 & Hc1 & Hd1 & Hasc1 & _).
    assert (Hdir1 : next_direction t columnIndex = "asc").
    { destruct (next_direction_cases t columnIndex) as [[Hs _] | [_ Hd]];
        [contradiction | exact Hd]. }
    rewrite Hdir1 in Hd1. specialize (Hasc1 Hdir1).
    set (p1 := set_elementsById (<[tableId := t1]> (elementsById p)) p) in *.
    assert (Ht1 : elementsById p1 !! tableId = Some t1) by apply lookup_insert_eq.
    destruct (sortTable_sorts p1 tableId columnIndex n2 t1 b1 Ht1 Hb1
                (orders_content _ _ _ _ Hperm1 Hord2))
      as (t2 & b2 & Hrun2 & Hb2 & Hperm2 & Hc2 & Hd2 & _ & Hdesc2).
    assert (Hdir2 : next_direction t1 columnIndex = "desc").
    { destruct (next_direction_cases t1 columnIndex) as [[_ Hd] | [Hn _]]; [exact Hd|].
      exfalso. apply Hn. split; [exact Hc1 | left; exact Hd1]. }
    rewrite Hdir2 in Hd2. specialize (Hdesc2 Hdir2).
    rewrite Hperm1 in Hperm2.
    set (p2 := set_elementsById (<[tableId := t2]> (elementsById p1)) p1) in *.
    assert (Ht2 : elementsById p2 !! tableId = Some t2) by apply lookup_insert_eq.
    destruct (sortTable_sorts p2 tableId columnIndex n3 t2 b2 Ht2 Hb2
                (orders_content _ _ _ _ Hperm2 Hord3))
      as (t3 & b3 & Hrun3 & Hb3 & Hperm3 & Hc3 & Hd3 & Hasc3 & _).
    assert (Hdir3 : next_direction t2 columnIndex = "asc").
    { destruct (next_direction_cases t2 columnIndex) as [[[_ Ha] _] | [_ Hd]]; [|exact Hd].
      rewrite Hd2 in Ha. destruct Ha as [[=] | [[=] | [=]]]. }
    rewrite Hdir3 in Hd3. specialize (Hasc3 Hdir3).
    rewrite Hperm2 in Hperm3.
    exists p1, p2, (set_elementsById (<[tableId := t3]> (elementsById p2)) p2),
      t1, t2, t3, b1, b2, b3.
    repeat split; try assumption. apply lookup_insert_eq.
Qed.

End Toggle.

Ltac decide_comparison :=
  first
    [ solve [ eexists; split; [vm_compute; reflexivity | vm_compute; reflexivity] ]
    | match goal with
      | Hp : ascending_pair _ _ _ _ |- _ =>
          let v := fresh "v" in
          let Hv := fresh "Hv" in
          let Hlt := fresh "Hlt" in
          destruct Hp as (v & Hv & Hlt); vm_compute in Hv;
          injection Hv as <-; vm_compute in Hlt; discriminate Hlt
      end ].

(** The prices of the sample table are ordered by the numeric comparison. *)
Lemma offers_table_ordered :
  orders (H := en_US) 2 true
    [ table_row "TD" ["Adept's Bag"; "Lymhurst"; "12,500"];
      table_row "TD" ["Novice's Cape"; "Martlock"; "900"];
      table_row "TD" ["Carrot"; "Bridgewatch"; "35"] ].
Proof.
  split; [|split].
  - intros a b [<- | [<- | [<- | []]]] [<- | [<- | [<- | []]]];
      eexists _, _; (split; [vm_compute; reflexivity|]);
      (split; [vm_compute; reflexivity|]); vm_compute; reflexivity.
  - intros a b [<- | [<- | [<- | []]]] [<- | [<- | [<- | []]]];
      first [ left; decide_comparison | right; decide_comparison ].
  - intros a b c [<- | [<- | [<- | []]]] [<- | [<- | [<- | []]]] [<- | [<- | [<- | []]]]
      Hab Hbc;
      first [ solve [decide_comparison] | clear Hbc; decide_comparison
            | clear Hab; decide_comparison ].
Qed.

(** Claim C7 on the sample table, sorted three times by price: 35, 900,
    12,500, then 12,500, 900, 35, then 35, 900, 12,500 again. *)
Lemma sortTable_toggles_direction_witness :
  (exists (p1 p2 p3 : page) (t1 t2 t3 : table),
    sortTable (H := en_US) "offers" 2 true dashboard = (Normal tt, p1) /\
    elementsById p1 !! "offers" = Some t1 /\
    dataset t1 !! "sortColumn" = Some (JS.Number_toString 2) /\
    dataset t1 !! "sortDirection" = Some "asc" /\
    sortTable (H := en_US) "offers" 2 true p1 = (Normal tt, p2) /\
    elementsById p2 !! "offers" = Some t2 /\
    dataset t2 !! "sortColumn" = Some (JS.Number_toString 2) /\
    dataset t2 !! "sortDirection" = Some "desc" /\
    sortTable (H := en_US) "offers" 2 true p2 = (Normal tt, p3) /\
    elementsById p3 !! "offers" = Some t3 /\
    dataset t3 !! "sortColumn" = Some (JS.Number_toString 2) /\
    dataset t3 !! "sortDirection" = Some "asc") /\
  (exists (p1 p2 p3 : page) (t1 t2 t3 : table) (b1 b2 b3 : tsection),
    sortTable (H := en_US) "offers" 2 true dashboard = (Normal tt, p1) /\
    elementsById p1 !! "offers" = Some t1 /\
    first_tbody t1 = Some b1 /\
    Permutation (map row_content (sec_rows b1))
      (map row_content
         [ table_row "TD" ["Adept's Bag"; "Lymhurst"; "12,500"];
           table_row "TD" ["Novice's Cape"; "Martlock"; "900"];
           table_row "TD" ["Carrot"; "Bridgewatch"; "35"] ]) /\
    rows_ascending (H := en_US) 2 true (sec_rows b1) /\
    dataset t1 !! "sortDirection" = Some "asc" /\
    sortTable (H := en_US) "offers" 2 true p1 = (Normal tt, p2) /\
    elementsById p2 !! "offers" = Some t2 /\
    first_tbody t2 = Some b2 /\
    Permutation (map row_content (sec_rows b2))
      (map row_content
         [ table_row "TD" ["Adept's Bag"; "Lymhurst"; "12,500"];
           table_row "TD" ["Novice's Cape"; "Martlock"; "900"];
           table_row "TD" ["Carrot"; "Bridgewatch"; "35"] ]) /\
    rows_descending (H := en_US) 2 true (sec_rows b2) /\
    dataset t2 !! "sortDirection" = Some "desc" /\
    sortTable (H := en_US) "offers" 2 true p2 = (Normal tt, p3) /\
    elementsById p3 !! "offers" = Some t3 /\
    first_tbody t3 = Some b3 /\
    Permutation (map row_content (sec_rows b3))
      (map row_content
         [ table_row "TD" ["Adept's Bag"; "Lymhurst"; "12,500"];
           table_row "TD" ["Novice's Cape"; "Martlock"; "900"];
           table_row "TD" ["Carrot"; "Bridgewatch"; "35"] ]) /\
    rows_ascending (H := en_US) 2 true (sec_rows b3) /\
    dataset t3 !! "sortDirection" = Some "asc").
Proof.
  destruct (proj2 (sortTable_toggles_direction (H := en_US) dashboard "offers" 2
                     true true true offers_table eq_refl)) as [Hrecord Hrows].
  split.
  - apply Hrecord; [exact offers_table_sortable | exact offers_table_unsorted].
  - apply (Hrows {| sec_tag := TBODY;
                    sec_rows :=
                      [ table_row "TD" ["Adept's Bag"; "Lymhurst"; "12,500"];
                        table_row "TD" ["Novice's Cape"; "Martlock"; "900"];
                        table_row "TD" ["Carrot"; "Bridgewatch"; "35"] ] |}).
    + reflexivity.
    + exact offers_table_unsorted.
    + exact offers_table_ordered.
    + exact offers_table_ordered.
    + exact offers_table_ordered.
Defined.

(** The three sorts on the sample table, by price. *)
Example sort_offers_three_times :
  let prices p := (fun t => map (fun r => column_text r 2) (body_rows t))
                    <$> (elementsById p !! "offers") in
  let p1 := exec (sortTable (H := en_US) "offers" 2 true) dashboard in
  let p2 := exec (sortTable (H := en_US) "offers" 2 true) p1 in
  let p3 := exec (sortTable (H := en_US) "offers" 2 true) p2 in
  prices p1 = Some ["35"; "900"; "12,500"] /\
  prices p2 = Some ["12,500"; "900"; "35"] /\
  prices p3 = Some ["35"; "900"; "12,500"].
Proof. repeat split. Qed.

(** ** The export after a sort *)

Lemma csv_field_content (c c' : element) :
  cell_content c = cell_content c' -> csv_field c = csv_field c'.
Proof. unfold cell_content, csv_field. intros [= _ ->]. reflexivity. Qed.

Lemma csv_fields_content (cs cs' : list element) :
  map cell_content cs = map cell_content cs' -> map csv_field cs = map csv_field cs'.
Proof.
  revert cs'. induction cs as [|c cs IH]; intros [|c' cs'] Heq; try discriminate;
    [reflexivity|].
  cbn [map] in *. injection Heq as Htag Htext Hcs. f_equal; [|apply IH, Hcs].
  apply csv_field_content. unfold cell_content. now rewrite Htag, Htext.
Qed.

Lemma csv_lines_content (rs rs' : list row) :
  map row_content rs = map row_content rs' ->
  map (fun row => JS.join "," (map csv_field (cells row))) rs
  = map (fun row => JS.join "," (map csv_field (cells row))) rs'.
Proof.
  revert rs'. induction rs as [|r rs IH]; intros [|r' rs'] Heq; try discriminate;
    [reflexivity|].
  cbn [map] in *. unfold row_content at 1 2 in Heq.
  injection Heq as Hcells _ Hrs. f_equal; [|apply IH, Hrs].
  f_equal. apply csv_fields_content, Hcells.
Qed.

Lemma rows_content (ss : list tsection) :
  map row_content (concat (map sec_rows ss)) = concat (map snd (map section_content ss)).
Proof.
  induction ss as [|s ss IH]; [reflexivity|].
  cbn [map concat]. now rewrite map_app, IH.
Qed.

Lemma set_first_tbody_rows (rows' : list row) (ss : list tsection) (tbody : tsection) :
  List.find is_tbody ss = Some tbody ->
  Permutation rows' (sec_rows tbody) ->
  Permutation (concat (map sec_rows (set_first_tbody rows' ss))) (concat (map sec_rows ss)).
Proof.
  intros Hfind Hperm. induction ss as [|s ss IH]; [discriminate|].
  cbn [List.find set_first_tbody] in *. destruct (is_tbody s).
  - injection Hfind as ->. cbn [map concat sec_rows]. now rewrite Hperm.
  - cbn [map concat]. now rewrite (IH Hfind).
Qed.

Section ExportAfterSort.
Context `{H : Host}.

(** Property X14. Sorting loses no line of the export: after a sort that returns, the
    exported lines are those from before, in another order. *)
Theorem sorting_keeps_exported_lines
    (p : page) (tableId : string) (columnIndex : Z) (isNumeric : bool) (t : table) :
  elementsById p !! tableId = Some t ->
  fst (sortTable tableId columnIndex isNumeric p) = Normal tt ->
  exists t' : table,
    elementsById (exec (sortTable tableId columnIndex isNumeric) p) !! tableId = Some t' /\
    Permutation (csv_lines t') (csv_lines t).
Proof.
  intros Ht Hret.
  destruct (sortTable_result p tableId columnIndex isNumeric t Ht Hret)
    as (tbody & sorted & Htbody & Hsort & Hlook).
  eexists. split; [exact Hlook|]. unfold csv_lines, all_rows. cbn [sections].
  rewrite (csv_lines_content _ (concat (map sec_rows (set_first_tbody (map snd sorted) (sections t))))).
  - apply Permutation_map. apply (set_first_tbody_rows _ _ tbody Htbody).
    rewrite <- (indexed_snd (sec_rows tbody)).
    apply Permutation_map, (array_sort_perm _ _ _ Hsort).
  - rewrite !rows_content. now rewrite mark_sections_content.
Qed.

End ExportAfterSort.

Lemma sorting_keeps_exported_lines_witness :
  exists t' : table,
    elementsById (exec (sortTable (H := en_US) "offers" 2 true) dashboard) !! "offers" = Some t' /\
    Permutation (csv_lines t') (csv_lines offers_table).
Proof.
  apply (sorting_keeps_exported_lines (H := en_US) dashboard "offers" 2 true offers_table).
  - reflexivity.
  - reflexivity.
Defined.

(** ** The quantity fields, again *)

(** Property X15. A second input event without typing changes nothing, when the declared
    maximum does not parse or parses to an integer of at least 1. *)
Theorem quantity_listener_is_idempotent (this : Input.t) :
  (forall m, JS.parseInt (Input.max this) = Some m -> 1 <= m) ->
  quantity_input_listener (quantity_input_listener this) = quantity_input_listener this.
Proof.
  intros Hmax. unfold quantity_input_listener.
  destruct (JS.parseInt (Input.max this)) as [m|] eqn:Hm;
    [specialize (Hmax m eq_refl)|clear Hmax];
    destruct (JS.parseInt (Input.value this)) as [v|] eqn:Hv;
    cbn [num_gt num_lt default from_option id].
  - destruct (Z.ltb_spec m v) as [Hgt | Hle];
      destruct (Z.ltb_spec v 1) as [Hlt | Hge]; try lia;
      cbn [Input.set_value Input.value Input.max];
      rewrite ?Hm, ?Hv, ?JSFacts.parseInt_Number_toString;
      cbn [num_gt num_lt default from_option id].
    + destruct (Z.ltb_spec m m); [lia|]. destruct (Z.ltb_spec m 1); [lia|]. reflexivity.
    + destruct (Z.ltb_spec m 1); [lia|]. reflexivity.
    + destruct (Z.ltb_spec m v); [lia|]. destruct (Z.ltb_spec v 1); [lia|]. reflexivity.
  - rewrite Hm, Hv. reflexivity.
  - destruct (Z.ltb_spec v 1) as [Hlt | Hge];
      cbn [Input.set_value Input.value Input.max];
      rewrite ?Hm, ?Hv, ?JSFacts.parseInt_Number_toString;
      cbn [num_gt num_lt default from_option id]; [reflexivity|].
    destruct (Z.ltb_spec v 1); [lia | reflexivity].
  - rewrite Hm, Hv. reflexivity.
Qed.

Lemma quantity_listener_is_idempotent_witness :
  let this := {| Input.max := "10"; Input.value := "25" |} in
  quantity_input_listener (quantity_input_listener this) = quantity_input_listener this.
Proof.
  apply (quantity_listener_is_idempotent {| Input.max := "10"; Input.value := "25" |}).
  intros m Hm. vm_compute in Hm. injection Hm as <-. lia.
Defined.

(** Property X16. With a maximum below 1 (a safe integer) the listener
    never settles: a quantity of at least 1 alternates between the maximum
    and 1. *)
Theorem quantity_listener_alternates_below_one (this : Input.t) (m v : Z) :
  JS.parseInt (Input.max this) = Some m -> - JS.MAX_SAFE_INTEGER <= m < 1 ->
  JS.parseInt (Input.value this) = Some v -> 1 <= v ->
  let once := quantity_input_listener this in
  let twice := quantity_input_listener once in
  JS.parseInt (Input.value once) = Some m /\
  JS.parseInt (Input.value twice) = Some 1 /\
  JS.parseInt (Input.value (quantity_input_listener twice)) = Some m.
Proof.
  intros Hm [_ Hlow] Hv Hone. cbv zeta.
  assert (Hstep : forall t x, JS.parseInt (Input.max t) = Some m ->
             JS.parseInt (Input.value t) = Some x ->
             Input.max (quantity_input_listener t) = Input.max t /\
             (1 <= x -> JS.parseInt (Input.value (quantity_input_listener t)) = Some m) /\
             (x = m -> JS.parseInt (Input.value (quantity_input_listener t)) = Some 1)).
  { intros t x Ht Hx. unfold quantity_input_listener. rewrite Ht, Hx.
    cbn [num_gt num_lt default from_option id].
    destruct (Z.ltb_spec m x); destruct (Z.ltb_spec x 1);
      cbn [Input.set_value Input.value Input.max];
      rewrite ?JSFacts.parseInt_Number_toString; repeat split; intros; try lia; congruence. }
  destruct (Hstep this v Hm Hv) as (Hmax1 & Hv1 & _). specialize (Hv1 Hone).
  rewrite <- Hmax1 in Hm.
  destruct (Hstep _ m Hm Hv1) as (Hmax2 & _ & Hv2). specialize (Hv2 eq_refl).
  rewrite <- Hmax2 in Hm.
  destruct (Hstep _ 1 Hm Hv2) as (_ & Hv3 & _).
  split; [exact Hv1|]. split; [exact Hv2|]. apply Hv3. lia.
Qed.

Lemma quantity_listener_alternates_below_one_witness :
  let this := {| Input.max := "0"; Input.value := "5" |} in
  JS.parseInt (Input.value (quantity_input_listener this)) = Some 0 /\
  JS.parseInt (Input.value (quantity_input_listener (quantity_input_listener this))) = Some 1 /\
  JS.parseInt (Input.value
                 (quantity_input_listener
                    (quantity_input_listener (quantity_input_listener this)))) = Some 0.
Proof.
  apply (quantity_listener_alternates_below_one {| Input.max := "0"; Input.value := "5" |} 0 5).
  - reflexivity.
  - unfold JS.MAX_SAFE_INTEGER. lia.
  - reflexivity.
  - lia.
Defined.

(** ** Breaking even *)

Lemma float_of_SF (x y : float) : Prim2SF x = Prim2SF y -> x = y.
Proof. apply Prim2SF_inj. Qed.

(** Property X17. Breaking even is a return of zero: for every buy price that is a
    number and not [Infinity], selling at the buy price gives [0]. *)
Theorem calculateROI_breaks_even (price : float) :
  PrimFloat.is_nan price = false ->
  price <> infinity ->
  calculateROI price price = 0%float.
Proof.
  intros Hnan Hinf. unfold calculateROI.
  destruct (PrimFloat.leb price 0%float) eqn:Hguard; [reflexivity|].
  assert (Hpos : exists m e, Prim2SF price = S754_finite false m e).
  { revert Hnan Hguard. unfold PrimFloat.is_nan.
    rewrite FloatAxioms.leb_spec, FloatAxioms.eqb_spec.
    change (Prim2SF 0%float) with (S754_zero false).
    unfold SFleb, SFeqb.
    destruct (Prim2SF price) as [s | s | | s m e] eqn:Hsf; cbn.
    - discriminate.
    - destruct s; [discriminate|]. exfalso. apply Hinf, float_of_SF.
      rewrite Hsf. reflexivity.
    - discriminate.
    - destruct s; [discriminate | eauto]. }
  destruct Hpos as (m & e & Hsf).
  assert (Hsub : PrimFloat.sub price price = 0%float).
  { apply float_of_SF. rewrite FloatAxioms.sub_spec, Hsf.
    unfold SF64sub, SFsub. cbn [cond_Zopp]. rewrite Z.sub_diag. reflexivity. }
  assert (Hdiv : PrimFloat.div 0%float price = 0%float).
  { apply float_of_SF. rewrite FloatAxioms.div_spec, Hsf. reflexivity. }
  rewrite Hsub, Hdiv. reflexivity.
Qed.

Lemma calculateROI_breaks_even_witness : calculateROI 12500%float 12500%float = 0%float.
Proof.
  apply (calculateROI_breaks_even 12500%float).
  - reflexivity.
  - intros Heq. discriminate (f_equal Prim2SF Heq).
Defined.

(** ** The window: one poller, expiring notifications, one submission *)

Section LifecycleFacts.
Import Lifecycle.

Ltac window_fields :=
  cbn [pathname autoRefreshInterval timers next_handle body next_node fetches inputs
       submitted set_autoRefreshInterval set_timers set_body set_inputs add_timer
       setInterval setTimeout clearInterval clearTimeout fetch refreshData appendChild
       fst snd callback repeats delay] in *.

Lemma names_add (w w' : window) (h : positive) (t t' : timer) :
  timers w' = <[next_handle w := t']> (timers w) ->
  next_handle w' = Pos.succ (next_handle w) ->
  names w h t -> names w' h t.
Proof.
  intros Ht Hn [Hlt Hh]. unfold names. rewrite Ht, Hn.
  split; [lia|]. rewrite lookup_insert_ne by lia. exact Hh.
Qed.

Lemma names_delete (w w' : window) (h h' : positive) (t : timer) :
  timers w' = delete h' (timers w) ->
  next_handle w' = next_handle w ->
  names w h t -> names w' h t.
Proof.
  intros Ht Hn [Hlt Hh]. unfold names. rewrite Ht, Hn. split; [exact Hlt|].
  destruct (decide (h' = h)) as [-> | Hne].
  - left. apply lookup_delete_eq.
  - rewrite lookup_delete_ne by exact Hne. exact Hh.
Qed.

Lemma names_same (w w' : window) (h : positive) (t : timer) :
  timers w' = timers w ->
  next_handle w' = next_handle w ->
  names w h t -> names w' h t.
Proof. intros Ht Hn. unfold names. now rewrite Ht, Hn. Qed.

Ltac lookups :=
  repeat match goal with
    | H : <[_ := _]> _ !! _ = Some _ |- _ =>
        apply lookup_insert_Some in H as [[<- <-] | [? H]]
    | H : delete _ _ !! _ = Some _ |- _ =>
        apply lookup_delete_Some in H as [? H]
    end.

Lemma showNotification_consistent (message type : string) (w : window) :
  consistent w -> consistent (showNotification message type w).
Proof.
  intros [H1 H2 H3 H4 H5 H6 H7]. unfold showNotification. window_fields.
  split; window_fields.
  - intros h t Ht. lookups; [lia|]. specialize (H1 _ _ Ht). lia.
  - intros h Hh. eapply names_add; [reflexivity | reflexivity | exact (H2 h Hh)].
  - intros h t Ht Hc. lookups; [discriminate|]. eauto.
  - intros i a h Hi Ha. eapply names_add; [reflexivity | reflexivity | exact (H4 i a h Hi Ha)].
  - intros h t i Ht Hc. lookups; [discriminate|]. eauto.
  - intros node a Hin. apply in_app_or in Hin as [Hin | [[= <- <-] | []]].
    + destruct (H6 node a Hin) as [h Hh]. exists h.
      rewrite lookup_insert_ne; [exact Hh|]. specialize (H1 _ _ Hh). lia.
    + exists (next_handle w). apply lookup_insert_eq.
  - exact H7.
Qed.

Lemma refreshData_consistent (w : window) : consistent w -> consistent (refreshData w).
Proof.
  intros [H1 H2 H3 H4 H5 H6 H7]. split; window_fields; assumption.
Qed.

Lemma startAutoRefresh_consistent (w : window) :
  consistent w -> consistent (startAutoRefresh w).
Proof.
  intros Hw. unfold startAutoRefresh.
  destruct (polling_route (pathname w)) eqn:Hroute; [|exact Hw].
  destruct Hw as [H1 H2 H3 H4 H5 H6 H7].
  window_fields. split; window_fields.
  - intros h t Ht. lookups; [lia|]. specialize (H1 _ _ Ht). lia.
  - intros h [= <-]. split; window_fields; [lia|]. right. apply lookup_insert_eq.
  - intros h t Ht Hc. lookups; [reflexivity|]. eauto.
  - intros i a h Hi Ha. eapply names_add; [reflexivity | reflexivity | exact (H4 i a h Hi Ha)].
  - intros h t i Ht Hc. lookups; [discriminate|]. eauto.
  - intros node a Hin. destruct (H6 node a Hin) as [h Hh]. exists h.
    rewrite lookup_insert_ne; [exact Hh|]. specialize (H1 _ _ Hh). lia.
  - congruence.
Qed.

(** Deleting the timer a handle of the script names keeps every other
    timer, so the notifications keep theirs. *)
Lemma delete_named_consistent (w : window) (h0 : positive) (t0 : timer)
    (v : option positive) :
  consistent w ->
  names w h0 t0 ->
  (forall node, t0 <> remover node) ->
  v = autoRefreshInterval w \/ v = None ->
  consistent (set_autoRefreshInterval v (set_timers (delete h0 (timers w)) w)).
Proof.
  intros [H1 H2 H3 H4 H5 H6 H7] [_ Hn] Hrem Hv. split; window_fields.
  - intros h t Ht. lookups. eauto.
  - intros h Hh. destruct Hv as [-> | ->]; [|discriminate].
    eapply (names_delete w); [reflexivity | reflexivity | exact (H2 h Hh)].
  - intros h t Ht Hc. lookups. eauto.
  - intros i a h Hi Ha.
    eapply (names_delete w); [reflexivity | reflexivity | exact (H4 i a h Hi Ha)].
  - intros h t i Ht Hc. lookups. eauto.
  - intros node a Hin. destruct (H6 node a Hin) as [h Hh]. exists h.
    rewrite lookup_delete_ne; [exact Hh|]. intros <-.
    destruct Hn as [Hn | Hn]; rewrite Hn in Hh; [discriminate|].
    injection Hh as Hh. exact (Hrem node Hh).
  - intros Hr. destruct Hv as [-> | ->]; auto.
Qed.

Lemma consistent_ext (w w' : window) :
  pathname w' = pathname w -> autoRefreshInterval w' = autoRefreshInterval w ->
  timers w' = timers w -> next_handle w' = next_handle w -> body w' = body w ->
  inputs w' = inputs w ->
  consistent w -> consistent w'.
Proof.
  intros Hp Hv Ht Hn Hb Hi [H1 H2 H3 H4 H5 H6 H7].
  split; unfold names in *; rewrite ?Hp, ?Hv, ?Ht, ?Hn, ?Hb, ?Hi; assumption.
Qed.

Lemma on_beforeunload_consistent (w : window) :
  consistent w -> consistent (on_beforeunload w).
Proof.
  intros Hw. unfold on_beforeunload.
  destruct (autoRefreshInterval w) as [h|] eqn:Hv; [|exact Hw].
  apply (delete_named_consistent w h poller (autoRefreshInterval w) Hw).
  - apply (interval_named w Hw), Hv.
  - discriminate.
  - now left.
Qed.

Lemma stop_consistent (w : window) (h : positive) :
  autoRefreshInterval w = Some h ->
  consistent w -> consistent (set_autoRefreshInterval None (clearInterval (Some h) w)).
Proof.
  intros Hv Hw. apply (delete_named_consistent w h poller None Hw).
  - apply (interval_named w Hw), Hv.
  - discriminate.
  - now right.
Qed.

Lemma on_offline_consistent (w : window) : consistent w -> consistent (on_offline w).
Proof.
  intros Hw. unfold on_offline.
  pose proof (showNotification_consistent "Connection lost" "warning" w Hw) as Hw1.
  destruct (autoRefreshInterval _) as [h|] eqn:Hv; [|exact Hw1].
  apply stop_consistent; assumption.
Qed.

Lemma on_online_consistent (w : window) : consistent w -> consistent (on_online w).
Proof.
  intros Hw. unfold on_online.
  pose proof (showNotification_consistent "Connection restored" "success" w Hw) as Hw1.
  destruct (autoRefreshInterval _) as [h|] eqn:Hv; [exact Hw1|].
  apply startAutoRefresh_consistent; assumption.
Qed.

Lemma on_keydown_consistent (e : keyboard_event) (w : window) :
  consistent w -> consistent (snd (on_keydown e w)).
Proof.
  intros Hw. unfold on_keydown. destruct (_ && _); [|exact Hw].
  apply showNotification_consistent, refreshData_consistent, Hw.
Qed.

Lemma remove_consistent (node : positive) (w : window) :
  consistent w -> consistent (remove node w).
Proof.
  intros [H1 H2 H3 H4 H5 H6 H7]. split; try assumption.
  unfold remove. window_fields. intros node' a Hin.
  apply List.filter_In in Hin as [Hin _]. eauto.
Qed.

(** Deleting a timer that removes a notification no longer shown. *)
Lemma delete_remover_consistent (w : window) (h : positive) (t : timer) (node : positive) :
  consistent w ->
  timers w !! h = Some t -> callback t = RemoveNotification node ->
  (forall a, ~ In (node, a) (body w)) ->
  consistent (set_timers (delete h (timers w)) w).
Proof.
  intros [H1 H2 H3 H4 H5 H6 H7] Ht Hc Hgone. split; window_fields.
  - intros h' t' Ht'. lookups. eauto.
  - intros h' Hh'. eapply (names_delete w); [reflexivity | reflexivity | exact (H2 h' Hh')].
  - intros h' t' Ht' Hc'. lookups. eauto.
  - intros i a h' Hi Ha.
    eapply (names_delete w); [reflexivity | reflexivity | exact (H4 i a h' Hi Ha)].
  - intros h' t' i Ht' Hc'. lookups. eauto.
  - intros node' a Hin. destruct (H6 node' a Hin) as [h' Hh']. exists h'.
    rewrite lookup_delete_ne; [exact Hh'|]. intros <-.
    rewrite Ht in Hh'. injection Hh' as ->. injection Hc as <-.
    exact (Hgone a Hin).
  - exact H7.
Qed.

Lemma not_in_removed (node : positive) (w : window) (a : alert) :
  ~ In (node, a) (body (remove node w)).
Proof.
  unfold remove. window_fields. intros Hin. apply List.filter_In in Hin as [_ Hne].
  cbn [fst] in Hne. rewrite Pos.eqb_refl in Hne. discriminate.
Qed.

Lemma not_shown (node : positive) (w : window) (a : alert) :
  existsb (fun c => Pos.eqb (fst c) node) (body w) = false -> ~ In (node, a) (body w).
Proof.
  intros Hex Hin. assert (Htrue : existsb (fun c => Pos.eqb (fst c) node) (body w) = true).
  { apply existsb_exists. exists (node, a). split; [exact Hin | apply Pos.eqb_refl]. }
  congruence.
Qed.

Lemma fire_timer_consistent (h : positive) (w : window) :
  consistent w -> consistent (snd (fire_timer h w)).
Proof.
  intros Hw. unfold fire_timer. destruct (timers w !! h) as [t|] eqn:Ht; [|exact Hw].
  destruct (callback t) as [|node|i] eqn:Hc; cbn [call].
  - rewrite (refresh_is_interval w Hw h t Ht Hc). cbn [repeats poller snd].
    apply refreshData_consistent, Hw.
  - cbn [snd]. destruct (repeats t).
    + destruct (existsb _ _); [apply remove_consistent|]; exact Hw.
    + destruct (existsb _ (body (set_timers _ w))) eqn:Hex.
      * apply (delete_remover_consistent (remove node w) h t node).
        -- apply remove_consistent, Hw.
        -- exact Ht.
        -- exact Hc.
        -- intros a. apply not_in_removed.
      * apply (delete_remover_consistent w h t node Hw Ht Hc).
        intros a. apply not_shown. exact Hex.
  - destruct (submitter_held w Hw h t i Ht Hc) as (a & Hi & Ha).
    pose proof (timeout_named w Hw i a h Hi Ha) as Hnames.
    assert (Ht' : t = submitter i).
    { destruct Hnames as [_ [Hn | Hn]]; congruence. }
    subst t. cbn [repeats submitter].
    assert (Hdel : consistent (set_timers (delete h (timers w)) w)).
    { apply (delete_named_consistent w h (submitter i) (autoRefreshInterval w) Hw Hnames).
      - discriminate.
      - now left. }
    destruct (_ ≫= closest_form) as [form|]; cbn [snd]; [|exact Hdel].
    revert Hdel. apply consistent_ext; reflexivity.
Qed.

Lemma on_change_consistent (input : string) (w : window) :
  consistent w -> consistent (on_change input w).
Proof.
  intros Hw. unfold on_change. destruct (inputs w !! input) as [this|] eqn:Hthis; [|exact Hw].
  set (w1 := clearTimeout (autoSubmitTimeout this) w).
  assert (Hw1 : consistent w1 /\ inputs w1 = inputs w /\
                forall h t, timers w1 !! h = Some t -> callback t <> SubmitClosestForm input).
  { subst w1. unfold clearTimeout, clearInterval.
    destruct (autoSubmitTimeout this) as [h0|] eqn:Hh0.
    - split; [|split; [reflexivity|]].
      + apply (delete_named_consistent w h0 (submitter input) (autoRefreshInterval w) Hw).
        * exact (timeout_named w Hw input this h0 Hthis Hh0).
        * discriminate.
        * now left.
      + window_fields. intros h t Ht Hc. lookups.
        destruct (submitter_held w Hw h t input Ht Hc) as (a & Hi & Ha). congruence.
    - split; [exact Hw|]. split; [reflexivity|]. intros h t Ht Hc.
      destruct (submitter_held w Hw h t input Ht Hc) as (a & Hi & Ha). congruence. }
  clearbody w1. destruct Hw1 as ([H1 H2 H3 H4 H5 H6 H7] & Hin & Hnone).
  rewrite <- Hin in Hthis. clear Hin Hw w.
  window_fields. split; window_fields.
  - intros h t Ht. lookups; [lia|]. specialize (H1 _ _ Ht). lia.
  - intros h Hh. eapply names_add; [reflexivity | reflexivity | exact (H2 h Hh)].
  - intros h t Ht Hc. lookups; [discriminate|]. eauto.
  - intros i a h Hi Ha. apply lookup_insert_Some in Hi as [[<- <-] | [Hne Hi]].
    + injection Ha as <-. split; window_fields; [lia|]. right. apply lookup_insert_eq.
    + eapply names_add; [reflexivity | reflexivity | exact (H4 i a h Hi Ha)].
  - intros h t i Ht Hc. lookups.
    + injection Hc as <-. eexists. split; [apply lookup_insert_eq | reflexivity].
    + destruct (decide (i = input)) as [-> | Hne]; [destruct (Hnone _ _ Ht Hc)|].
      rewrite lookup_insert_ne by congruence. eauto.
  - intros node a Hin. destruct (H6 node a Hin) as [h Hh]. exists h.
    rewrite lookup_insert_ne; [exact Hh|]. specialize (H1 _ _ Hh). lia.
  - exact H7.
Qed.

Lemma step_consistent (w : window) (ev : event) : consistent w -> consistent (step w ev).
Proof.
  intros Hw. destruct ev; cbn [step].
  - apply on_online_consistent, Hw.
  - apply on_offline_consistent, Hw.
  - apply on_beforeunload_consistent, Hw.
  - apply on_keydown_consistent, Hw.
  - apply on_change_consistent, Hw.
  - apply fire_timer_consistent, Hw.
  - apply remove_consistent, Hw.
Qed.

Lemma run_consistent (evs : list event) : forall w, consistent w -> consistent (run w evs).
Proof.
  induction evs as [|ev evs IH]; intros w Hw; [exact Hw|].
  apply IH, step_consistent, Hw.
Qed.

Ltac handlers :=
  unfold step, on_online, on_offline, on_beforeunload, on_keydown, on_change, fire_timer,
    call, remove, showNotification, startAutoRefresh, clearTimeout, clearInterval;
  window_fields;
  repeat match goal with
    | |- context [match ?x with _ => _ end] => destruct x eqn:?; window_fields
    | |- context [if ?x then _ else _] => destruct x eqn:?; window_fields
    end.

Lemma pathname_step (w : window) (ev : event) : pathname (step w ev) = pathname w.
Proof. destruct ev; handlers; reflexivity. Qed.

Lemma pathname_run (evs : list event) : forall w, pathname (run w evs) = pathname w.
Proof.
  induction evs as [|ev evs IH]; intros w; [reflexivity|].
  cbn [run foldl]. fold (run (step w ev) evs). now rewrite IH, pathname_step.
Qed.

Lemma run_snoc (w : window) (evs : list event) (ev : event) :
  run w (evs ++ [ev]) = step (run w evs) ev.
Proof. unfold run. now rewrite foldl_app. Qed.

Lemma pathname_startAutoRefresh (w : window) : pathname (startAutoRefresh w) = pathname w.
Proof. unfold startAutoRefresh. now destruct (polling_route (pathname w)). Qed.

Lemma pathname_window_after (path : string) (early : list event)
    (forms : gmap string (option string)) (evs : list event) :
  pathname (window_after path early forms evs) = path.
Proof.
  unfold window_after, on_DOMContentLoaded.
  rewrite pathname_run, pathname_startAutoRefresh. unfold setupEventListeners.
  cbn [pathname set_inputs]. now rewrite pathname_run.
Qed.

(** *** Before [DOMContentLoaded] *)

Lemma at_script_load_consistent (path : string) : consistent (at_script_load path).
Proof.
  unfold at_script_load. split; window_fields.
  - intros h t Ht. rewrite lookup_empty in Ht. discriminate.
  - discriminate.
  - intros h t Ht. rewrite lookup_empty in Ht. discriminate.
  - intros i a h Hi. rewrite lookup_empty in Hi. discriminate.
  - intros h t i Ht. rewrite lookup_empty in Ht. discriminate.
  - intros node a [].
  - reflexivity.
Qed.

Lemma inputs_step_early (w : window) (ev : event) :
  inputs w = ∅ -> inputs (step w ev) = ∅.
Proof.
  intros Hempty. destruct ev; handlers; try assumption;
    match goal with Hi : inputs w !! _ = Some _ |- _ =>
      rewrite Hempty, lookup_empty in Hi; discriminate Hi end.
Qed.

Lemma inputs_early (path : string) (early : list event) :
  inputs (run (at_script_load path) early) = ∅.
Proof.
  induction early as [|ev early IH] using rev_ind; [reflexivity|].
  rewrite run_snoc. apply inputs_step_early, IH.
Qed.

Lemma early_consistent (path : string) (early : list event) :
  consistent (run (at_script_load path) early).
Proof. apply run_consistent, at_script_load_consistent. Qed.

Lemma setupEventListeners_consistent (forms : gmap string (option string)) (w : window) :
  inputs w = ∅ -> consistent w -> consistent (setupEventListeners forms w).
Proof.
  intros Hempty [H1 H2 H3 H4 H5 H6 H7]. unfold setupEventListeners.
  split; window_fields; try assumption.
  - intros i a h Hi Ha. rewrite lookup_fmap in Hi.
    destruct (forms !! i); [|discriminate]. injection Hi as <-. discriminate.
  - intros h t i Ht Hc. destruct (H5 h t i Ht Hc) as (a & Ha & _).
    rewrite Hempty, lookup_empty in Ha. discriminate.
Qed.

Lemma window_after_consistent (path : string) (early : list event)
    (forms : gmap string (option string)) (evs : list event) :
  consistent (window_after path early forms evs).
Proof.
  apply run_consistent, startAutoRefresh_consistent, setupEventListeners_consistent.
  - apply inputs_early.
  - apply early_consistent.
Qed.

(** *** One poller *)

Lemma step_single (w : window) (ev : event) :
  consistent w -> single w -> single (step w ev).
Proof.
  intros Hw Hs.
  assert (Hstale : forall h, autoRefreshInterval w = Some h -> (h < next_handle w)%positive)
    by (intros h Hh; apply (interval_named w Hw h Hh)).
  destruct ev; unfold single; handlers; intros h' t' Ht' Hc'; lookups;
    try discriminate; try reflexivity;
    try (pose proof (Hs _ _ Ht' Hc'); congruence).
Qed.

Lemma run_single (evs : list event) :
  forall w, consistent w -> single w -> single (run w evs).
Proof.
  induction evs as [|ev evs IH]; intros w Hw Hs; [exact Hs|].
  apply IH; [apply step_consistent, Hw | apply step_single; assumption].
Qed.

Lemma at_script_load_single (path : string) : single (at_script_load path).
Proof. intros h t Ht. cbn in Ht. rewrite lookup_empty in Ht. discriminate. Qed.

Lemma early_single (path : string) (early : list event) :
  single (run (at_script_load path) early).
Proof.
  apply run_single; [apply at_script_load_consistent | apply at_script_load_single].
Qed.

Lemma pollers_nil (w : window) :
  pollers w = [] <-> forall h t, timers w !! h = Some t -> callback t <> RefreshData.
Proof.
  unfold pollers. split.
  - intros Hnil h t Ht Hc.
    assert (Hin : In (h, t) (List.filter (fun ht => is_poller (snd ht)) (map_to_list (timers w)))).
    { apply List.filter_In. split.
      - apply list_elem_of_In, elem_of_map_to_list, Ht.
      - unfold is_poller. cbn [snd]. now rewrite Hc. }
    rewrite Hnil in Hin. destruct Hin.
  - intros Hnone. destruct (List.filter _ _) as [|[h t] l] eqn:Hl; [reflexivity|].
    assert (Hin : In (h, t) (List.filter (fun ht => is_poller (snd ht)) (map_to_list (timers w))))
      by (rewrite Hl; now left).
    apply List.filter_In in Hin as [Hin Hp].
    apply list_elem_of_In, elem_of_map_to_list in Hin.
    exfalso. apply (Hnone h t Hin). unfold is_poller in Hp. cbn [snd] in Hp.
    now destruct (callback t).
Qed.

Lemma in_pollers (w : window) (h : positive) (t : timer) :
  In (h, t) (pollers w) <-> timers w !! h = Some t /\ callback t = RefreshData.
Proof.
  unfold pollers. rewrite List.filter_In, <- list_elem_of_In, elem_of_map_to_list.
  unfold is_poller. cbn [snd]. split; intros [Ht Hc]; (split; [exact Ht|]).
  - now destruct (callback t).
  - now rewrite Hc.
Qed.

Lemma NoDup_pollers (w : window) : NoDup (pollers w).
Proof.
  unfold pollers. generalize (NoDup_map_to_list (timers w)).
  induction 1 as [|x l Hx Hl IH]; cbn [List.filter]; [constructor|].
  destruct (is_poller (snd x)); [|exact IH]. constructor; [|exact IH].
  intros Hin. apply Hx. apply list_elem_of_In in Hin.
  apply List.filter_In in Hin as [Hin _]. apply list_elem_of_In, Hin.
Qed.

(** With one poller at most, the pollers are none or the interval held. *)
Lemma pollers_single (w : window) :
  consistent w -> single w ->
  pollers w = [] \/
  exists h, autoRefreshInterval w = Some h /\ pollers w = [(h, poller)].
Proof.
  intros Hw Hs.
  assert (Hall : forall h t, In (h, t) (pollers w) ->
                             autoRefreshInterval w = Some h /\ t = poller).
  { intros h t Hin. apply in_pollers in Hin as [Ht Hc].
    split; [exact (Hs h t Ht Hc) | exact (refresh_is_interval w Hw h t Ht Hc)]. }
  pose proof (NoDup_pollers w) as Hnd.
  destruct (pollers w) as [|[h1 t1] l]; [now left|]. right.
  destruct (Hall h1 t1 (or_introl eq_refl)) as [Hv1 ->]. exists h1. split; [exact Hv1|].
  destruct l as [|[h2 t2] l]; [reflexivity|]. exfalso.
  destruct (Hall h2 t2 (or_intror (or_introl eq_refl))) as [Hv2 ->].
  rewrite Hv1 in Hv2. injection Hv2 as <-.
  apply NoDup_cons in Hnd as [Hnot _]. apply Hnot. left.
Qed.

Lemma startAutoRefresh_single (w : window) :
  consistent w -> pollers w = [] -> single (startAutoRefresh w).
Proof.
  intros Hw Hnone. rewrite pollers_nil in Hnone.
  unfold startAutoRefresh, single.
  destruct (polling_route (pathname w)); window_fields; intros h t Ht Hc.
  - lookups; [reflexivity|]. destruct (Hnone _ _ Ht Hc).
  - destruct (Hnone _ _ Ht Hc).
Qed.

Lemma window_after_single (path : string) (early : list event)
    (forms : gmap string (option string)) (evs : list event) :
  pollers (run (at_script_load path) early) = [] ->
  single (window_after path early forms evs).
Proof.
  intros Hnone. unfold window_after, on_DOMContentLoaded. apply run_single.
  - apply startAutoRefresh_consistent, setupEventListeners_consistent;
      [apply inputs_early | apply early_consistent].
  - apply startAutoRefresh_single; [|exact Hnone].
    apply setupEventListeners_consistent; [apply inputs_early | apply early_consistent].
Qed.

(** Property X18. The poller is single, unless an interval was already
    polling when [DOMContentLoaded] was handled. Whatever happened between
    the run of the script and [DOMContentLoaded], if no interval polls at
    that point then, whatever happens afterwards, the timers that call
    [refreshData] are none, or exactly the 10-second interval whose handle
    [autoRefreshInterval] holds. *)
Theorem at_most_one_polling_interval
    (path : string) (early : list event) (forms : gmap string (option string))
    (evs : list event) :
  pollers (run (at_script_load path) early) = [] ->
  let w := window_after path early forms evs in
  pollers w = [] \/
  exists h, autoRefreshInterval w = Some h /\ pollers w = [(h, poller)].
Proof.
  intros Hnone w. apply pollers_single.
  - apply window_after_consistent.
  - apply window_after_single, Hnone.
Qed.

(** *** An interval polling before [DOMContentLoaded] *)

Lemma step_orphaned (h0 : positive) (w : window) (ev : event) :
  orphaned h0 w -> orphaned h0 (step w ev).
Proof.
  intros (Ht & Hv & Hin & Hlt). unfold orphaned.
  destruct ev; handlers;
    repeat match goal with
      | |- _ /\ _ => split
      end;
    repeat (rewrite lookup_insert_ne by lia);
    try assumption; try congruence; try lia;
    try (intros [= Heq]; lia);
    try (intros i' a' Hi; apply lookup_insert_Some in Hi as [[<- <-] | [? Hi]];
         [cbn [autoSubmitTimeout]; intros [= Heq]; lia | eapply Hin; eassumption]);
    try (rewrite lookup_delete_ne;
         [repeat (rewrite lookup_insert_ne by lia); assumption|];
         first
           [ congruence
           | intros ->; eapply Hin; eassumption
           | intros ->;
             match goal with
             | Hl : timers w !! h0 = Some ?t, Hr : repeats ?t = false |- _ =>
                 rewrite Ht in Hl; injection Hl as <-; discriminate Hr
             end ]).
Qed.

Lemma run_orphaned (h0 : positive) (evs : list event) :
  forall w, orphaned h0 w -> orphaned h0 (run w evs).
Proof.
  induction evs as [|ev evs IH]; intros w Hw; [exact Hw|].
  apply IH, step_orphaned, Hw.
Qed.

(** Property X24. An interval that polls when [DOMContentLoaded] is
    handled (an [online] event came first) is never stopped. On a page
    that polls, [DOMContentLoaded] starts a second interval without
    looking at [autoRefreshInterval] and keeps the handle of that one
    only: from then on, whatever happens, the first interval stays active
    and is not the one [autoRefreshInterval] holds, so neither [offline]
    nor [beforeunload] clears it. *)
Theorem early_online_orphans_an_interval
    (path : string) (early : list event) (forms : gmap string (option string))
    (evs : list event) (h0 : positive) :
  polling_route path = true ->
  timers (run (at_script_load path) early) !! h0 = Some poller ->
  (exists h1, h1 <> h0 /\
     autoRefreshInterval (window_after path early forms []) = Some h1 /\
     timers (window_after path early forms []) !! h1 = Some poller /\
     timers (window_after path early forms []) !! h0 = Some poller) /\
  timers (window_after path early forms evs) !! h0 = Some poller /\
  autoRefreshInterval (window_after path early forms evs) <> Some h0.
Proof.
  intros Hroute Ht0.
  set (w0 := run (at_script_load path) early) in *.
  assert (Hw0 : consistent w0) by apply early_consistent.
  assert (Hlt : (h0 < next_handle w0)%positive) by exact (handles_below w0 Hw0 h0 _ Ht0).
  assert (Hpath : pathname w0 = path).
  { subst w0. now rewrite pathname_run. }
  assert (Hstart : on_DOMContentLoaded forms w0
                   = set_autoRefreshInterval (Some (next_handle w0))
                       (snd (setInterval RefreshData 10000 (setupEventListeners forms w0)))).
  { unfold on_DOMContentLoaded, startAutoRefresh, setupEventListeners.
    cbn [pathname set_inputs]. rewrite Hpath, Hroute. reflexivity. }
  assert (Horph : orphaned h0 (on_DOMContentLoaded forms w0)).
  { rewrite Hstart. unfold orphaned, setupEventListeners. window_fields.
    split; [rewrite lookup_insert_ne by lia; exact Ht0|].
    split; [intros [= Heq]; lia|]. split; [|lia].
    intros i a Hi. rewrite lookup_fmap in Hi.
    destruct (forms !! i); [|discriminate]. injection Hi as <-. discriminate. }
  split.
  - exists (next_handle w0). unfold window_after. cbn [run foldl]. fold w0.
    rewrite Hstart. unfold setupEventListeners. window_fields.
    split; [lia|]. split; [reflexivity|]. split; [apply lookup_insert_eq|].
    rewrite lookup_insert_ne by lia. exact Ht0.
  - destruct (run_orphaned h0 evs _ Horph) as (Ht & Hv & _). split; assumption.
Qed.

(** *** Routes *)

Lemma fetches_step (w : window) (ev : event) :
  (forall h t, timers w !! h = Some t -> callback t <> RefreshData) ->
  fetches (step w ev)
  = fetches w ++ (if manual_refresh ev then ["/api/status"] else []).
Proof.
  intros Hnone. destruct ev; cbn [manual_refresh]; handlers;
    rewrite ?app_nil_r; try reflexivity; try discriminate;
    exfalso; eapply Hnone; eassumption.
Qed.

Lemma fetches_on_DOMContentLoaded (forms : gmap string (option string)) (w : window) :
  fetches (on_DOMContentLoaded forms w) = fetches w.
Proof.
  unfold on_DOMContentLoaded, startAutoRefresh, setupEventListeners. cbn [pathname set_inputs].
  now destruct (polling_route (pathname w)).
Qed.

(** Off the polling routes nothing polls, in any window that is consistent
    and has one poller at most; and these windows stay so. *)
Lemma quiet_off_route (w : window) :
  polling_route (pathname w) = false -> consistent w -> single w ->
  autoRefreshInterval w = None /\
  forall h t, timers w !! h = Some t -> callback t <> RefreshData.
Proof.
  intros Hroute Hw Hs. pose proof (route_gates w Hw Hroute) as Hv.
  split; [exact Hv|]. intros h t Ht Hc. rewrite (Hs h t Ht Hc) in Hv. discriminate.
Qed.

Lemma fetches_run_off_route (evs : list event) :
  forall w, polling_route (pathname w) = false -> consistent w -> single w ->
  fetches (run w evs)
  = fetches w ++ flat_map (fun ev => if manual_refresh ev then ["/api/status"] else []) evs.
Proof.
  induction evs as [|ev evs IH]; intros w Hroute Hw Hs; [now rewrite app_nil_r|].
  cbn [run foldl flat_map]. fold (run (step w ev) evs). rewrite IH.
  - rewrite fetches_step by apply (quiet_off_route w Hroute Hw Hs). now rewrite <- app_assoc.
  - now rewrite pathname_step.
  - apply step_consistent, Hw.
  - apply step_single; assumption.
Qed.

(** Property X19. Away from the dashboard and arbitrage pages nothing polls:
    no interval is ever set, before or after [DOMContentLoaded], and the
    status is fetched on manual refresh only, once per such key press. *)
Theorem no_polling_off_the_dashboard_routes
    (path : string) (early : list event) (forms : gmap string (option string))
    (evs : list event) :
  path <> "/" -> path <> "/arbitrage" ->
  let w := window_after path early forms evs in
  autoRefreshInterval w = None /\
  (forall h t, timers w !! h = Some t -> callback t <> RefreshData) /\
  fetches w
  = flat_map (fun ev => if manual_refresh ev then ["/api/status"] else []) (early ++ evs).
Proof.
  intros Hroot Harb w.
  assert (Hroute : polling_route path = false).
  { unfold polling_route. apply orb_false_intro; apply String.eqb_neq; assumption. }
  set (w0 := run (at_script_load path) early).
  assert (Hw0 : consistent w0) by apply early_consistent.
  assert (Hs0 : single w0) by apply early_single.
  assert (Hp0 : polling_route (pathname w0) = false).
  { subst w0. now rewrite pathname_run. }
  assert (Hnone0 : pollers w0 = []).
  { apply pollers_nil. apply (quiet_off_route w0 Hp0 Hw0 Hs0). }
  assert (Hw : consistent w) by apply window_after_consistent.
  assert (Hs : single w) by apply window_after_single, Hnone0.
  assert (Hp : polling_route (pathname w) = false).
  { subst w. now rewrite pathname_window_after. }
  destruct (quiet_off_route w Hp Hw Hs) as [Hv Hquiet].
  split; [exact Hv|]. split; [exact Hquiet|].
  subst w. unfold window_after. fold w0.
  rewrite fetches_run_off_route.
  - rewrite fetches_on_DOMContentLoaded. subst w0.
    rewrite (fetches_run_off_route early (at_script_load path)).
    + cbn [fetches at_script_load app]. now rewrite flat_map_app.
    + exact Hroute.
    + apply at_script_load_consistent.
    + apply at_script_load_single.
  - unfold on_DOMContentLoaded. rewrite pathname_startAutoRefresh. exact Hp0.
  - apply startAutoRefresh_consistent, setupEventListeners_consistent;
      [apply inputs_early | exact Hw0].
  - apply startAutoRefresh_single; [|exact Hnone0].
    apply setupEventListeners_consistent; [apply inputs_early | exact Hw0].
Qed.

(** *** Offline, online, unload *)

Lemma startAutoRefresh_starts (w : window) :
  polling_route (pathname w) = true ->
  exists h, autoRefreshInterval (startAutoRefresh w) = Some h /\
            timers (startAutoRefresh w) !! h = Some poller.
Proof.
  intros Hroute. unfold startAutoRefresh. rewrite Hroute. window_fields.
  exists (next_handle w). split; [reflexivity | apply lookup_insert_eq].
Qed.

(** Property X20. Going offline stops the polling, and coming back online
    on a page that polls starts it again, provided no interval was
    polling when [DOMContentLoaded] was handled: after an [offline] event
    [autoRefreshInterval] is null and no timer calls [refreshData]; after
    the next [online] event on a polling route exactly one does, the
    10-second interval whose handle [autoRefreshInterval] holds. *)
Theorem offline_stops_polling_and_online_resumes
    (path : string) (early : list event) (forms : gmap string (option string))
    (evs : list event) :
  pollers (run (at_script_load path) early) = [] ->
  let off := step (window_after path early forms evs) Offline in
  let on := step off Online in
  (autoRefreshInterval off = None /\ pollers off = []) /\
  (polling_route path = true ->
   exists h, autoRefreshInterval on = Some h /\ pollers on = [(h, poller)]).
Proof.
  intros Hnone off on.
  assert (Hw : consistent off).
  { apply step_consistent, window_after_consistent. }
  assert (Hs : single off).
  { apply step_single; [apply window_after_consistent | apply window_after_single, Hnone]. }
  assert (Hv : autoRefreshInterval off = None).
  { subst off. cbn [step]. unfold on_offline.
    destruct (autoRefreshInterval (showNotification _ _ _)) eqn:Hv; [reflexivity | exact Hv]. }
  split.
  - split; [exact Hv|]. apply pollers_nil. intros h t Ht Hc.
    rewrite (Hs h t Ht Hc) in Hv. discriminate.
  - intros Hroute.
    assert (Hstart : exists h, autoRefreshInterval on = Some h /\ timers on !! h = Some poller).
    { subst on. cbn [step]. unfold on_online.
      change (autoRefreshInterval (showNotification "Connection restored" "success" off))
        with (autoRefreshInterval off).
      rewrite Hv. apply startAutoRefresh_starts.
      change (pathname (showNotification "Connection restored" "success" off))
        with (pathname off).
      subst off. now rewrite pathname_step, pathname_window_after. }
    destruct Hstart as (h & Hh & Ht). exists h. split; [exact Hh|].
    destruct (pollers_single on) as [Hnil | (h' & Hh' & Hone)].
    + apply step_consistent, Hw.
    + apply step_single; assumption.
    + exfalso. rewrite pollers_nil in Hnil. exact (Hnil h poller Ht eq_refl).
    + rewrite Hh in Hh'. injection Hh' as <-. exact Hone.
Qed.

(** A stale handle stays stale: handles are not handed out twice. *)
Lemma stale_step (w : window) (ev : event) (h0 : positive) :
  consistent w ->
  autoRefreshInterval w = Some h0 -> timers w !! h0 = None -> ev <> Offline ->
  autoRefreshInterval (step w ev) = Some h0 /\ timers (step w ev) !! h0 = None.
Proof.
  intros Hw Hv Hstale Hev.
  assert (Hlt : (h0 < next_handle w)%positive) by apply (interval_named w Hw h0 Hv).
  destruct ev; try congruence; handlers;
    try congruence;
    (split; [congruence|]);
    rewrite ?lookup_insert_ne by lia;
    try match goal with
      | |- delete ?h _ !! _ = None =>
          apply lookup_delete_None; right
      end;
    rewrite ?lookup_insert_ne by lia;
    try assumption;
    try (apply lookup_delete_None; right; assumption).
Qed.

(** Property X21. An unload that does not happen leaves the polling off:
    the interval was cleared but its handle kept, so coming online starts
    nothing; only going offline and online again polls anew. (No interval
    polling when [DOMContentLoaded] was handled.) *)
Theorem cancelled_unload_leaves_polling_off
    (path : string) (early : list event) (forms : gmap string (option string))
    (evs0 evs : list event) :
  pollers (run (at_script_load path) early) = [] ->
  let w := window_after path early forms evs0 in
  autoRefreshInterval w <> None ->
  ~ In Offline evs ->
  pollers (run (step w BeforeUnload) evs) = [].
Proof.
  intros Hnone w Hv Hevs.
  assert (Hw : consistent w) by apply window_after_consistent.
  assert (Hs : single w) by apply window_after_single, Hnone.
  destruct (autoRefreshInterval w) as [h0|] eqn:Hh0; [clear Hv | congruence].
  assert (Hstate : consistent (step w BeforeUnload) /\ single (step w BeforeUnload) /\
                   autoRefreshInterval (step w BeforeUnload) = Some h0 /\
                   timers (step w BeforeUnload) !! h0 = None).
  { split; [apply step_consistent, Hw|]. split; [apply step_single; assumption|].
    cbn [step]. unfold on_beforeunload.
    rewrite Hh0. cbn. split; [exact Hh0 | apply lookup_delete_eq]. }
  revert Hstate Hevs. generalize (step w BeforeUnload). clear w Hw Hs Hh0.
  induction evs as [|ev evs IH]; intros w (Hw & Hs & Hv & Hstale) Hevs.
  - cbn [run foldl]. apply pollers_nil. intros h t Ht Hc.
    rewrite (Hs h t Ht Hc) in Hv. injection Hv as ->. congruence.
  - cbn [run foldl]. apply IH.
    + split; [apply step_consistent, Hw|]. split; [apply step_single; assumption|].
      apply stale_step; try assumption. intros ->. apply Hevs. now left.
    + intros Hin. apply Hevs. now right.
Qed.

(** *** Notifications *)

(** Property X22. Every notification on the page expires: a timeout that
    removes it is pending, and once it has fired the notification is
    gone. This holds of every window, also with events before
    [DOMContentLoaded]. *)
Theorem every_notification_expires
    (path : string) (early : list event) (forms : gmap string (option string))
    (evs : list event) (node : positive) (a : alert) :
  let w := window_after path early forms evs in
  In (node, a) (body w) ->
  exists h, timers w !! h = Some (remover node) /\
            forall a', ~ In (node, a') (body (step w (TimerFires h))).
Proof.
  intros w Hin.
  assert (Hw : consistent w) by apply window_after_consistent.
  destruct (alert_expires w Hw node a Hin) as [h Hh]. exists h.
  split; [exact Hh|]. intros a'. cbn [step]. unfold fire_timer. rewrite Hh.
  cbn [callback repeats remover call snd].
  destruct (existsb _ _) eqn:Hex; [apply not_in_removed | apply not_shown, Hex].
Qed.

(** *** The debounced submission *)

Lemma on_change_arms (input : string) (w : window) (this : auto_input) :
  inputs w !! input = Some this ->
  exists h,
    inputs (on_change input w) !! input
    = Some {| autoSubmitTimeout := Some h; closest_form := closest_form this |} /\
    timers (on_change input w) !! h = Some (submitter input) /\
    submitted (on_change input w) = submitted w.
Proof.
  intros Hthis. unfold on_change. rewrite Hthis.
  unfold clearTimeout, clearInterval.
  destruct (autoSubmitTimeout this); window_fields; eexists;
    (split; [apply lookup_insert_eq|]); (split; [apply lookup_insert_eq | reflexivity]).
Qed.

Lemma changes_keep_form (input : string) (n : nat) :
  forall (w : window) (this : auto_input),
  inputs w !! input = Some this ->
  exists this',
    inputs (run w (replicate n (Change input))) !! input = Some this' /\
    closest_form this' = closest_form this /\
    submitted (run w (replicate n (Change input))) = submitted w.
Proof.
  induction n as [|n IH]; intros w this Hthis; [exists this; auto|].
  cbn [replicate run foldl step].
  destruct (on_change_arms input w this Hthis) as (h & Hin & _ & Hsub).
  destruct (IH _ _ Hin) as (this' & Hin' & Hform & Hsub').
  exists this'. split; [exact Hin'|]. split; [exact Hform|].
  unfold run in Hsub'. now rewrite Hsub'.
Qed.

(** Property X23. The filter form is submitted once per burst of changes:
    however many times an input changes before its timer fires, one timeout
    is pending for it afterwards, and when that fires the enclosing form is
    submitted once and nothing is left pending for the input. *)
Theorem change_burst_submits_once
    (path : string) (early : list event) (forms : gmap string (option string))
    (evs : list event) (input form : string) (this : auto_input) (n : nat) :
  let w := window_after path early forms evs in
  inputs w !! input = Some this ->
  closest_form this = Some form ->
  let w' := run w (replicate (S n) (Change input)) in
  exists h,
    timers w' !! h = Some (submitter input) /\
    (forall h' t, timers w' !! h' = Some t -> callback t = SubmitClosestForm input -> h' = h) /\
    submitted (step w' (TimerFires h)) = submitted w ++ [form] /\
    (forall h' t, timers (step w' (TimerFires h)) !! h' = Some t ->
                  callback t <> SubmitClosestForm input).
Proof.
  intros w Hthis Hform w'.
  assert (Hw' : consistent w') by apply run_consistent, window_after_consistent.
  subst w'. replace (S n) with (n + 1)%nat in * by lia.
  rewrite replicate_add in *. cbn [replicate] in *. rewrite run_snoc in *.
  destruct (changes_keep_form input n w this Hthis) as (this' & Hin' & Hform' & Hsub').
  set (w1 := run w (replicate n (Change input))) in *.
  destruct (on_change_arms input w1 this' Hin') as (h & Hin & Ht & Hsub).
  cbn [step] in *. set (w2 := on_change input w1) in *.
  assert (Hone : forall h' t, timers w2 !! h' = Some t ->
                              callback t = SubmitClosestForm input -> h' = h).
  { intros h' t Ht' Hc. destruct (submitter_held w2 Hw' h' t input Ht' Hc) as (a & Ha & Hh').
    rewrite Hin in Ha. injection Ha as <-. cbn in Hh'. injection Hh' as <-. reflexivity. }
  exists h. split; [exact Ht|]. split; [exact Hone|].
  unfold fire_timer. rewrite Ht. cbn [callback repeats submitter call].
  change (inputs (set_timers (delete h (timers w2)) w2)) with (inputs w2).
  rewrite Hin. cbn [mbind option_bind closest_form]. rewrite Hform', Hform.
  cbn [snd submitted timers set_timers]. split; [now rewrite Hsub, Hsub'|].
  intros h' t Ht' Hc. change (timers (set_timers (delete h (timers w2)) w2))
    with (delete h (timers w2)) in Ht'.
  apply lookup_delete_Some in Ht' as [Hne Ht']. exact (Hne (eq_sym (Hone h' t Ht' Hc))).
Qed.

End LifecycleFacts.

Section LifecycleSamples.
Import Lifecycle.

(** Property X18 on the dashboard, with a key press before
    [DOMContentLoaded] and an offline and an online event after it. *)
Lemma at_most_one_polling_interval_witness :
  let w := window_after "/" [Keydown ctrl_r] filter_forms [Offline; Online] in
  pollers w = [] \/
  exists h, autoRefreshInterval w = Some h /\ pollers w = [(h, poller)].
Proof.
  apply (at_most_one_polling_interval "/" [Keydown ctrl_r] filter_forms [Offline; Online]).
  reflexivity.
Defined.

(** ... where one interval polls. *)
Example one_interval_polls :
  pollers (window_after "/" [Keydown ctrl_r] filter_forms [Offline; Online])
  = [(5%positive, poller)].
Proof. reflexivity. Qed.

Lemma no_polling_off_the_dashboard_routes_witness :
  let w := window_after "/offers" [Online] filter_forms [Keydown ctrl_r; TimerFires 1] in
  autoRefreshInterval w = None /\
  (forall h t, timers w !! h = Some t -> callback t <> RefreshData) /\
  fetches w = ["/api/status"].
Proof.
  apply (no_polling_off_the_dashboard_routes "/offers" [Online] filter_forms
           [Keydown ctrl_r; TimerFires 1]).
  - discriminate.
  - discriminate.
Defined.

(** Property X20 on the arbitrage page, after a manual refresh. *)
Lemma offline_stops_polling_and_online_resumes_witness :
  let off := step (window_after "/arbitrage" [] filter_forms [Keydown ctrl_r]) Offline in
  let on := step off Online in
  (autoRefreshInterval off = None /\ pollers off = []) /\
  exists h, autoRefreshInterval on = Some h /\ pollers on = [(h, poller)].
Proof.
  destruct (offline_stops_polling_and_online_resumes "/arbitrage" [] filter_forms
              [Keydown ctrl_r]) as [Hoff Hon]; [reflexivity|].
  split; [exact Hoff | apply Hon; reflexivity].
Defined.

(** Property X21 on the dashboard: polling is on after [DOMContentLoaded];
    after [beforeunload], an online event and a key press nothing polls. *)
Lemma cancelled_unload_leaves_polling_off_witness :
  pollers (window_after "/" [] filter_forms []) = [(1%positive, poller)] /\
  pollers (run (step (window_after "/" [] filter_forms []) BeforeUnload)
             [Online; Keydown ctrl_r]) = [].
Proof.
  split; [reflexivity|].
  apply (cancelled_unload_leaves_polling_off "/" [] filter_forms [] [Online; Keydown ctrl_r]).
  - reflexivity.
  - discriminate.
  - intros [[=] | [[=] | []]].
Defined.

Lemma every_notification_expires_witness :
  exists h,
    timers (window_after "/" [Online] filter_forms [Keydown ctrl_r]) !! h = Some (remover 2) /\
    forall a', ~ In (2%positive, a')
                 (body (step (window_after "/" [Online] filter_forms [Keydown ctrl_r])
                          (TimerFires h))).
Proof.
  apply (every_notification_expires "/" [Online] filter_forms [Keydown ctrl_r] 2%positive
           {| className := "alert alert-info alert-dismissible fade show position-fixed";
              message := "Data refreshed manually" |}).
  right. left. reflexivity.
Defined.

Lemma change_burst_submits_once_witness :
  let w' := run (window_after "/offers" [] filter_forms []) (replicate 3 (Change "city")) in
  exists h,
    timers w' !! h = Some (submitter "city") /\
    (forall h' t, timers w' !! h' = Some t -> callback t = SubmitClosestForm "city" -> h' = h) /\
    submitted (step w' (TimerFires h)) = [] ++ ["filters"] /\
    (forall h' t, timers (step w' (TimerFires h)) !! h' = Some t ->
                  callback t <> SubmitClosestForm "city").
Proof.
  apply (change_burst_submits_once "/offers" [] filter_forms [] "city" "filters"
           {| autoSubmitTimeout := None; closest_form := Some "filters" |} 2).
  - reflexivity.
  - reflexivity.
Defined.

(** Property X24 on the dashboard: an online event before
    [DOMContentLoaded], then anything; here an offline event, after which
    the first interval still polls. *)
Lemma early_online_orphans_an_interval_witness :
  (exists h1, h1 <> 2%positive /\
     autoRefreshInterval (window_after "/" [Online] filter_forms []) = Some h1 /\
     timers (window_after "/" [Online] filter_forms []) !! h1 = Some poller /\
     timers (window_after "/" [Online] filter_forms []) !! 2%positive = Some poller) /\
  timers (window_after "/" [Online] filter_forms [Offline]) !! 2%positive = Some poller /\
  autoRefreshInterval (window_after "/" [Online] filter_forms [Offline]) <> Some 2%positive.
Proof.
  apply (early_online_orphans_an_interval "/" [Online] filter_forms [Offline] 2%positive).
  - reflexivity.
  - reflexivity.
Defined.

Example offline_leaves_the_orphan_polling :
  pollers (window_after "/" [Online] filter_forms [Offline]) = [(2%positive, poller)] /\
  autoRefreshInterval (window_after "/" [Online] filter_forms [Offline]) = None.
Proof. split; reflexivity. Qed.

End LifecycleSamples.
